(** * climProj: the parallel CMIP6 download engine of [ee_download_async.py]

    A shallow embedding of the batch-download code and the properties its
    design document states about it.

    Conventions of the embedding.
    - Python [str] values are [string]s of ASCII characters; [str.isdigit]
      is the ASCII test (identifiers of the catalogue are ASCII).
    - The catalogue's JSON property values are strings or integers.
    - The file system is a finite map from path to size in bytes; only the
      existence and size of a path are ever observed by the code.
    - Paths are joined as [posixpath] does, and [datetime.fromtimestamp]
      reads the local time zone as an offset from UTC that is an argument.
    - Remote calls (Earth Engine, HTTP) are answered by an environment that
      is an argument of the functions.
    - What the code prints and which external calls it makes is kept as a
      list of events, so that statements about "attempts" and "sleeps" are
    statements about that list. *)

From Stdlib Require Import ZArith Ascii String List Sorted Lia.
From stdpp Require Import base tactics option list strings pretty gmap fin_maps.

Local Open Scope string_scope.
Local Open Scope list_scope.
Local Open Scope Z_scope.

(** ** Strings as Python uses them *)

Module PyStr.

(** [s.split(sep)] for a one-character separator: never empty. *)
Fixpoint split (sep : ascii) (s : string) : list string :=
  match s with
  | EmptyString => [EmptyString]
  | String c s' =>
      if Ascii.eqb c sep then EmptyString :: split sep s'
      else match split sep s' with
           | [] => [String c EmptyString]
           | w :: ws => String c w :: ws
           end
  end.

(** [s.replace(a, b)] for one-character [a] and [b]. *)
Fixpoint replace (a b : ascii) (s : string) : string :=
  match s with
  | EmptyString => EmptyString
  | String c s' => String (if Ascii.eqb c a then b else c) (replace a b s')
  end.

Definition is_digit (c : ascii) : bool :=
  let n := nat_of_ascii c in (48 <=? n)%nat && (n <=? 57)%nat.

Fixpoint all_digits (s : string) : bool :=
  match s with
  | EmptyString => true
  | String c s' => is_digit c && all_digits s'
  end.

(** [s.isdigit()]: false on the empty string. *)
Definition isdigit (s : string) : bool :=
  match s with
  | EmptyString => false
  | _ => all_digits s
  end.


(** [int(s)] on a string of ASCII digits. *)
Fixpoint int_acc (acc : Z) (s : string) : Z :=
  match s with
  | EmptyString => acc
  | String c s' => int_acc (10 * acc + (Z.of_nat (nat_of_ascii c) - 48)) s'
  end.
Definition int (s : string) : Z := int_acc 0 s.

Definition digit (d : Z) : ascii := ascii_of_nat (48 + Z.to_nat (d mod 10)).

(** [f"{n:0{w}d}"] for [0 <= n < 10^w]. *)
Fixpoint zfill (w : nat) (n : Z) : string :=
  match w with
  | O => EmptyString
  | S w' => zfill w' (n / 10) +:+ String (digit n) EmptyString
  end.

(** [os.path.join(a, b)] of [posixpath]. *)
Definition ends_with_slash (s : string) : bool :=
  match String.get (String.length s - 1) s with
  | Some c => Ascii.eqb c "/"
  | None => false
  end.

Definition path_join (a b : string) : string :=
  match b with
  | String "/" _ => b
  | _ => if (String.length a =? 0)%nat || ends_with_slash a
         then a +:+ b else a +:+ "/" +:+ b
  end.

End PyStr.

(** ** Calendar dates *)

Module Calendar.

Definition is_leap (y : Z) : bool :=
  ((y mod 4 =? 0) && negb (y mod 100 =? 0)) || (y mod 400 =? 0).

Definition days_in_month (y m : Z) : Z :=
  if m =? 2 then (if is_leap y then 29 else 28)
  else if (m =? 4) || (m =? 6) || (m =? 9) || (m =? 11) then 30
  else 31.

(** [datetime(y, m, d)] is accepted for these triples and raises
    [ValueError] for the others. *)
Definition valid_date (y m d : Z) : bool :=
  (1 <=? y) && (y <=? 9999) && (1 <=? m) && (m <=? 12)
  && (1 <=? d) && (d <=? days_in_month y m).

(** [strftime('%Y-%m-%d')], the year on four digits (what every C
    library prints for the years from 1000 on). *)
Definition strftime_ymd (y m d : Z) : string :=
  PyStr.zfill 4 y +:+ "-" +:+ PyStr.zfill 2 m +:+ "-" +:+ PyStr.zfill 2 d.

(** The proleptic Gregorian date of a day number counted from
    1970-01-01. *)
Definition civil_of_days (days : Z) : Z * Z * Z :=
  let z := days + 719468 in
  let era := z / 146097 in
  let doe := z - era * 146097 in
  let yoe := (doe - doe / 1460 + doe / 36524 - doe / 146096) / 365 in
  let y := yoe + era * 400 in
  let doy := doe - (365 * yoe + yoe / 4 - yoe / 100) in
  let mp := (5 * doy + 2) / 153 in
  let d := doy - (153 * mp + 2) / 5 + 1 in
  let m := if mp <? 10 then mp + 3 else mp - 9 in
  (if m <=? 2 then y + 1 else y, m, d).

(** [datetime.strptime(part, '%Y%m%d').strftime('%Y-%m-%d')] on a part
    of eight ASCII digits; [None] is the [ValueError] of an impossible
    date. *)
Definition reformat_yyyymmdd (part : string) : option string :=
  let y := PyStr.int (String.substring 0 4 part) in
  let m := PyStr.int (String.substring 4 2 part) in
  let d := PyStr.int (String.substring 6 2 part) in
  if valid_date y m d then Some (strftime_ymd y m d) else None.

(** [datetime.fromtimestamp(ms / 1000).strftime('%Y-%m-%d')]: the local
    date, where [utc_offset] gives the offset in seconds of the local
    time zone at a given instant; [None] is the error raised for an
    instant whose year is out of range. *)
Definition fromtimestamp_ymd (utc_offset : Z -> Z) (ms : Z) : option string :=
  let secs := ms / 1000 in
  let '(y, m, d) := civil_of_days ((secs + utc_offset secs) / 86400) in
  if (1 <=? y) && (y <=? 9999) then Some (strftime_ymd y m d) else None.

End Calendar.

(** ** Data model *)

(** A JSON property value of a catalogue record. *)
Inductive value :=
| VStr (s : string)
| VInt (n : Z).

(** [str(v)], as an f-string formats it. *)
Definition str_of_value (v : value) : string :=
match v with
| VStr s => s
| VInt n => pretty n
end.

(** One element of [coll.getInfo()['features']]: [img_info['id']] and
    [img_info.get('properties', {})]. *)
Record image_info := ImageInfo {
info_id : string;
info_properties : gmap string value
}.

(** The counters [{'total': _, 'successful': _, 'failed': _}]. *)
Record stats := Stats {
total : nat;
successful : nat;
failed : nat
}.

Definition zero_stats : stats := Stats 0 0 0.
Definition add_successful (s : stats) : stats :=
Stats (total s) (S (successful s)) (failed s).
Definition add_failed (s : stats) : stats :=
Stats (total s) (successful s) (S (failed s)).

(** The destination tree: the size in bytes of every existing path. *)
Abbreviation filesystem := (gmap string N).

(** ** Path planner (lines 119-154 of [export_cmip6_collection_parallel]) *)

Section PathPlanner.

(** The offset of the local time zone, read by [datetime.fromtimestamp]. *)
Variable utc_offset : Z -> Z.

(** Lines 133-139: the first part that has eight digits and is a date. *)
Fixpoint date_of_parts (parts : list string) : option string :=
  match parts with
  | [] => None
  | part :: rest =>
      if (String.length part =? 8)%nat && PyStr.isdigit part then
        match Calendar.reformat_yyyymmdd part with
        | Some d => Some d
        | None => date_of_parts rest
        end
      else date_of_parts rest
  end.

(** Lines 126-139. The outer [None] is an exception ([timestamp / 1000]
    on a string, or a timestamp out of range); the inner one is
    [date_str = None]. *)
Definition extract_date (image_id : string) (properties : gmap string value)
  : option (option string) :=
  match properties !! "system:time_start" with
  | Some (VInt timestamp) =>
      match Calendar.fromtimestamp_ymd utc_offset timestamp with
      | Some d => Some (Some d)
      | None => None
      end
  | Some (VStr _) => None
  | None =>
      match properties !! "system:index" with
      | Some _ => Some (date_of_parts (PyStr.split "_" image_id))
      | None => Some None
      end
  end.

(** Lines 141-142: [if not date_str]. *)
Definition date_or_fallback (date_str : option string) (index : nat) : string :=
  match date_str with
  | Some (String c s) => String c s
  | _ => "image_" +:+ pretty index
  end.

(** Lines 146-150. *)
Definition model_scenario (properties : gmap string value) : string :=
  match properties !! "model" with
  | Some v => str_of_value v
  | None =>
      match properties !! "scenario" with
      | Some v => "CMIP6_" +:+ str_of_value v
      | None => "CMIP6"
      end
  end.

(** Line 153. *)
Definition sanitize (filename : string) : string :=
  PyStr.replace ":" "_" (PyStr.replace "/" "_" filename).

(** Lines 152-153; [index] is [batch_start + i]. *)
Definition plan_filename (img : image_info) (index : nat) : option string :=
  match extract_date (info_id img) (info_properties img) with
  | Some date_str =>
      Some (sanitize (model_scenario (info_properties img) +:+ "_"
                      +:+ date_or_fallback date_str index +:+ ".tif"))
  | None => None
  end.

(** Line 154. *)
Definition plan_path (path : string) (img : image_info) (index : nat)
  : option string :=
  match plan_filename img index with
  | Some filename => Some (PyStr.path_join path filename)
  | None => None
  end.



End PathPlanner.

(** ** Single-item fetcher ([download_cmip6_image], lines 15-77) *)

(** What happens to the body once the status line has been received:
    [open(download_path, 'wb')] raises; the file is opened (and so
    truncated) and [response.read()] raises; or the content arrives and is
    written. *)
Inductive body :=
| OpenRaises
| ReadRaises
| Content (len : N).

(** The answer of one [session.get(url)]: a transport error (time-out
    included), or a response. *)
Inductive response :=
| GetRaises
| Response (status : Z) (b : body).

(** Lines 27-40, the calls made before the retry loop. *)
Inductive preparation :=
| MetadataRaises
| UrlRaises
| MakedirsRaises
| Prepared.

(** What the remote side answers to one invocation of the fetcher. *)
Record task_env := TaskEnv {
  prepare : preparation;
  respond : nat -> response
}.

Inductive fetch_event :=
| HttpGet (retry : nat)
| Open
| Write (size : N)
| Sleep (seconds : N).

(** How control leaves the [try] body of one attempt (lines 46-60). *)
Inductive attempt_end :=
| ReturnsTrue
| FallsThrough
| Raises.

Definition attempt (retry : nat) (r : response) (download_path : string)
  (fs : filesystem) : attempt_end * filesystem * list fetch_event :=
  match r with
  | GetRaises => (Raises, fs, [HttpGet retry])
  | Response status b =>
      if status =? 200 then
        match b with
        | OpenRaises => (Raises, fs, [HttpGet retry])
        | ReadRaises =>
            (Raises, <[download_path := 0%N]> fs, [HttpGet retry; Open])
        | Content len =>
            let fs' := <[download_path := len]> fs in
            let evs := [HttpGet retry; Open; Write len] in
            match fs' !! download_path with
            | Some size => if (0 <? size)%N then (ReturnsTrue, fs', evs)
                           else (FallsThrough, fs', evs)
            | None => (FallsThrough, fs', evs)
            end
        end
      else (FallsThrough, fs, [HttpGet retry])
  end.

Definition max_retries : nat := 3.

(** Lines 63-64 and 67-69: [asyncio.sleep(2 ** retry)] unless this was the
    last attempt. *)
Definition backoff (retry : nat) : list fetch_event :=
  if (retry <? max_retries - 1)%nat then [Sleep (2 ^ N.of_nat retry)] else [].

(** Lines 44-73, [for retry in range(max_retries)]. *)
Fixpoint retry_loop (retries : list nat) (respond : nat -> response)
  (download_path : string) (fs : filesystem)
  : bool * filesystem * list fetch_event :=
  match retries with
  | [] => (false, fs, [])
  | retry :: rest =>
      match attempt retry (respond retry) download_path fs with
      | (ReturnsTrue, fs', tried) => (true, fs', tried)
      | (FallsThrough, fs', tried) =>
          let '(b, fs'', evs) := retry_loop rest respond download_path fs' in
          (b, fs'', tried ++ backoff retry ++ evs)
      | (Raises, fs', tried) =>
          let '(b, fs'', evs) := retry_loop rest respond download_path fs' in
          (b, fs'', tried ++ backoff retry ++ evs)
      end
  end.

Definition download_cmip6_image (e : task_env) (download_path : string)
  (fs : filesystem) : bool * filesystem * list fetch_event :=
  match prepare e with
  | Prepared => retry_loop (seq 0 max_retries) (respond e) download_path fs
  | MetadataRaises | UrlRaises | MakedirsRaises => (false, fs, [])
  end.

(** ** Batch orchestrator ([export_cmip6_collection_parallel], lines 80-199) *)

(** An element of the list [asyncio.gather(..., return_exceptions=True)]
    returns. *)
Inductive outcome :=
| Returned (b : bool)
| Raised.

Inductive event :=
| BatchStarted (number count : nat)
| Skipped (index : nat) (filename : string) (size : N)
| Redownloading (index : nat) (filename : string)
| Fetched (index : nat) (download_path : string)
    (attempts : list fetch_event) (result : outcome)
| Counted (st : stats)
| Cooldown (seconds : N).

(** A coroutine object appended to [tasks] at line 167: the position of
    its image in the listing and its destination. *)
Record task := Task {
  task_index : nat;
  task_path : string
}.

(** How the function is left: by a [return stats] of the [try] body, by
    the one of the handler at line 199, or never. *)
Inductive run :=
| Completed (st : stats)
| Caught (st : stats)
| Hangs.

(** Lines 182-189. *)
Definition count_result (st : stats) (result : outcome) : stats :=
  match result with
  | Raised => add_failed st
  | Returned true => add_successful st
  | Returned false => add_failed st
  end.

Fixpoint count_results (st : stats) (results : list outcome)
  : stats * list event :=
  match results with
  | [] => (st, [])
  | result :: rest =>
      let st' := count_result st result in
      let '(st'', evs) := count_results st' rest in
      (st'', Counted st' :: evs)
  end.

(** [range(0, stop, step)] for a positive [step]. *)
Definition py_range (stop step : nat) : list nat :=
  (fun j => j * step)%nat <$> seq 0 ((stop + step - 1) / step)%nat.

(** [images_info[batch_start:batch_end]]. *)
Definition slice {A} (l : list A) (batch_start batch_end : nat) : list A :=
  take (batch_end - batch_start) (drop batch_start l).

Section Orchestrator.

Variable utc_offset : Z -> Z.

(** The fetcher a task runs, told apart by the position of the image in
    the listing. *)
Variable fetch : nat -> string -> filesystem ->
                 outcome * filesystem * list fetch_event.

(** Lines 117-167, [for i, img_info in enumerate(batch_images)]. The
    first component is [None] when planning a path raised. *)
Fixpoint prepare_tasks (path : string) (batch_start i : nat)
  (batch_images : list image_info) (st : stats) (fs : filesystem)
  : option (list task) * stats * list event :=
  match batch_images with
  | [] => (Some [], st, [])
  | img_info :: rest =>
      match plan_filename utc_offset img_info (batch_start + i) with
      | None => (None, st, [])
      | Some filename =>
          let download_path := PyStr.path_join path filename in
          let this := Task (batch_start + i) download_path in
          match fs !! download_path with
          | Some file_size =>
              if (1024 <? file_size)%N then
                let st' := add_successful st in
                let '(tasks, st'', evs) :=
                  prepare_tasks path batch_start (S i) rest st' fs in
                (tasks, st'',
                 Skipped (batch_start + i) filename file_size :: Counted st' :: evs)
              else
                let '(tasks, st', evs) :=
                  prepare_tasks path batch_start (S i) rest st fs in
                (cons this <$> tasks, st',
                 Redownloading (batch_start + i) filename :: evs)
          | None =>
              let '(tasks, st', evs) :=
                prepare_tasks path batch_start (S i) rest st fs in
              (cons this <$> tasks, st', evs)
          end
      end
  end.

(** Line 179: every task is run to its end and the results come back in
    the order of [tasks]. The effects on the files are applied in that
    order too, which is every schedule's result when the destinations of a
    batch are distinct. *)
Fixpoint gather (tasks : list task) (fs : filesystem)
  : list outcome * filesystem * list event :=
  match tasks with
  | [] => ([], fs, [])
  | t :: rest =>
      let '(result, fs', attempts) := fetch (task_index t) (task_path t) fs in
      let '(results, fs'', evs) := gather rest fs' in
      (result :: results, fs'',
       Fetched (task_index t) (task_path t) attempts result :: evs)
  end.

(** One iteration of the loop of line 108. *)
Definition run_batch (images_info : list image_info) (path : string)
  (max_concurrent : Z) (batch_size batch_start : nat)
  (st : stats) (fs : filesystem) : run * filesystem * list event :=
  let batch_end := Nat.min (batch_start + batch_size) (total st) in
  let batch_images := slice images_info batch_start batch_end in
  let started :=
    BatchStarted (batch_start / batch_size + 1)
                 ((total st + batch_size - 1) / batch_size) in
  match prepare_tasks path batch_start 0 batch_images st fs with
  | (None, st', evs) => (Caught st', fs, started :: evs)
  | (Some tasks, st', evs) =>
      if max_concurrent <? 0 then (Caught st', fs, started :: evs)
      else
        match tasks with
        | [] =>
            (Completed st', fs,
             started :: evs ++
             (if (batch_end <? total st)%nat then [Cooldown 1] else []))
        | _ :: _ =>
            if max_concurrent =? 0 then (Hangs, fs, started :: evs)
            else
              let '(results, fs', fetched) := gather tasks fs in
              let '(st'', counted) := count_results st' results in
              (Completed st'', fs',
               started :: evs ++ fetched ++ counted ++
               (if (batch_end <? total st)%nat then [Cooldown 1] else []))
        end
  end.

(** Lines 108-195. *)
Fixpoint batch_loop (starts : list nat) (images_info : list image_info)
  (path : string) (max_concurrent : Z) (batch_size : nat)
  (st : stats) (fs : filesystem) : run * filesystem * list event :=
  match starts with
  | [] => (Completed st, fs, [])
  | batch_start :: rest =>
      let '(r, fs', evs) :=
        run_batch images_info path max_concurrent batch_size batch_start st fs in
      match r with
      | Completed st' =>
          let '(r', fs'', evs') :=
            batch_loop rest images_info path max_concurrent batch_size st' fs' in
          (r', fs'', evs ++ evs')
      | Caught _ | Hangs => (r, fs', evs)
      end
  end.

(** [coll] is the answer of [coll.getInfo()['features']], [None] when the
    query raises. *)
Definition export_with (coll : option (list image_info)) (path : string)
  (max_concurrent batch_size : Z) (fs : filesystem)
  : run * filesystem * list event :=
  match coll with
  | None => (Caught zero_stats, fs, [])
  | Some images_info =>
      let st := Stats (length images_info) 0 0 in
      if (total st =? 0)%nat then (Completed st, fs, [])
      else if batch_size =? 0 then (Caught st, fs, [])
      else if batch_size <? 0 then (Completed st, fs, [])
      else
        batch_loop (py_range (total st) (Z.to_nat batch_size))
                   images_info path max_concurrent (Z.to_nat batch_size) st fs
  end.

End Orchestrator.

(** The task of line 167 for the image at position [index]. *)
Definition fetch_image (env : nat -> task_env) (index : nat)
  (download_path : string) (fs : filesystem)
  : outcome * filesystem * list fetch_event :=
  let '(b, fs', evs) := download_cmip6_image (env index) download_path fs in
  (Returned b, fs', evs).

Definition export_cmip6_collection_parallel (utc_offset : Z -> Z)
  (env : nat -> task_env) (coll : option (list image_info)) (path : string)
  (max_concurrent batch_size : Z) (fs : filesystem)
  : run * filesystem * list event :=
  export_with utc_offset (fetch_image env) coll path max_concurrent batch_size fs.

(** ** Concurrency gate ([download_with_semaphore], lines 169-179) *)













(** ** Variable-level driver ([getCMIP6_async], lines 202-340) *)

Definition cmip6_bands : list (string * string) :=
  [ ("tas", "Near-Surface Air Temperature");
    ("tasmin", "Daily Minimum Near-Surface Air Temperature");
    ("tasmax", "Daily Maximum Near-Surface Air Temperature");
    ("pr", "Precipitation");
    ("sfcWind", "Near-Surface Wind Speed") ].

(** [d[k]] and [d[k] = v] on a [dict], which keeps the order of first
    insertion. *)
Fixpoint dict_get {V} (k : string) (d : list (string * V)) : option V :=
  match d with
  | [] => None
  | (k', v) :: rest => if String.eqb k' k then Some v else dict_get k rest
  end.

Fixpoint dict_set {V} (k : string) (v : V) (d : list (string * V))
  : list (string * V) :=
  match d with
  | [] => [(k, v)]
  | (k', v') :: rest =>
      if String.eqb k' k then (k, v) :: rest else (k', v') :: dict_set k v rest
  end.

(** Lines 233-237. *)
Fixpoint filter_bands (variables : list string)
  (filtered_bands : list (string * string)) : list (string * string) :=
  match variables with
  | [] => filtered_bands
  | var :: rest =>
      match dict_get var cmip6_bands with
      | Some name => filter_bands rest (dict_set var name filtered_bands)
      | None => filter_bands rest filtered_bands
      end
  end.

(** Lines 231-241. *)
Definition select_bands (variables : option (list string))
  : list (string * string) :=
  match variables with
  | None | Some [] => cmip6_bands
  | Some (var :: rest) =>
      match filter_bands (var :: rest) [] with
      | [] => cmip6_bands
      | filtered_bands => filtered_bands
      end
  end.

(** Lines 294-300: [asyncio.new_event_loop()] raises, or
    [loop.run_until_complete] does, or the coroutine is run. *)
Inductive event_loop :=
| NewLoopRaises
| RunRaises
| LoopRuns.

(** What the outside answers while one variable is processed. *)
Record variable_env := VariableEnv {
  size_info : option nat;
  makedirs_ok : bool;
  loop_status : event_loop;
  features : option (list image_info);
  task_envs : nat -> task_env
}.

Inductive driver_event :=
| Exported (var_code : string) (log : list event)
| VariableSleep (seconds : N).

(** Lines 256-320, [for var_code, var_name in cmip6_bands.items()];
    [None] when an export never returns. *)
Fixpoint variable_loop (utc_offset : Z -> Z) (env : string -> variable_env)
  (bands : list (string * string)) (home : string) (max_concurrent : Z)
  (all_stats : gmap string stats) (fs : filesystem)
  : option (gmap string stats * filesystem * list driver_event) :=
  match bands with
  | [] => Some (all_stats, fs, [])
  | (var_code, var_name) :: rest =>
      let next st fs' evs :=
        match variable_loop utc_offset env rest home max_concurrent
                (<[var_code := st]> all_stats) fs' with
        | Some (all_stats', fs'', evs') => Some (all_stats', fs'', evs ++ evs')
        | None => None
        end in
      match size_info (env var_code) with
      | None => next zero_stats fs [VariableSleep 2]
      | Some count =>
          if (count =? 0)%nat then next zero_stats fs []
          else if negb (makedirs_ok (env var_code))
          then next zero_stats fs [VariableSleep 2]
          else
            match loop_status (env var_code) with
            | NewLoopRaises => next zero_stats fs [VariableSleep 2]
            | RunRaises => next (Stats count 0 count) fs [VariableSleep 2]
            | LoopRuns =>
                let var_dir := PyStr.path_join home var_code in
                match export_cmip6_collection_parallel utc_offset
                        (task_envs (env var_code)) (features (env var_code))
                        var_dir max_concurrent 10 fs with
                | (Completed st, fs', log) | (Caught st, fs', log) =>
                    next st fs' [Exported var_code log; VariableSleep 2]
                | (Hangs, _, _) => None
                end
            end
      end
  end.

Definition getCMIP6_async (utc_offset : Z -> Z) (env : string -> variable_env)
  (variables : option (list string)) (home : string) (max_concurrent : Z)
  (fs : filesystem)
  : option (gmap string stats * filesystem * list driver_event) :=
  variable_loop utc_offset env (select_bands variables) home max_concurrent ∅ fs.

(** ** Reading the logs *)

(** The attempts made and the delays slept, in order. *)
Definition gets (log : list fetch_event) : list nat :=
  omap (fun e => match e with HttpGet k => Some k | _ => None end) log.

Definition sleeps (log : list fetch_event) : list N :=
  omap (fun e => match e with Sleep s => Some s | _ => None end) log.

Definition writes (log : list fetch_event) : list N :=
  omap (fun e => match e with Write n => Some n | _ => None end) log.

(** The requests and the sleeps of a log, other events left out. *)
Definition schedule (log : list fetch_event) : list fetch_event :=
  List.filter (fun e => match e with HttpGet _ | Sleep _ => true | _ => false end) log.

(** The longest schedule an invocation can have. *)
Definition full_schedule : list fetch_event :=
  [HttpGet 0; Sleep 1; HttpGet 1; Sleep 2; HttpGet 2].

(** An answer on which line 56 is reached. *)
Definition succeeds (r : response) : bool :=
  match r with
  | Response status (Content len) => (status =? 200) && (0 <? len)%N
  | _ => false
  end.

(** The records a run has dealt with. *)
Definition accounted (st : stats) : nat := (successful st + failed st)%nat.

(** What an event adds to each counter. *)
Definition ev_successful (e : event) : nat :=
  match e with
  | Skipped _ _ _ => 1
  | Fetched _ _ _ (Returned true) => 1
  | _ => 0
  end.

Definition ev_failed (e : event) : nat :=
  match e with
  | Fetched _ _ _ (Returned false) => 1
  | Fetched _ _ _ Raised => 1
  | _ => 0
  end.

(** The values the counters went through. *)
Definition snapshots (log : list event) : list stats :=
  omap (fun e => match e with Counted st => Some st | _ => None end) log.

(** The position in the listing of the record an event is about. *)
Definition ev_index (e : event) : option nat :=
  match e with
  | Skipped k _ _ => Some k
  | Fetched k _ _ _ => Some k
  | _ => None
  end.

Definition indices (log : list event) : list nat := omap ev_index log.

Definition is_fetched (e : event) : bool :=
  match e with Fetched _ _ _ _ => true | _ => false end.

Definition is_cooldown (e : event) : bool :=
  match e with Cooldown _ => true | _ => false end.

(** The log cut at every cooldown. *)
Fixpoint segments (log : list event) : list (list event) :=
  match log with
  | [] => [[]]
  | e :: rest =>
      if is_cooldown e then [] :: segments rest
      else match segments rest with
           | [] => [[e]]
           | seg :: segs => (e :: seg) :: segs
           end
  end.

(** What a result adds to [successful]. *)
Definition result_successful (r : outcome) : nat :=
  match r with Returned true => 1 | _ => 0 end.

(** Lines 192-193, as events. *)
Definition cooldown_of (batch_end n : nat) : list event :=
  if (batch_end <? n)%nat then [Cooldown 1] else [].

(** ** Sample data *)

Module Sample.

(** A process that runs in UTC. *)
Definition utc : Z -> Z := fun _ => 0.

(** A record of model [M] whose identifier ends in a date. *)
Definition image (yyyymmdd : Z) : image_info :=
  ImageInfo ("c/h_M_" +:+ pretty yyyymmdd)
            {[ "system:index" := VStr "x"; "model" := VStr "M" ]}.

Definition listing5 : list image_info :=
  image <$> [20200101; 20200102; 20200103; 20200104; 20200105].

(** Twenty-five records, one for each of the first days of a month. *)
Definition listing25 : list image_info :=
  (fun i => image (20200101 + Z.of_nat i)) <$> seq 0 25.

(** Every request is answered by 2000 bytes, except those of the third
    record, which are answered by status 500. *)
Definition env5 (index : nat) : task_env :=
  if (index =? 2)%nat
  then TaskEnv Prepared (fun _ => Response 500 (Content 0))
  else TaskEnv Prepared (fun _ => Response 200 (Content 2000)).

(** Every request is answered by 2000 bytes. *)
Definition env_up (index : nat) : task_env :=
  TaskEnv Prepared (fun _ => Response 200 (Content 2000)).

(** Every request is answered by status 500. *)
Definition env_down (index : nat) : task_env :=
  TaskEnv Prepared (fun _ => Response 500 (Content 0)).

(** The destination of the first record holds a complete file and that of
    the second a partial one. *)
Definition fs2 : filesystem :=
  {[ "out/M_2020-01-01.tif" := 2000%N; "out/M_2020-01-02.tif" := 20%N ]}.

End Sample.

(** The pre-check of lines 157-159. *)
Definition complete_file (fs : filesystem) (download_path : string) : bool :=
  match fs !! download_path with
  | Some file_size => (1024 <? file_size)%N
  | None => false
  end.



(** ** Further definitions *)

(** An environment in which the first request that succeeds is answered
    by more than 1024 bytes. *)
Definition answers_fully (e : task_env) : Prop :=
  prepare e = Prepared
  ∧ ∃ n len, (n < 3)%nat
      ∧ (∀ j, (j < n)%nat → succeeds (respond e j) = false)
      ∧ respond e n = Response 200 (Content len) ∧ (1024 < len)%N.

(** ** Reading the driver's log *)

(** The export of a variable is started: the size query answers a count
    other than 0, the directory is made and the loop runs (lines
    269-298). *)
Definition runs_export (e : variable_env) : bool :=
  match size_info e with
  | Some count =>
      negb (count =? 0)%nat && makedirs_ok e
      && match loop_status e with LoopRuns => true | _ => false end
  | None => false
  end.

(** Line 272: the size query answers 0. *)
Definition no_images (e : variable_env) : bool :=
  match size_info e with
  | Some count => (count =? 0)%nat
  | None => false
  end.

Definition exported (log : list driver_event) : list string :=
  omap (fun e => match e with Exported v _ => Some v | _ => None end) log.

Definition variable_sleeps (log : list driver_event) : list N :=
  omap (fun e => match e with VariableSleep s => Some s | _ => None end) log.

(** Lines 326-334: [(total_successful, total_failed, total_files)]. *)
Definition summary (all_stats : gmap string stats) : nat * nat * nat :=
  let entries := (map_to_list all_stats).*2 in
  (sum_list_with successful entries,
   sum_list_with failed entries,
   sum_list_with total entries).

(** A service that has the five records of [Sample.listing5] for every
    variable but [pr], for which it has none, and [tasmax], for which the
    size query raises; every request is answered by 2000 bytes, except
    those of the third record, which are answered by status 500. *)
Definition sample_variable_env (v : string) : variable_env :=
  if String.eqb v "pr"
  then VariableEnv (Some 0%nat) true LoopRuns (Some []) Sample.env5
  else if String.eqb v "tasmax"
  then VariableEnv None true LoopRuns None Sample.env5
  else VariableEnv (Some 5%nat) true LoopRuns (Some Sample.listing5) Sample.env5.

(** Two records of the model [M] for one day, one for each of two
    scenarios. *)
Definition scenario_image (scenario : string) (yyyymmdd : Z) : image_info :=
  ImageInfo ("c/" +:+ scenario +:+ "_M_" +:+ pretty yyyymmdd)
            {[ "system:index" := VStr "x"; "model" := VStr "M";
               "scenario" := VStr scenario ]}.

Definition two_scenarios : list image_info :=
  [scenario_image "ssp245" 20200101; scenario_image "ssp585" 20200101].

(** ** Region of interest ([setGeom], in both files) *)

From Stdlib Require QArith_base.

(** The argument of [ee.Geometry.Polygon]: one ring of five
    [[lon, lat]] pairs. *)
Definition ring {A} (minLon maxLon minLat maxLat : A) : list (list (A * A)) :=
  [[(minLon, minLat); (minLon, maxLat); (maxLon, maxLat); (maxLon, minLat);
    (minLon, minLat)]].

(** [setGeom] applied to the tuple [coords], with the bounds used when no
    coordinate is given; [None] is the [IndexError] of [coords[k]]. *)
Definition setGeom_with {A} (defaults : A * A * A * A) (coords : list A)
  : option (list (list (A * A))) :=
  match coords with
  | [] =>
      let '(minLon, maxLon, minLat, maxLat) := defaults in
      Some (ring minLon maxLon minLat maxLat)
  | _ :: _ =>
      match coords !! 0%nat with
      | None => None
      | Some minLon =>
          match coords !! 1%nat with
          | None => None
          | Some maxLon =>
              match coords !! 2%nat with
              | None => None
              | Some minLat =>
                  match coords !! 3%nat with
                  | None => None
                  | Some maxLat => Some (ring minLon maxLon minLat maxLat)
                  end
              end
          end
      end
  end.

Module Async.

(** [src/ee_download_async.py], lines 402-426. *)
Definition setGeom : list QArith_base.Q -> option (list (list (QArith_base.Q * QArith_base.Q))) :=
  setGeom_with (QArith_base.Qmake 31 1, QArith_base.Qmake 37 1,
                QArith_base.Qmake 44 1, QArith_base.Qmake 46 1).

End Async.

Module Sync.

(** [src/ee_download.py], lines 14-38; 96.5 and 46.5 as fractions. *)
Definition setGeom : list QArith_base.Q -> option (list (list (QArith_base.Q * QArith_base.Q))) :=
  setGeom_with (QArith_base.Qmake 193 2, QArith_base.Qmake 114 1,
                QArith_base.Qmake 93 2, QArith_base.Qmake 57 1).

(** Lines 55-59. *)
Definition bands : list (string * string) :=
  [("temp", "tas"); ("tempmin", "tasmin"); ("tempmax", "tasmax");
   ("prec", "pr"); ("wind", "sfcWind")].

(** A call of [geemap.ee_export_image_collection] for the collection of
    [band], into the directory [path]. *)
Inductive export_call := ExportCall (band path : string).

(** Lines 61-65, [for var, band in bands.items()]; [export_ok band] tells
    whether the export of the collection of [band] returns. The flag is
    [false] when an export raised, which nothing catches. *)
Fixpoint export_loop (export_ok : string -> bool)
  (bands : list (string * string)) (home : string) : bool * list export_call :=
  match bands with
  | [] => (true, [])
  | (var, band) :: rest =>
      let path := PyStr.path_join home var in
      if export_ok band then
        let '(returned, calls) := export_loop export_ok rest home in
        (returned, ExportCall band path :: calls)
      else (false, [ExportCall band path])
  end.

(** [src/ee_download.py], lines 41-65. *)
Definition getCMIP6 (export_ok : string -> bool) (home : string)
  : bool * list export_call :=
  export_loop export_ok bands home.

End Sync.

(** ** The driver without tasks ([getCMIP6_simple], lines 344-399) *)

Module Simple.

(** Lines 353-359. *)
Definition bands : list (string * string) :=
  [("tas", "temp"); ("tasmin", "tempmin"); ("tasmax", "tempmax");
   ("pr", "prec"); ("sfcWind", "wind")].

(** Lines 365-367, [for ee_name, dir_name in bands.items()]. *)
Fixpoint match_variable (var : string) (bands : list (string * string))
  (filtered_bands : list (string * string)) : list (string * string) :=
  match bands with
  | [] => filtered_bands
  | (ee_name, dir_name) :: rest =>
      if String.eqb var ee_name || String.eqb var dir_name
      then match_variable var rest (dict_set dir_name ee_name filtered_bands)
      else match_variable var rest filtered_bands
  end.

(** Lines 364-367, [for var in variables]. *)
Fixpoint filter_bands (variables : list string)
  (filtered_bands : list (string * string)) : list (string * string) :=
  match variables with
  | [] => filtered_bands
  | var :: rest => filter_bands rest (match_variable var bands filtered_bands)
  end.

(** Line 369, [{v: k for k, v in filtered_bands.items()}]. *)
Fixpoint invert (items : list (string * string)) (acc : list (string * string))
  : list (string * string) :=
  match items with
  | [] => acc
  | (k, v) :: rest => invert rest (dict_set v k acc)
  end.

(** Lines 362-369. *)
Definition select_bands (variables : option (list string))
  : list (string * string) :=
  match variables with
  | None | Some [] => bands
  | Some (var :: rest) =>
      match filter_bands (var :: rest) [] with
      | [] => bands
      | filtered_bands => invert filtered_bands []
      end
  end.

(** What the outside answers while one entry of [bands] is processed: the
    size of the collection ([None] when the query raises), whether
    [os.makedirs] returns, and whether the export does. *)
Record env := Env {
  size_info : option nat;
  makedirs_ok : bool;
  export_ok : bool
}.

Inductive call :=
| SizeQuery (band : string)
| ExportCall (band path : string) (returned : bool).

(** Lines 373-399, [for var_dir, band in bands.items()]. The size query
    and [os.makedirs] are outside the [try] of line 394: when one of them
    raises the function does; the flag is then [false]. *)
Fixpoint export_loop (e : string -> env) (bands : list (string * string))
  (home : string) : bool * list call :=
  match bands with
  | [] => (true, [])
  | (var_dir, band) :: rest =>
      match size_info (e var_dir) with
      | None => (false, [SizeQuery band])
      | Some count =>
          if (count =? 0)%nat then
            let '(returned, calls) := export_loop e rest home in
            (returned, SizeQuery band :: calls)
          else if negb (makedirs_ok (e var_dir)) then (false, [SizeQuery band])
          else
            let path := PyStr.path_join home var_dir in
            let '(returned, calls) := export_loop e rest home in
            (returned,
             SizeQuery band :: ExportCall band path (export_ok (e var_dir)) :: calls)
      end
  end.

Definition getCMIP6_simple (e : string -> env) (variables : option (list string))
  (home : string) : bool * list call :=
  export_loop e (select_bands variables) home.

(** Neither the size query nor [os.makedirs] raises. *)
Definition passes (x : env) : bool :=
  match size_info x with
  | Some count => (count =? 0)%nat || makedirs_ok x
  | None => false
  end.

(** The size query answers a count other than 0. *)
Definition has_images (x : env) : bool :=
  match size_info x with
  | Some count => negb (count =? 0)%nat
  | None => false
  end.

(** The bands selected and the directories written to. *)
Definition selected (calls : list call) : list string :=
  omap (fun c => match c with SizeQuery band => Some band | _ => None end) calls.

Definition exports (calls : list call) : list (string * string) :=
  omap (fun c => match c with
                 | ExportCall band path _ => Some (band, path)
                 | _ => None
                 end) calls.

End Simple.

(** * Properties *)

(** ** The model on small inputs *)

Example split_parts :
  PyStr.split "_" "a_20200102__b" = ["a"; "20200102"; ""; "b"].
Proof. reflexivity. Qed.

Example reformat_leap_day :
  Calendar.reformat_yyyymmdd "20200229" = Some "2020-02-29"
  ∧ Calendar.reformat_yyyymmdd "20210229" = None
  ∧ Calendar.reformat_yyyymmdd "20201301" = None.
Proof. repeat split; reflexivity. Qed.

Example fromtimestamp_days :
  Calendar.fromtimestamp_ymd Sample.utc 1577836800000 = Some "2020-01-01"
  ∧ Calendar.fromtimestamp_ymd Sample.utc (-1) = Some "1969-12-31"
  ∧ Calendar.fromtimestamp_ymd (fun _ => 8 * 3600) 1577836799000
    = Some "2020-01-01".
Proof. repeat split; reflexivity. Qed.

Example plan_from_identifier :
  plan_path Sample.utc "out/tas"
    (ImageInfo "NASA/GDDP-CMIP6/historical_ACCESS-CM2_19500101"
       {[ "system:index" := VStr "x"; "model" := VStr "ACCESS-CM2" ]}) 3
  = Some "out/tas/ACCESS-CM2_1950-01-01.tif".
Proof. vm_compute. reflexivity. Qed.

Example plan_from_timestamp :
  plan_path Sample.utc "out/tas/"
    (ImageInfo "id" {[ "system:time_start" := VInt 1577836800000;
                       "scenario" := VStr "ssp2:45/a" ]}) 3
  = Some "out/tas/CMIP6_ssp2_45_a_2020-01-01.tif".
Proof. vm_compute. reflexivity. Qed.

(** Twenty-five records, batches of ten, three permits, every fetch
    answered at once: three batches and [{25, 25, 0}]. *)
Example scenario_all_succeed :
  let run := export_cmip6_collection_parallel Sample.utc Sample.env_up
               (Some Sample.listing25) "out" 3 10 ∅ in
  run.1.1 = Completed (Stats 25 25 0)
  ∧ List.filter (fun e => match e with BatchStarted _ _ => true | _ => false end)
      run.2
    = [BatchStarted 1 3; BatchStarted 2 3; BatchStarted 3 3]
  ∧ size run.1.2 = 25%nat.
Proof. vm_compute. repeat split; reflexivity. Qed.

(** A run with no permit never returns once a task is dispatched, and one
    with a negative count of permits is caught when the semaphore is
    made. *)
Example no_permit :
  (export_cmip6_collection_parallel Sample.utc Sample.env_up
     (Some Sample.listing5) "out" 0 10 ∅).1.1 = Hangs
  ∧ (export_cmip6_collection_parallel Sample.utc Sample.env_up
       (Some Sample.listing5) "out" (-1) 10 Sample.fs2).1.1
    = Caught (Stats 5 1 0).
Proof. vm_compute. split; reflexivity. Qed.

(** A negative batch size makes [range] empty: the run completes without
    having dealt with any record. *)
Example negative_batch_size :
  export_cmip6_collection_parallel Sample.utc Sample.env_up
    (Some Sample.listing5) "out" 3 (-1) ∅
  = (Completed (Stats 5 0 0), ∅, []).
Proof. reflexivity. Qed.

(** ** The fetcher *)

Lemma attempt_spec retry r p fs :
  ∃ a fs1 tried,
    attempt retry r p fs = (a, fs1, tried)
    ∧ schedule tried = [HttpGet retry]
    ∧ (a = ReturnsTrue ↔ succeeds r = true)
    ∧ (∀ q, q ≠ p → fs1 !! q = fs !! q)
    ∧ (a = ReturnsTrue → ∃ len, (0 < len)%N ∧ fs1 !! p = Some len ∧ Write len ∈ tried)
    ∧ (Open ∈ tried ↔ ∃ b, r = Response 200 b ∧ b ≠ OpenRaises).
Proof.
  assert (Hopen : ∀ k (l : list fetch_event), Open ∈ HttpGet k :: Open :: l)
    by (intros; rewrite !elem_of_cons; auto).
  assert (Hnone : ∀ k, Open ∉ [HttpGet k])
    by (by intros k [=]%list_elem_of_singleton).
  assert (Hpos : ∀ len, (0 < len)%N ↔ (true && (0 <? len)%N) = true).
  { intros. simpl. by rewrite N.ltb_lt. }
  destruct r as [|status b]; simpl;
    [|destruct (Z.eqb_spec status 200) as [->|Hne];
      [destruct b as [| |len]; simpl;
       [| |rewrite lookup_insert_eq; destruct (N.ltb_spec 0 len)]|]];
    (do 3 eexists; split; [reflexivity|]); repeat split;
    first [ done
          | by intros q Hq; rewrite lookup_insert_ne
          | by intros ?%Hnone
          | by intros (?&?&?); congruence
          | by intros; eexists
          | by intros ?%Hpos; lia
          | by apply Hpos
          | idtac ].
  all: try (intros _; exists len; rewrite lookup_insert_eq; split_and!;
            [done|done|rewrite !elem_of_cons; auto]).
  by destruct b.
Qed.

Lemma attempt_unopened retry r p fs a fs1 tried :
  attempt retry r p fs = (a, fs1, tried) → Open ∉ tried → fs1 = fs.
Proof.
  destruct r as [|status [| |len]]; simpl; repeat case_match;
    intros [= <- <- <-] Hno; try done; exfalso; apply Hno; set_solver.
Qed.

Lemma retry_loop_cons k rest respond p fs :
  ∃ a fs1 tried,
    attempt k (respond k) p fs = (a, fs1, tried)
    ∧ retry_loop (k :: rest) respond p fs =
        if succeeds (respond k) then (true, fs1, tried)
        else let '(b, fs2, evs) := retry_loop rest respond p fs1 in
             (b, fs2, tried ++ backoff k ++ evs).
Proof.
  destruct (attempt_spec k (respond k) p fs) as (a & fs1 & tried & Ha & _ & Hs & _).
  exists a, fs1, tried. split; [done|]. simpl. rewrite Ha.
  destruct a.
  - by rewrite (proj1 Hs eq_refl).
  - destruct (succeeds (respond k)); [|done]. by destruct Hs as [_ ?%(fun f => f eq_refl)].
  - destruct (succeeds (respond k)); [|done]. by destruct Hs as [_ ?%(fun f => f eq_refl)].
Qed.

Lemma retry_loop_files retries respond p fs b fs' log :
  retry_loop retries respond p fs = (b, fs', log) →
  (∀ q, q ≠ p → fs' !! q = fs !! q)
  ∧ (b = true → ∃ len, (0 < len)%N ∧ fs' !! p = Some len ∧ Write len ∈ log)
  ∧ (Open ∉ log → fs' = fs).
Proof.
  revert fs b fs' log. induction retries as [|k rest IH]; intros fs b fs' log.
  { simpl. by intros [= <- <- <-]. }
  destruct (retry_loop_cons k rest respond p fs) as (a & fs1 & tried & Ha & ->).
  destruct (attempt_spec k (respond k) p fs)
    as (a' & fs1' & tried' & Ha' & _ & Hs & Hother & Hwritten & _).
  rewrite Ha in Ha'. injection Ha' as <- <- <-.
  destruct (succeeds (respond k)) eqn:Hok.
  - intros [= <- <- <-]. split_and!; [done| |].
    + intros _. apply Hwritten. by apply Hs.
    + by eapply attempt_unopened.
  - destruct (retry_loop rest respond p fs1) as [[b2 fs2] evs] eqn:Hrest.
    intros [= <- <- <-]. destruct (IH _ _ _ _ Hrest) as (H1 & H2 & H3).
    split_and!.
    + intros q Hq. rewrite H1, Hother; done.
    + intros Hb. destruct (H2 Hb) as (len & ? & ? & ?). exists len.
      split_and!; [done|done|]. rewrite !elem_of_app. auto.
    + intros Hno. rewrite H3.
      * eapply attempt_unopened; [done|]. intros ?. apply Hno.
        rewrite elem_of_app. auto.
      * intros ?. apply Hno. rewrite !elem_of_app. auto.
Qed.

Lemma download_files e p fs b fs' log :
  download_cmip6_image e p fs = (b, fs', log) →
  (∀ q, q ≠ p → fs' !! q = fs !! q)
  ∧ (b = true → ∃ len, (0 < len)%N ∧ fs' !! p = Some len ∧ Write len ∈ log)
  ∧ (Open ∉ log → fs' = fs).
Proof.
  unfold download_cmip6_image. destruct (prepare e);
    try (intros [= <- <- <-]; done). apply retry_loop_files.
Qed.

Lemma schedule_app l1 l2 : schedule (l1 ++ l2) = schedule l1 ++ schedule l2.
Proof. unfold schedule. apply List.filter_app. Qed.

Lemma schedule_sleep s l : schedule (Sleep s :: l) = Sleep s :: schedule l.
Proof. reflexivity. Qed.

Lemma download_schedule e p fs b fs' log :
  download_cmip6_image e p fs = (b, fs', log) →
  prepare e = Prepared →
  ∃ n, (n < 3)%nat
       ∧ schedule log = take (2 * n + 1) full_schedule
       ∧ (∀ j, (j < n)%nat → succeeds (respond e j) = false)
       ∧ b = succeeds (respond e n)
       ∧ (b = false → n = 2%nat).
Proof.
  unfold download_cmip6_image. intros Hrun Hp. rewrite Hp in Hrun. revert Hrun.
  change (seq 0 max_retries) with [0; 1; 2]%nat.
  destruct (retry_loop_cons 0 [1; 2]%nat (respond e) p fs)
    as (a0 & fs0 & t0 & Ha0 & ->).
  destruct (attempt_spec 0 (respond e 0%nat) p fs) as (? & ? & ? & E0 & S0 & _).
  rewrite Ha0 in E0. injection E0 as <- <- <-.
  destruct (succeeds (respond e 0%nat)) eqn:H0.
  { intros [= <- <- <-]. exists 0%nat. split_and!; try done; lia. }
  destruct (retry_loop_cons 1 [2]%nat (respond e) p fs0)
    as (a1 & fs1 & t1 & Ha1 & ->).
  destruct (attempt_spec 1 (respond e 1%nat) p fs0) as (? & ? & ? & E1 & S1 & _).
  rewrite Ha1 in E1. injection E1 as <- <- <-.
  destruct (succeeds (respond e 1%nat)) eqn:H1.
  { intros [= <- <- <-]. exists 1%nat. rewrite !schedule_app, !schedule_sleep, S0, S1.
    split_and!; try done; [lia|].
    intros j Hj. by replace j with 0%nat by lia. }
  destruct (retry_loop_cons 2 [] (respond e) p fs1)
    as (a2 & fs2 & t2 & Ha2 & ->).
  destruct (attempt_spec 2 (respond e 2%nat) p fs1) as (? & ? & ? & E2 & S2 & _).
  rewrite Ha2 in E2. injection E2 as <- <- <-.
  assert (Hlt : ∀ j, (j < 2)%nat → succeeds (respond e j) = false).
  { intros j Hj. destruct j as [|[|]]; [done|done|lia]. }
  destruct (succeeds (respond e 2%nat)) eqn:H2.
  { intros [= <- <- <-]. exists 2%nat. rewrite !schedule_app, !schedule_sleep, !schedule_app, !schedule_sleep, S0, S1, S2.
    split_and!; try done; lia. }
  simpl. intros [= <- <- <-]. exists 2%nat.
  rewrite !schedule_app, !schedule_sleep, !schedule_app, !schedule_sleep, S0, S1, !schedule_app, S2. split_and!; try done; lia.
Qed.

(** ** The counters *)

Section OrchestratorFacts.

Variable utc_offset : Z -> Z.
Variable fetch : nat -> string -> filesystem ->
                 outcome * filesystem * list fetch_event.

Lemma prepare_tasks_counters path start i imgs st fs r st' evs :
  prepare_tasks utc_offset path start i imgs st fs = (r, st', evs) →
  total st' = total st
  ∧ failed st' = failed st
  ∧ successful st' = (successful st + sum_list_with ev_successful evs)%nat
  ∧ sum_list_with ev_failed evs = 0%nat
  ∧ (∀ tasks, r = Some tasks →
       (accounted st' + length tasks = accounted st + length imgs)%nat)
  ∧ (accounted st' ≤ accounted st + length imgs)%nat
  ∧ Forall (fun s => total s = total st ∧ (accounted s ≤ accounted st')%nat)
           (snapshots evs).
Proof.
  revert i st r st' evs. induction imgs as [|img rest IH]; intros i st r st' evs.
  { simpl. intros [= <- <- <-]. unfold accounted. simpl.
    split_and!; try done; try lia. intros ? [= <-]. simpl. lia. }
  simpl. destruct (plan_filename utc_offset img (start + i)) as [filename|].
  2: { intros [= <- <- <-]. unfold accounted; simpl.
       split_and!; try done; lia. }
  destruct (fs !! PyStr.path_join path filename) as [size|].
  - destruct (1024 <? size)%N.
    + destruct (prepare_tasks utc_offset path start (S i) rest (add_successful st) fs)
        as [[r2 st2] evs2] eqn:Hrest.
      intros [= <- <- <-]. apply IH in Hrest as (H1 & H2 & H3 & H4 & H5 & H6 & H7).
      unfold accounted in *. simpl in *. split_and!; try done; try lia.
      * intros tasks ->. specialize (H5 _ eq_refl). lia.
      * constructor; [simpl; lia|]. eapply Forall_impl; [done|]. simpl. tauto.
    + destruct (prepare_tasks utc_offset path start (S i) rest st fs)
        as [[r2 st2] evs2] eqn:Hrest.
      intros [= <- <- <-]. apply IH in Hrest as (H1 & H2 & H3 & H4 & H5 & H6 & H7).
      unfold accounted in *. simpl in *. split_and!; try done; try lia.
      intros tasks Ht. destruct r2 as [tasks2|]; [|done]. injection Ht as <-.
      specialize (H5 _ eq_refl). simpl. lia.
  - destruct (prepare_tasks utc_offset path start (S i) rest st fs)
      as [[r2 st2] evs2] eqn:Hrest.
    intros [= <- <- <-]. apply IH in Hrest as (H1 & H2 & H3 & H4 & H5 & H6 & H7).
    unfold accounted in *. simpl in *. split_and!; try done; try lia.
    intros tasks Ht. destruct r2 as [tasks2|]; [|done]. injection Ht as <-.
    specialize (H5 _ eq_refl). simpl. lia.
Qed.

Lemma gather_results tasks fs results fs' evs :
  gather fetch tasks fs = (results, fs', evs) →
  length results = length tasks
  ∧ sum_list_with ev_successful evs
    = sum_list_with result_successful results
  ∧ (sum_list_with ev_successful evs + sum_list_with ev_failed evs
     = length tasks)%nat
  ∧ snapshots evs = []
  ∧ indices evs = task_index <$> tasks
  ∧ Forall (fun e => is_cooldown e = false) evs.
Proof.
  revert fs results fs' evs. induction tasks as [|t rest IH]; intros fs results fs' evs.
  { simpl. by intros [= <- <- <-]. }
  simpl. destruct (fetch (task_index t) (task_path t) fs) as [[res fs1] att].
  destruct (gather fetch rest fs1) as [[results2 fs2] evs2] eqn:Hrest.
  intros [= <- <- <-]. apply IH in Hrest as (H1 & H2 & H3 & H4 & H5 & H6).
  split_and!; simpl; try (f_equal; done); try lia;
    try (destruct res as [[]|]; simpl; lia); by constructor.
Qed.

Lemma count_results_counters st results st' evs :
  count_results st results = (st', evs) →
  total st' = total st
  ∧ successful st'
    = (successful st + sum_list_with result_successful results)%nat
  ∧ accounted st' = (accounted st + length results)%nat
  ∧ Forall (fun s => total s = total st ∧ (accounted s ≤ accounted st')%nat)
           (snapshots evs)
  ∧ indices evs = []
  ∧ sum_list_with ev_successful evs = 0%nat
  ∧ sum_list_with ev_failed evs = 0%nat
  ∧ Forall (fun e => is_cooldown e = false) evs.
Proof.
  revert st st' evs. induction results as [|res rest IH]; intros st st' evs.
  { simpl. intros [= <- <-]. split_and!; try done; unfold accounted; simpl; lia. }
  simpl. destruct (count_results (count_result st res) rest) as [st2 evs2] eqn:Hrest.
  intros [= <- <-]. apply IH in Hrest as (H1 & H2 & H3 & H4 & H5 & H6 & H7 & H8).
  assert (total (count_result st res) = total st) as Ht by by destruct res as [[]|].
  assert (accounted (count_result st res) = S (accounted st)) as Ha
    by (destruct res as [[]|]; unfold accounted; simpl; lia).
  split_and!; simpl; try done; try lia.
  - rewrite H2. destruct res as [[]|]; simpl; lia.
  - constructor; [split; [done|lia]|]. eapply Forall_impl; [done|].
    simpl. intros s [? ?]. split; [congruence|done].
  - by constructor.
Qed.

Lemma prepare_tasks_indices path start i imgs st fs r st' evs :
  prepare_tasks utc_offset path start i imgs st fs = (r, st', evs) →
  Forall (fun e => is_cooldown e = false) evs
  ∧ Forall (fun e => is_fetched e = false) evs
  ∧ (∀ tasks, r = Some tasks →
       indices evs ++ (task_index <$> tasks) ≡ₚ seq (start + i) (length imgs)).
Proof.
  revert i st r st' evs. induction imgs as [|img rest IH]; intros i st r st' evs.
  { simpl. intros [= <- <- <-]. split_and!; try done. by intros ? [= <-]. }
  simpl. destruct (plan_filename utc_offset img (start + i)) as [filename|].
  2: { by intros [= <- <- <-]. }
  destruct (fs !! PyStr.path_join path filename) as [size|];
    [destruct (1024 <? size)%N|];
    (destruct (prepare_tasks utc_offset path start (S i) rest _ fs)
       as [[r2 st2] evs2] eqn:Hrest);
    intros [= <- <- <-]; apply IH in Hrest as (H1 & H2 & H3);
    replace (S (start + i)) with (start + S i)%nat by lia.
  - split_and!; [by repeat constructor..|].
    intros tasks ->. simpl. by rewrite (H3 _ eq_refl).
  - split_and!; [by repeat constructor..|].
    intros tasks Ht. destruct r2 as [tasks2|]; [|done]. injection Ht as <-.
    simpl. rewrite <- (H3 _ eq_refl). by rewrite <- Permutation_middle.
  - split_and!; [done..|].
    intros tasks Ht. destruct r2 as [tasks2|]; [|done]. injection Ht as <-.
    simpl. rewrite <- (H3 _ eq_refl). by rewrite <- Permutation_middle.
Qed.

Lemma length_slice {A} (l : list A) a b :
  (b ≤ length l)%nat → length (slice l a b) = (b - a)%nat.
Proof. intros. unfold slice. rewrite length_take, length_drop. lia. Qed.

Lemma sum_list_with_app' {A} (f : A → nat) l1 l2 :
  sum_list_with f (l1 ++ l2) = (sum_list_with f l1 + sum_list_with f l2)%nat.
Proof. apply sum_list_with_app. Qed.

Lemma snapshots_app l1 l2 : snapshots (l1 ++ l2) = snapshots l1 ++ snapshots l2.
Proof. apply omap_app. Qed.

Lemma indices_app l1 l2 : indices (l1 ++ l2) = indices l1 ++ indices l2.
Proof. apply omap_app. Qed.

Lemma run_batch_counters imgs path mc bs start st fs r fs' evs :
  run_batch utc_offset fetch imgs path mc bs start st fs = (r, fs', evs) →
  length imgs = total st → (start ≤ total st)%nat →
  let len := (Nat.min (start + bs) (total st) - start)%nat in
  Forall (fun s => total s = total st ∧ (accounted s ≤ accounted st + len)%nat)
         (snapshots evs)
  ∧ (∀ st', r = Completed st' ∨ r = Caught st' →
       total st' = total st
       ∧ successful st' = (successful st + sum_list_with ev_successful evs)%nat
       ∧ failed st' = (failed st + sum_list_with ev_failed evs)%nat
       ∧ (accounted st' ≤ accounted st + len)%nat)
  ∧ (∀ st', r = Completed st' →
       accounted st' = (accounted st + len)%nat
       ∧ ∃ body, evs = body ++ cooldown_of (Nat.min (start + bs) (total st)) (total st)
                 ∧ Forall (fun e => is_cooldown e = false) body
                 ∧ indices body ≡ₚ seq start len).
Proof.
  intros Hrun Hlen Hstart len. unfold run_batch in Hrun.
  set (batch_end := Nat.min (start + bs) (total st)) in *.
  assert (length (slice imgs start batch_end) = len) as Hslice.
  { apply length_slice. unfold batch_end. lia. }
  destruct (prepare_tasks utc_offset path start 0 (slice imgs start batch_end) st fs)
    as [[tasks st1] evs1] eqn:Hprep.
  destruct (prepare_tasks_counters _ _ _ _ _ _ _ _ _ Hprep)
    as (P1 & P2 & P3 & P4 & P5 & P6 & P7).
  destruct (prepare_tasks_indices _ _ _ _ _ _ _ _ _ Hprep) as (Q1 & Q2 & Q3).
  rewrite Hslice in *. rewrite Nat.add_0_r in Q3.
  assert (Forall (fun s => total s = total st ∧ (accounted s ≤ accounted st + len)%nat)
                 (snapshots evs1)) as P7'.
  { eapply Forall_impl; [done|]. simpl. intros s [? ?]. split; [done|lia]. }
  assert (accounted st1 = (successful st1 + failed st1)%nat) as Hacc by done.
  destruct tasks as [tasks|].
  2: { injection Hrun as <- <- <-. simpl. split_and!; [done| |done].
       intros st' [[=]|[= <-]]. split_and!; [done|lia|lia|done]. }
  specialize (P5 _ eq_refl). specialize (Q3 _ eq_refl).
  destruct (mc <? 0).
  { injection Hrun as <- <- <-. simpl. split_and!; [done| |done].
    intros st' [[=]|[= <-]]. split_and!; [done|lia|lia|done]. }
  destruct tasks as [|t tasks].
  { injection Hrun as <- <- <-. fold (cooldown_of batch_end (total st)).
    assert (sum_list_with ev_successful (cooldown_of batch_end (total st)) = 0
            ∧ sum_list_with ev_failed (cooldown_of batch_end (total st)) = 0
            ∧ snapshots (cooldown_of batch_end (total st)) = [])%nat
      as (C1 & C2 & C3) by (unfold cooldown_of; by case_match).
    simpl. rewrite !sum_list_with_app', snapshots_app, C1, C2, C3, app_nil_r.
    simpl in P5. split_and!; [done| |].
    - intros st' [[= <-]|[=]]. split_and!; [done|lia|lia|done].
    - intros st' [= <-]. split; [lia|]. exists (BatchStarted (start / bs + 1)
        ((total st + bs - 1) / bs) :: evs1). split_and!; [done|by constructor|].
      simpl. fold (indices evs1). by rewrite app_nil_r in Q3. }
  destruct (mc =? 0).
  { injection Hrun as <- <- <-. simpl. split_and!; [done| |done].
    by intros st' [[=]|[=]]. }
  destruct (gather fetch (t :: tasks) fs) as [[results fs1] fetched] eqn:Hgather.
  destruct (count_results st1 results) as [st2 counted] eqn:Hcount.
  injection Hrun as <- <- <-. fold (cooldown_of batch_end (total st)).
  destruct (gather_results _ _ _ _ _ Hgather) as (G1 & G2 & G3 & G4 & G5 & G6).
  destruct (count_results_counters _ _ _ _ Hcount)
    as (K1 & K2 & K3 & K4 & K5 & K6 & K7 & K8).
  assert (sum_list_with ev_successful (cooldown_of batch_end (total st)) = 0
          ∧ sum_list_with ev_failed (cooldown_of batch_end (total st)) = 0
          ∧ snapshots (cooldown_of batch_end (total st)) = [])%nat
    as (C1 & C2 & C3) by (unfold cooldown_of; by case_match).
  assert (accounted st2 = (accounted st + len)%nat) as Hst2 by lia.
  assert (accounted st2 = (successful st2 + failed st2)%nat) as Hacc2 by done.
  simpl snapshots. simpl sum_list_with.
  rewrite !sum_list_with_app', !snapshots_app, C1, C2, C3, G4, !app_nil_r, K6, K7.
  simpl. split_and!.
  - apply Forall_app. split; [done|]. eapply Forall_impl; [done|].
    simpl. intros s [? ?]. split; [congruence|lia].
  - intros st' [[= <-]|[=]]. split_and!; [congruence|lia|lia|lia].
  - intros st' [= <-]. split; [done|].
    exists (BatchStarted (start / bs + 1) ((total st + bs - 1) / bs)
            :: evs1 ++ fetched ++ counted).
    split_and!.
    + simpl. by rewrite <- !app_assoc.
    + constructor; [done|]. rewrite !Forall_app. done.
    + simpl. fold (indices (evs1 ++ fetched ++ counted)).
      rewrite !indices_app, K5, G5, app_nil_r. done.
Qed.

End OrchestratorFacts.

Lemma ceil_div_bounds n bs :
  (0 < bs)%nat →
  (n ≤ (n + bs - 1) / bs * bs)%nat
  ∧ ((0 < n)%nat → ((n + bs - 1) / bs - 1) * bs < n)%nat.
Proof.
  intros Hbs. pose proof (Nat.div_mod (n + bs - 1) bs ltac:(lia)) as Hdm.
  pose proof (Nat.mod_upper_bound (n + bs - 1) bs ltac:(lia)) as Hlt.
  set (q := ((n + bs - 1) / bs)%nat) in *. set (m := ((n + bs - 1) mod bs)%nat) in *.
  split; [nia|]. intros Hn. destruct q; simpl; nia.
Qed.

Lemma segments_calm body :
  Forall (fun e => is_cooldown e = false) body → segments body = [body].
Proof.
  induction 1 as [|e body He _ IH]; [done|]. simpl. by rewrite He, IH.
Qed.

Lemma segments_not_nil log : segments log ≠ [].
Proof. destruct log as [|e log]; [done|]. simpl. by repeat case_match. Qed.

Lemma segments_cooldown body s rest :
  Forall (fun e => is_cooldown e = false) body →
  segments (body ++ Cooldown s :: rest) = body :: segments rest.
Proof.
  induction 1 as [|e body He _ IH]; [done|]. simpl. by rewrite He, IH.
Qed.

Section BatchLoopFacts.

Variable utc_offset : Z -> Z.
Variable fetch : nat -> string -> filesystem ->
                 outcome * filesystem * list fetch_event.

Lemma batch_loop_counters imgs path mc bs n : ∀ a st fs r fs' evs,
  batch_loop utc_offset fetch ((fun j => j * bs)%nat <$> seq a n)
             imgs path mc bs st fs = (r, fs', evs) →
  (0 < bs)%nat → length imgs = total st →
  (a + n = (total st + bs - 1) / bs)%nat →
  accounted st = Nat.min (a * bs) (total st) →
  Forall (fun s => total s = total st ∧ (accounted s ≤ total st)%nat)
         (snapshots evs)
  ∧ (∀ st', r = Completed st' ∨ r = Caught st' →
       total st' = total st
       ∧ successful st' = (successful st + sum_list_with ev_successful evs)%nat
       ∧ failed st' = (failed st + sum_list_with ev_failed evs)%nat
       ∧ (accounted st' ≤ total st)%nat)
  ∧ (∀ st', r = Completed st' →
       accounted st' = total st
       ∧ (∀ s, Cooldown s ∈ evs → s = 1%N)
       ∧ ((0 < n)%nat →
          Forall2 (fun seg start =>
                     indices seg ≡ₚ
                     seq start (Nat.min (start + bs) (total st) - start))
                  (segments evs) ((fun j => j * bs)%nat <$> seq a n))).
Proof.
  induction n as [|n IH]; intros a st fs r fs' evs Hrun Hbs Hlen Hnb Hacc.
  { simpl in Hrun. injection Hrun as <- <- <-.
    pose proof (ceil_div_bounds (total st) bs Hbs) as [Hle _].
    split_and!; [done| |].
    - intros st' [[= <-]|[=]]. split_and!; [done|simpl sum_list_with; lia..].
    - intros st' [= <-].
      assert (total st ≤ a * bs)%nat by (rewrite Nat.add_0_r in Hnb; by rewrite Hnb).
      split_and!; [lia| |lia]. by intros s ?%elem_of_nil. }
  pose proof (ceil_div_bounds (total st) bs Hbs) as [Hle Hgt].
  assert (0 < total st)%nat as Hpos.
  { destruct (total st); [|lia]. rewrite Nat.div_small in Hnb; lia. }
  assert (a * bs < total st)%nat as Hstart.
  { specialize (Hgt Hpos).
    assert (a * bs ≤ ((total st + bs - 1) / bs - 1) * bs)%nat
      by (apply Nat.mul_le_mono_r; lia). lia. }
  simpl in Hrun.
  destruct (run_batch utc_offset fetch imgs path mc bs (a * bs) st fs)
    as [[r1 fs1] evs1] eqn:Hbatch.
  destruct (run_batch_counters _ _ _ _ _ _ _ _ _ _ _ _ Hbatch Hlen ltac:(lia))
    as (B1 & B2 & B3).
  assert (accounted st + (Nat.min (a * bs + bs) (total st) - a * bs)
          = Nat.min (S a * bs) (total st))%nat as Hnext by lia.
  rewrite Hnext in *.
  assert (Forall (fun s => total s = total st ∧ (accounted s ≤ total st)%nat)
                 (snapshots evs1)) as B1'.
  { eapply Forall_impl; [done|]. simpl. intros s [? ?]. split; [done|lia]. }
  destruct r1 as [st1| |].
  3: { injection Hrun as <- <- <-. split_and!; [done| |done].
       by intros st' [[=]|[=]]. }
  2: { injection Hrun as <- <- <-. split_and!; [done| |done].
       intros st' [[=]|[= <-]]. destruct (B2 _ (or_intror eq_refl)) as (?&?&?&?).
       split_and!; [done|done|done|lia]. }
  destruct (B2 _ (or_introl eq_refl)) as (T1 & T2 & T3 & T4).
  destruct (B3 _ eq_refl) as (A1 & body & -> & Hcalm & Hperm).
  destruct (batch_loop utc_offset fetch _ imgs path mc bs st1 fs1)
    as [[r2 fs2] evs2] eqn:Hrest.
  injection Hrun as <- <- <-.
  destruct (IH _ _ _ _ _ _ Hrest Hbs ltac:(congruence) ltac:(rewrite T1; lia)
              ltac:(rewrite T1; lia)) as (I1 & I2 & I3).
  rewrite T1 in *.
  rewrite !snapshots_app, !sum_list_with_app' in *.
  split_and!.
  - apply Forall_app. done.
  - intros st' Hst'. destruct (I2 _ Hst') as (?&?&?&?).
    split_and!; [done|lia|lia|done].
  - intros st' Hst'. destruct (I3 _ Hst') as (J1 & J2 & J3).
    split_and!; [done| |intros _].
    + intros s. rewrite !elem_of_app. intros [[Hin|Hin]|Hin]; [|  |by apply J2].
      * rewrite Forall_forall in Hcalm. by apply Hcalm in Hin.
      * unfold cooldown_of in Hin. case_match; [|by apply elem_of_nil in Hin].
        apply list_elem_of_singleton in Hin. by injection Hin.
    + destruct n as [|n].
      * simpl in Hrest. injection Hrest as <- <- <-.
        assert (Nat.min (a * bs + bs) (total st) = total st) as ->
          by (replace (S a) with ((total st + bs - 1) / bs)%nat in * by lia; lia).
        unfold cooldown_of. rewrite Nat.ltb_irrefl, !app_nil_r.
        rewrite segments_calm by done. by repeat constructor.
      * assert (S a * bs < total st)%nat.
        { specialize (Hgt Hpos).
          assert (S a * bs ≤ ((total st + bs - 1) / bs - 1) * bs)%nat
            by (apply Nat.mul_le_mono_r; lia). lia. }
        unfold cooldown_of.
        destruct (Nat.ltb_spec (Nat.min (a * bs + bs) (total st)) (total st)); [|lia].
        rewrite <- app_assoc. simpl app at 2. rewrite segments_cooldown by done.
        constructor; [done|]. apply J3. lia.
Qed.

End BatchLoopFacts.

(** ** Conservation of the counters *)

(** The counters of a run, on whichever [return] it ends. *)
Lemma export_with_counters utc_offset fetch coll path mc bs fs r fs' log :
  export_with utc_offset fetch coll path mc bs fs = (r, fs', log) →
  Forall (fun s => (successful s + failed s ≤ total s)%nat) (snapshots log)
  ∧ (∀ st, r = Completed st ∨ r = Caught st →
       (successful st + failed st ≤ total st)%nat
       ∧ successful st = sum_list_with ev_successful log
       ∧ failed st = sum_list_with ev_failed log)
  ∧ (∀ images st, coll = Some images → r = Completed st → 0 < bs →
       total st = length images
       ∧ (successful st + failed st = total st)%nat)
  ∧ (coll = Some [] → r = Completed (Stats 0 0 0)).
Proof.
  unfold export_with. intros Hrun. destruct coll as [images|].
  2: { injection Hrun as <- <- <-. split_and!; try done.
       intros st [[=]|[= <-]]. done. }
  simpl in Hrun. destruct (Nat.eqb_spec (length images) 0) as [Hz|Hnz].
  { injection Hrun as <- <- <-. rewrite Hz. split_and!; try done.
    - by intros st [[= <-]|[=]].
    - intros ? st [= <-] [= <-] _. simpl. lia. }
  destruct (Z.eqb_spec bs 0) as [->|Hbs0].
  { injection Hrun as <- <- <-. split_and!; try done.
    - intros st [[=]|[= <-]]. simpl. split_and!; [lia|done..].
    - intros [= ->]. done. }
  destruct (Z.ltb_spec bs 0) as [Hneg|Hpos].
  { injection Hrun as <- <- <-. split_and!; try done.
    - intros st [[= <-]|[=]]. simpl. split_and!; [lia|done..].
    - intros ? ? _ _ ?. lia.
    - intros [= ->]. done. }
  unfold py_range in Hrun.
  destruct (batch_loop_counters _ _ _ _ _ _ _ _ _ _ _ _ _ Hrun)
    as (L1 & L2 & L3); simpl; try done; try lia.
  split_and!.
  - eapply Forall_impl; [done|]. simpl. intros s [? ?]. unfold accounted in *. lia.
  - intros st Hst. destruct (L2 _ Hst) as (?&?&?&?). unfold accounted in *.
    simpl in *. split_and!; [lia|done..].
  - intros ? st [= <-] -> _. destruct (L2 _ (or_introl eq_refl)) as (?&_).
    destruct (L3 _ eq_refl) as (? & _). unfold accounted in *. simpl in *. lia.
  - intros [= ->]. done.
Qed.

(** C1. The counters never account for more records than [total]: every
    value they go through and the value returned, on whichever [return],
    has [successful + failed <= total]; [successful] is the number of
    skipped records plus that of fetches that returned true, and [failed]
    the number of fetches that returned false or raised. A listing
    processed to completion with a positive batch size ends with
    [successful + failed = total = len(listing)], and an empty listing with
    the three counters at 0. *)
Theorem stats_conservation utc_offset fetch coll path mc bs fs r fs' log :
  export_with utc_offset fetch coll path mc bs fs = (r, fs', log) →
  Forall (fun s => (successful s + failed s ≤ total s)%nat) (snapshots log)
  ∧ (∀ st, r = Completed st ∨ r = Caught st →
       (successful st + failed st ≤ total st)%nat
       ∧ successful st = sum_list_with ev_successful log
       ∧ failed st = sum_list_with ev_failed log)
  ∧ (∀ images st, coll = Some images → r = Completed st → 0 < bs →
       total st = length images
       ∧ (successful st + failed st = total st)%nat)
  ∧ (coll = Some [] → r = Completed (Stats 0 0 0)).
Proof. apply export_with_counters. Qed.

Lemma stats_conservation_witness :
  let run := export_with Sample.utc (fetch_image Sample.env5)
               (Some Sample.listing5) "out" 3 2 Sample.fs2 in
  run.1.1 = Completed (Stats 5 4 1)
  ∧ total (Stats 5 4 1) = length Sample.listing5
  ∧ (successful (Stats 5 4 1) + failed (Stats 5 4 1) = total (Stats 5 4 1))%nat.
Proof.
  intros run.
  assert (run.1.1 = Completed (Stats 5 4 1)) as Hst by (vm_compute; reflexivity).
  split; [exact Hst|].
  destruct (stats_conservation Sample.utc (fetch_image Sample.env5)
              (Some Sample.listing5) "out" 3 2 Sample.fs2
              run.1.1 run.1.2 run.2) as (_ & _ & H & _).
  - vm_compute. reflexivity.
  - apply (H Sample.listing5 (Stats 5 4 1)); [reflexivity|exact Hst|lia].
Defined.
(** ** Empty listings and failed preparations *)

(** C8. On an empty listing the orchestrator returns
    [{total: 0, successful: 0, failed: 0}] at once: the files are as they
    were and the log is empty, so no batch was started, no fetch made and
    no cooldown slept. *)
Theorem empty_listing utc_offset fetch path mc bs fs :
  export_with utc_offset fetch (Some []) path mc bs fs
  = (Completed (Stats 0 0 0), fs, []).
Proof. reflexivity. Qed.

Lemma download_unprepared e path fs :
  prepare e ≠ Prepared →
  download_cmip6_image e path fs = (false, fs, []).
Proof. unfold download_cmip6_image. by destruct (prepare e). Qed.

(** C10. When reading the metadata or resolving the URL raises (or
    [os.makedirs] does), the fetcher returns false with the files as they
    were and an empty log: no request, no sleep, no file opened or
    written. *)
Theorem preparation_failure e path fs :
  prepare e ≠ Prepared →
  download_cmip6_image e path fs = (false, fs, []).
Proof. apply download_unprepared. Qed.

Lemma preparation_failure_witness :
  download_cmip6_image (TaskEnv UrlRaises (fun _ => Response 200 (Content 2000)))
    "out/M_2020-01-01.tif" Sample.fs2
  = (false, Sample.fs2, []).
Proof. apply preparation_failure. simpl. discriminate. Defined.

(** ** Which records are skipped and which dispatched *)

Section DispatchFacts.

Variable utc_offset : Z -> Z.
Variable fetch : nat -> string -> filesystem ->
                 outcome * filesystem * list fetch_event.

Lemma prepare_tasks_dispatch path start imgs fs : ∀ i st r st' evs,
  prepare_tasks utc_offset path start i imgs st fs = (r, st', evs) →
  (∀ k filename size, Skipped k filename size ∈ evs →
     ∃ j img, k = (start + i + j)%nat ∧ imgs !! j = Some img
       ∧ plan_filename utc_offset img k = Some filename
       ∧ fs !! PyStr.path_join path filename = Some size ∧ (1024 < size)%N)
  ∧ (∀ tasks t, r = Some tasks → t ∈ tasks →
     ∃ j img, task_index t = (start + i + j)%nat ∧ imgs !! j = Some img
       ∧ plan_path utc_offset path img (task_index t) = Some (task_path t)
       ∧ complete_file fs (task_path t) = false)
  ∧ (∀ tasks j img, r = Some tasks → imgs !! j = Some img →
     is_Some (plan_path utc_offset path img (start + i + j))).
Proof.
  induction imgs as [|img rest IH]; intros i st r st' evs.
  { simpl. intros [= <- <- <-]. split_and!.
    - by intros k f s ?%elem_of_nil.
    - by intros ? t [= <-] ?%elem_of_nil.
    - by intros ? j ?. }
  simpl. unfold plan_path.
  destruct (plan_filename utc_offset img (start + i)) as [filename|] eqn:Hplan.
  2: { intros [= <- <- <-]. split_and!; [|done..]. by intros k f s ?%elem_of_nil. }
  assert (∀ j img', (∀ j img', rest !! j = Some img' →
            is_Some (plan_path utc_offset path img' (start + S i + j))) →
            (img :: rest) !! j = Some img' →
            is_Some (plan_path utc_offset path img' (start + i + j))) as Hall.
  { intros [|j] img' Hrest; simpl.
    - intros [= <-]. unfold plan_path. rewrite Nat.add_0_r, Hplan. done.
    - intros Hj. replace (start + i + S j)%nat with (start + S i + j)%nat by lia. eauto. }
  destruct (fs !! PyStr.path_join path filename) as [size|] eqn:Hfs;
    [destruct (N.ltb_spec 1024 size)|];
    (destruct (prepare_tasks utc_offset path start (S i) rest _ fs)
       as [[r2 st2] evs2] eqn:Hrest);
    intros [= <- <- <-]; apply IH in Hrest as (H1 & H2 & H3).
  - split_and!.
    + intros k f s. rewrite !elem_of_cons. intros [[= -> -> ->]|[[=]|Hin]].
      * exists 0%nat, img. rewrite Nat.add_0_r. done.
      * apply H1 in Hin as (j & img' & -> & ? & ? & ? & ?).
        exists (S j), img'. split_and!; try done; lia.
    + intros tasks t -> Hin. destruct (H2 _ _ eq_refl Hin) as (j & img' & ? & ? & ? & ?).
      exists (S j), img'. split_and!; try done; lia.
    + intros tasks j img' -> Hj. eapply Hall; eauto.
  - split_and!.
    + intros k f s. rewrite !elem_of_cons. intros [[=]|Hin].
      apply H1 in Hin as (j & img' & -> & ? & ? & ? & ?).
      exists (S j), img'. split_and!; try done; lia.
    + intros tasks t Ht Hin. destruct r2 as [tasks2|]; [|done]. injection Ht as <-.
      apply elem_of_cons in Hin as [->|Hin].
      * exists 0%nat, img. simpl. unfold plan_path, complete_file.
        rewrite Nat.add_0_r, Hplan, Hfs. split_and!; try done.
        apply N.ltb_ge. done.
      * destruct (H2 _ _ eq_refl Hin) as (j & img' & ? & ? & ? & ?).
        exists (S j), img'. split_and!; try done; lia.
    + intros tasks j img' Ht Hj. destruct r2 as [tasks2|]; [|done].
      eapply Hall; eauto.
  - split_and!.
    + intros k f s Hin. apply H1 in Hin as (j & img' & -> & ? & ? & ? & ?).
      exists (S j), img'. split_and!; try done; lia.
    + intros tasks t Ht Hin. destruct r2 as [tasks2|]; [|done]. injection Ht as <-.
      apply elem_of_cons in Hin as [->|Hin].
      * exists 0%nat, img. simpl. unfold plan_path, complete_file.
        rewrite Nat.add_0_r, Hplan, Hfs. done.
      * destruct (H2 _ _ eq_refl Hin) as (j & img' & ? & ? & ? & ?).
        exists (S j), img'. split_and!; try done; lia.
    + intros tasks j img' Ht Hj. destruct r2 as [tasks2|]; [|done].
      eapply Hall; eauto.
Qed.

Lemma gather_fetched tasks : ∀ fs results fs' evs,
  gather fetch tasks fs = (results, fs', evs) →
  (∀ e, e ∈ evs →
     ∃ t fs0 fs1 att res,
       t ∈ tasks ∧ e = Fetched (task_index t) (task_path t) att res
       ∧ fetch (task_index t) (task_path t) fs0 = (res, fs1, att))
  ∧ (∀ t, t ∈ tasks →
     ∃ att res, Fetched (task_index t) (task_path t) att res ∈ evs).
Proof.
  induction tasks as [|t rest IH]; intros fs results fs' evs.
  { simpl. intros [= <- <- <-]. split; [by intros e ?%elem_of_nil|].
    by intros t ?%elem_of_nil. }
  simpl. destruct (fetch (task_index t) (task_path t) fs) as [[res fs1] att] eqn:Hf.
  destruct (gather fetch rest fs1) as [[results2 fs2] evs2] eqn:Hrest.
  intros [= <- <- <-]. apply IH in Hrest as [H1 H2]. split.
  - intros e [->|Hin]%elem_of_cons.
    + exists t, fs, fs1, att, res. split_and!; [left|done..].
    + destruct (H1 _ Hin) as (t' & fs0 & fs1' & att' & res' & ? & ? & ?).
      exists t', fs0, fs1', att', res'. split_and!; [by right|done..].
  - intros t' [->|Hin]%elem_of_cons.
    + exists att, res. left.
    + destruct (H2 _ Hin) as (att' & res' & ?). exists att', res'. by right.
Qed.

Lemma prepare_tasks_all_complete path start imgs fs : ∀ i st,
  (∀ j img, imgs !! j = Some img →
     ∃ p, plan_path utc_offset path img (start + i + j) = Some p
          ∧ complete_file fs p = true) →
  ∃ st' evs,
    prepare_tasks utc_offset path start i imgs st fs = (Some [], st', evs)
    ∧ Forall (fun e => is_fetched e = false) evs.
Proof.
  induction imgs as [|img rest IH]; intros i st Hall.
  { by exists st, []. }
  destruct (Hall 0%nat img eq_refl) as (p & Hp & Hc).
  unfold plan_path in Hp. rewrite Nat.add_0_r in Hp. simpl.
  destruct (plan_filename utc_offset img (start + i)) as [filename|]; [|done].
  injection Hp as <-. unfold complete_file in Hc.
  destruct (fs !! PyStr.path_join path filename) as [size|]; [|done]. rewrite Hc.
  destruct (IH (S i) (add_successful st)) as (st' & evs & -> & Hev).
  { intros j img' Hj. specialize (Hall (S j) img' Hj).
    by replace (start + S i + j)%nat with (start + i + S j)%nat by lia. }
  eexists _, _. split; [done|]. by repeat constructor.
Qed.

Lemma lookup_slice {A} (l : list A) a b j :
  (j < b - a)%nat → slice l a b !! j = l !! (a + j)%nat.
Proof. intros. unfold slice. by rewrite lookup_take_lt, lookup_drop by done. Qed.

Lemma lookup_slice_Some {A} (l : list A) a b j x :
  slice l a b !! j = Some x → l !! (a + j)%nat = Some x.
Proof.
  unfold slice. intros [H _]%lookup_take_Some. by rewrite lookup_drop in H.
Qed.

Lemma run_batch_all_complete imgs path mc bs start st fs :
  0 ≤ mc →
  (∀ k img, imgs !! k = Some img →
     ∃ p, plan_path utc_offset path img k = Some p ∧ complete_file fs p = true) →
  ∃ st' evs,
    run_batch utc_offset fetch imgs path mc bs start st fs = (Completed st', fs, evs)
    ∧ Forall (fun e => is_fetched e = false) evs.
Proof.
  intros Hmc Hall. unfold run_batch.
  edestruct (prepare_tasks_all_complete path start
               (slice imgs start (Nat.min (start + bs) (total st))) fs 0 st)
    as (st' & evs & -> & Hev).
  { intros j img Hj. rewrite Nat.add_0_r. apply Hall.
    by eapply lookup_slice_Some. }
  destruct (Z.ltb_spec mc 0); [lia|]. eexists _, _. split; [done|].
  constructor; [done|]. apply Forall_app. split; [done|].
  by case_match; repeat constructor.
Qed.

Lemma batch_loop_all_complete imgs path mc bs fs starts : ∀ st,
  0 ≤ mc →
  (∀ k img, imgs !! k = Some img →
     ∃ p, plan_path utc_offset path img k = Some p ∧ complete_file fs p = true) →
  ∃ st' evs,
    batch_loop utc_offset fetch starts imgs path mc bs st fs = (Completed st', fs, evs)
    ∧ Forall (fun e => is_fetched e = false) evs.
Proof.
  induction starts as [|start rest IH]; intros st Hmc Hall.
  { by exists st, []. }
  simpl. destruct (run_batch_all_complete imgs path mc bs start st fs Hmc Hall)
    as (st1 & evs1 & -> & H1).
  destruct (IH st1 Hmc Hall) as (st2 & evs2 & -> & H2).
  eexists _, _. split; [done|]. by apply Forall_app.
Qed.

Lemma unfetched_no_failure evs :
  Forall (fun e => is_fetched e = false) evs → sum_list_with ev_failed evs = 0%nat.
Proof.
  induction 1 as [|e evs He _ IH]; [done|]. simpl. rewrite IH.
  by destruct e as [| | |? ? ? []| |].
Qed.

End DispatchFacts.

(** ** Running twice *)



Section BatchDispatch.

Variable utc_offset : Z -> Z.
Variable fetch : nat -> string -> filesystem ->
                 outcome * filesystem * list fetch_event.

Lemma elem_of_indices k log :
  k ∈ indices log → ∃ e, e ∈ log ∧ ev_index e = Some k.
Proof.
  unfold indices. rewrite list_elem_of_omap. intros (e & ? & ?). by exists e.
Qed.

Lemma run_batch_dispatch imgs path mc bs start st fs st' fs' evs :
  run_batch utc_offset fetch imgs path mc bs start st fs = (Completed st', fs', evs) →
  (∀ k filename size, Skipped k filename size ∈ evs →
     ∃ img, imgs !! k = Some img
       ∧ plan_filename utc_offset img k = Some filename
       ∧ fs !! PyStr.path_join path filename = Some size ∧ (1024 < size)%N)
  ∧ (∀ k p att res, Fetched k p att res ∈ evs →
     ∃ img fs0 fs1, imgs !! k = Some img
       ∧ plan_path utc_offset path img k = Some p
       ∧ complete_file fs p = false
       ∧ fetch k p fs0 = (res, fs1, att))
  ∧ (∀ j img,
       slice imgs start (Nat.min (start + bs) (total st)) !! j = Some img →
       ∃ p, plan_path utc_offset path img (start + j) = Some p
         ∧ if complete_file fs p
           then ∃ filename size, Skipped (start + j) filename size ∈ evs
           else ∃ att res, Fetched (start + j) p att res ∈ evs).
Proof.
  intros Hrun. unfold run_batch in Hrun.
  set (batch_end := Nat.min (start + bs) (total st)) in *.
  set (started := BatchStarted _ _) in *.
  destruct (prepare_tasks utc_offset path start 0 (slice imgs start batch_end) st fs)
    as [[tasks st1] evs1] eqn:Hprep.
  destruct (prepare_tasks_dispatch _ _ _ _ _ _ _ _ _ _ Hprep) as (D1 & D2 & D3).
  destruct (prepare_tasks_indices _ _ _ _ _ _ _ _ _ _ Hprep) as (_ & Q2 & Q3).
  destruct tasks as [tasks|]; [|done]. destruct (mc <? 0); [done|].
  specialize (Q3 _ eq_refl).
  assert (∃ results fs1 fetched counted,
            gather fetch tasks fs = (results, fs1, fetched)
            ∧ Forall (fun e => is_fetched e = false ∧ ∀ k f s, e ≠ Skipped k f s) counted
            ∧ ∃ tail, evs = started :: evs1 ++ fetched ++ counted ++ tail
                      ∧ Forall (fun e => is_cooldown e = true) tail)
    as (results & fs1 & fetched & counted & Hgather & Hcounted & tail & -> & Htail).
  { destruct tasks as [|t tasks].
    - exists [], fs, [], []. split_and!; [done|done|].
      eexists. split; [by injection Hrun as <- <- <-|].
      by case_match; repeat constructor.
    - destruct (mc =? 0); [done|].
      destruct (gather fetch (t :: tasks) fs) as [[results fs1] fetched] eqn:Hg.
      destruct (count_results st1 results) as [st2 counted] eqn:Hc.
      exists results, fs1, fetched, counted. split_and!; [done| |].
      + clear -Hc. revert st1 st2 counted Hc.
        induction results as [|r results IH]; intros st1 st2 counted; simpl.
        * by intros [= <- <-].
        * destruct (count_results (count_result st1 r) results) eqn:Hrest.
          intros [= <- <-]. constructor; [done|]. by eapply IH.
      + eexists. split; [by injection Hrun as <- <- <-|].
        by case_match; repeat constructor. }
  clear Hrun. destruct (gather_fetched _ _ _ _ _ _ Hgather) as (G1 & G2).
  assert (∀ e, e ∈ started :: evs1 ++ fetched ++ counted ++ tail →
               (∃ k f s, e = Skipped k f s) → e ∈ evs1) as Hskip.
  { intros e. rewrite elem_of_cons, !elem_of_app.
    intros [->|[Hin|[Hin|[Hin|Hin]]]] (k & f & s & Heq); try done; subst e.
    - apply G1 in Hin as (?&?&?&?&?&?&?&?). done.
    - rewrite Forall_forall in Hcounted. apply Hcounted in Hin as [_ Hin].
      by destruct (Hin k f s).
    - rewrite Forall_forall in Htail. by apply Htail in Hin. }
  assert (∀ e, e ∈ started :: evs1 ++ fetched ++ counted ++ tail →
               is_fetched e = true → e ∈ fetched) as Hfetch.
  { intros e. rewrite elem_of_cons, !elem_of_app.
    intros [->|[Hin|[Hin|[Hin|Hin]]]] He; try done.
    - rewrite Forall_forall in Q2. apply Q2 in Hin. congruence.
    - rewrite Forall_forall in Hcounted. apply Hcounted in Hin as [Hin _]. congruence.
    - rewrite Forall_forall in Htail. apply Htail in Hin. by destruct e. }
  split_and!.
  - intros k f s Hin. apply Hskip in Hin; [|by eauto].
    apply D1 in Hin as (j & img & -> & Hj & ? & ? & ?). exists img.
    rewrite Nat.add_0_r in *. apply lookup_slice_Some in Hj. done.
  - intros k p att res Hin. apply Hfetch in Hin; [|done].
    apply G1 in Hin as (t & fs0 & fs2 & att' & res' & Ht & [= -> -> -> ->] & Hf).
    destruct (D2 _ _ eq_refl Ht) as (j & img & Hk & Hj & ? & ?).
    exists img, fs0, fs2. rewrite Nat.add_0_r in Hk.
    apply lookup_slice_Some in Hj. rewrite <- Hk in Hj. done.
  - intros j img Hj. destruct (D3 _ _ _ eq_refl Hj) as [p Hp].
    rewrite Nat.add_0_r in Hp. exists p. split; [done|].
    assert ((start + j)%nat ∈ indices evs1 ++ (task_index <$> tasks)) as Hin.
    { rewrite Q3, Nat.add_0_r, elem_of_seq. apply lookup_lt_Some in Hj. lia. }
    apply elem_of_app in Hin as [Hin|Hin].
    + apply elem_of_indices in Hin as (e & Hin & He).
      rewrite Forall_forall in Q2. pose proof (Q2 _ Hin) as Hnf.
      destruct e as [|k f s| | | |]; try done. injection He as ->.
      destruct (D1 _ _ _ Hin) as (j' & img' & Hk & Hj' & Hplan & Hfs & Hbig).
      assert (j' = j) as -> by lia. rewrite Hj in Hj'. injection Hj' as <-.
      unfold plan_path in Hp. rewrite Hplan in Hp. injection Hp as <-.
      unfold complete_file. rewrite Hfs. apply N.ltb_lt in Hbig. rewrite Hbig.
      exists f, s. rewrite elem_of_cons, !elem_of_app. auto.
    + apply list_elem_of_fmap in Hin as (t & Hk & Ht).
      destruct (D2 _ _ eq_refl Ht) as (j' & img' & Hk' & Hj' & Hplan & Hc).
      assert (j' = j) as -> by lia. rewrite Hj in Hj'. injection Hj' as <-.
      rewrite <- Hk in Hplan. rewrite Hp in Hplan. injection Hplan as ->.
      rewrite Hc. destruct (G2 _ Ht) as (att & res & Hin).
      exists att, res. rewrite Hk, elem_of_cons, !elem_of_app. auto.
Qed.

End BatchDispatch.

(** ** The pre-check *)





Lemma fetch_image_returned env k p fs res fs' att :
  fetch_image env k p fs = (res, fs', att) →
  ∃ b, res = Returned b ∧ download_cmip6_image (env k) p fs = (b, fs', att).
Proof.
  unfold fetch_image. destruct (download_cmip6_image (env k) p fs) as [[b fs1] evs].
  intros [= <- <- <-]. by exists b.
Qed.



(** ** Runs that complete *)

Section Totality.

Variable utc_offset : Z -> Z.
Variable fetch : nat -> string -> filesystem ->
                 outcome * filesystem * list fetch_event.

Lemma prepare_tasks_total path start imgs fs : ∀ i st,
  (∀ j img, imgs !! j = Some img →
     is_Some (plan_path utc_offset path img (start + i + j))) →
  ∃ tasks st' evs,
    prepare_tasks utc_offset path start i imgs st fs = (Some tasks, st', evs).
Proof.
  induction imgs as [|img rest IH]; intros i st Hall.
  { by exists [], st, []. }
  destruct (Hall 0%nat img eq_refl) as (p & Hp).
  unfold plan_path in Hp. rewrite Nat.add_0_r in Hp. simpl.
  destruct (plan_filename utc_offset img (start + i)) as [filename|]; [|done].
  assert (∀ st, ∃ tasks st' evs,
            prepare_tasks utc_offset path start (S i) rest st fs
            = (Some tasks, st', evs)) as Hrest.
  { intros st0. apply IH. intros j img' Hj. specialize (Hall (S j) img' Hj).
    by replace (start + S i + j)%nat with (start + i + S j)%nat by lia. }
  destruct (fs !! PyStr.path_join path filename) as [size|];
    [destruct (1024 <? size)%N|].
  - destruct (Hrest (add_successful st)) as (tasks & st' & evs & ->). by eexists _, _, _.
  - destruct (Hrest st) as (tasks & st' & evs & ->). by eexists _, _, _.
  - destruct (Hrest st) as (tasks & st' & evs & ->). by eexists _, _, _.
Qed.

Lemma run_batch_total imgs path mc bs start st fs :
  0 < mc →
  (∀ k img, imgs !! k = Some img → is_Some (plan_path utc_offset path img k)) →
  ∃ st' fs' evs,
    run_batch utc_offset fetch imgs path mc bs start st fs = (Completed st', fs', evs).
Proof.
  intros Hmc Hall. unfold run_batch.
  edestruct (prepare_tasks_total path start
               (slice imgs start (Nat.min (start + bs) (total st))) fs 0 st)
    as (tasks & st' & evs & ->).
  { intros j img Hj. rewrite Nat.add_0_r. apply Hall. by eapply lookup_slice_Some. }
  destruct (Z.ltb_spec mc 0); [lia|]. destruct tasks as [|t tasks].
  { by eexists _, _, _. }
  destruct (Z.eqb_spec mc 0); [lia|].
  destruct (gather fetch (t :: tasks) fs) as [[results fs1] fetched].
  destruct (count_results st' results) as [st'' counted]. by eexists _, _, _.
Qed.

Lemma batch_loop_total imgs path mc bs starts : ∀ st fs,
  0 < mc →
  (∀ k img, imgs !! k = Some img → is_Some (plan_path utc_offset path img k)) →
  ∃ st' fs' evs,
    batch_loop utc_offset fetch starts imgs path mc bs st fs = (Completed st', fs', evs).
Proof.
  induction starts as [|start rest IH]; intros st fs Hmc Hall.
  { by exists st, fs, []. }
  simpl. destruct (run_batch_total imgs path mc bs start st fs Hmc Hall)
    as (st1 & fs1 & evs1 & ->).
  destruct (IH st1 fs1 Hmc Hall) as (st2 & fs2 & evs2 & ->). by eexists _, _, _.
Qed.

Lemma export_with_total images path mc bs fs :
  0 < mc → 0 < bs →
  (∀ k img, images !! k = Some img → is_Some (plan_path utc_offset path img k)) →
  ∃ st' fs' evs,
    export_with utc_offset fetch (Some images) path mc bs fs = (Completed st', fs', evs).
Proof.
  intros Hmc Hbs Hall. unfold export_with. simpl.
  destruct (length images =? 0)%nat; [by eexists _, _, _|].
  destruct (Z.eqb_spec bs 0); [lia|]. destruct (Z.ltb_spec bs 0); [lia|].
  by apply batch_loop_total.
Qed.

End Totality.

(** ** Batches *)

Lemma length_segments log :
  length (segments log) = S (length (List.filter is_cooldown log)).
Proof.
  induction log as [|e log IH]; [done|]. simpl. destruct (is_cooldown e); simpl.
  - by rewrite IH.
  - destruct (segments log) eqn:Hs; [by apply segments_not_nil in Hs|].
    simpl in *. done.
Qed.

Lemma py_range_lookup n b j s :
  (0 < b)%nat → py_range n b !! j = Some s → s = (j * b)%nat ∧ (s < n)%nat.
Proof.
  intros Hb. unfold py_range. rewrite list_lookup_fmap.
  destruct (seq 0 ((n + b - 1) / b) !! j) as [j'|] eqn:Hj; [|done].
  apply lookup_seq in Hj as [-> Hlt]. simpl. intros [= <-]. split; [done|].
  destruct (ceil_div_bounds n b Hb) as [_ Hgt].
  assert (0 < n)%nat as Hn.
  { destruct n; [|lia]. rewrite Nat.div_small in Hlt; lia. }
  specialize (Hgt Hn).
  assert (j * b ≤ ((n + b - 1) / b - 1) * b)%nat by (apply Nat.mul_le_mono_r; lia).
  lia.
Qed.

Lemma concat_slices {A} (l : list A) b n : ∀ a,
  (0 < b)%nat → (length l ≤ (a + n) * b)%nat →
  concat ((fun s => slice l s (Nat.min (s + b) (length l)))
            <$> ((fun j => j * b)%nat <$> seq a n))
  = drop (a * b) l.
Proof.
  induction n as [|n IH]; intros a Hb Hlen; simpl.
  { rewrite drop_ge; [done|]. by rewrite Nat.add_0_r in Hlen. }
  rewrite IH by (done || lia). unfold slice.
  replace (S a * b)%nat with (a * b + b)%nat by lia. rewrite <- drop_drop.
  rewrite <- (take_drop b (drop (a * b) l)) at 3. f_equal.
  destruct (Nat.le_gt_cases (a * b + b) (length l)).
  - f_equal. lia.
  - rewrite !take_ge; [done|rewrite length_drop; lia..].
Qed.

(** C6. A run that completes on a non-empty listing with a positive batch
    size deals with the slices [images_info[s : min(s + batch_size, n)]]
    for [s] in [range(0, n, batch_size)]: these are consecutive (put end
    to end they are the listing), each has [batch_size] records except
    that the last has what is left, and 25 records by 10 give slices of
    10, 10 and 5. Cut at its cooldowns, the log has one segment per slice,
    in order, holding the skip and fetch events of exactly the records of
    that slice; every cooldown lasts one second, and there is one fewer of
    them than slices, so none follows the last slice. *)
Theorem batch_partitioning utc_offset fetch images path mc bs fs st fs' log :
  export_with utc_offset fetch (Some images) path mc bs fs = (Completed st, fs', log) →
  0 < bs → images ≠ [] →
  let n := length images in
  let b := Z.to_nat bs in
  let piece s := slice images s (Nat.min (s + b) n) in
  concat (piece <$> py_range n b) = images
  ∧ (∀ j s, py_range n b !! j = Some s →
       s = (j * b)%nat ∧ (s < n)%nat ∧ length (piece s) = Nat.min b (n - s))
  ∧ Forall2 (fun seg s => indices seg ≡ₚ seq s (length (piece s)))
            (segments log) (py_range n b)
  ∧ (∀ s, Cooldown s ∈ log → s = 1%N)
  ∧ S (length (List.filter is_cooldown log)) = length (py_range n b)
  ∧ (∀ l : list image_info, length l = 25%nat →
       (fun s => length (slice l s (Nat.min (s + 10) 25))) <$> py_range 25 10
       = [10; 10; 5]%nat).
Proof.
  intros Hrun Hbs Hne n b piece.
  assert (n = length images) as Hndef by done.
  assert (b = Z.to_nat bs) as Hbdef by done.
  clearbody n b.
  assert (0 < b)%nat as Hb by lia.
  assert (0 < n)%nat as Hn by (destruct images; [done|simpl in Hndef; lia]).
  destruct (ceil_div_bounds n b Hb) as [Hle _].
  assert (∀ s, (s < n)%nat → length (piece s) = Nat.min b (n - s)) as Hpiece.
  { intros s Hs. unfold piece. rewrite length_slice by lia. lia. }
  unfold export_with in Hrun. simpl in Hrun.
  destruct (Nat.eqb_spec (length images) 0); [lia|].
  destruct (Z.eqb_spec bs 0); [lia|]. destruct (Z.ltb_spec bs 0); [lia|].
  rewrite <- Hndef, <- Hbdef in Hrun. unfold py_range in Hrun.
  destruct (batch_loop_counters _ _ _ _ _ _ _ _ _ _ _ _ _ Hrun)
    as (_ & _ & L3); simpl; try done; try lia.
  destruct (L3 _ eq_refl) as (_ & Hcool & Hseg). simpl in Hseg.
  assert (0 < (n + b - 1) / b)%nat as Hnb by (destruct ((n + b - 1) / b)%nat; lia).
  specialize (Hseg Hnb).
  assert (Forall2 (fun seg s => indices seg ≡ₚ seq s (length (piece s)))
                  (segments log) (py_range n b)) as Hseg'.
  { apply Forall2_lookup. intros i.
    pose proof (proj1 (Forall2_lookup _ _ _) Hseg i) as Hi.
    fold (py_range n b) in Hi.
    inversion Hi as [seg s Hperm Hx Hy|]; constructor.
    symmetry in Hy. destruct (py_range_lookup n b i s Hb Hy) as [_ Hs].
    rewrite Hperm, Hpiece by done.
    by replace (Nat.min (s + b) n - s)%nat with (Nat.min b (n - s)) by (clear; lia). }
  split_and!.
  - unfold py_range, piece. rewrite Hndef.
    rewrite (concat_slices images b ((length images + b - 1) / b) 0 Hb); [done|].
    simpl. rewrite <- Hndef. exact Hle.
  - intros j s Hs. destruct (py_range_lookup n b j s Hb Hs) as [-> ?].
    split_and!; [done|done|by apply Hpiece].
  - done.
  - done.
  - rewrite <- length_segments. by eapply Forall2_length.
  - intros l Hl. vm_compute py_range. simpl. unfold slice.
    rewrite !length_take, !length_drop, Hl. done.
Qed.

Lemma batch_partitioning_witness :
  let run := export_with Sample.utc (fetch_image Sample.env5)
               (Some Sample.listing5) "out" 3 2 Sample.fs2 in
  run.1.1 = Completed (Stats 5 4 1)
  ∧ py_range 5 2 = [0; 2; 4]%nat
  ∧ S (length (List.filter is_cooldown run.2)) = length (py_range 5 2).
Proof.
  intros run.
  assert (run.1.1 = Completed (Stats 5 4 1)) as Hst by (vm_compute; reflexivity).
  split; [exact Hst|]. split; [reflexivity|].
  destruct (batch_partitioning Sample.utc (fetch_image Sample.env5)
              Sample.listing5 "out" 3 2 Sample.fs2 (Stats 5 4 1) run.1.2 run.2)
    as (_ & _ & _ & _ & H & _).
  - vm_compute. reflexivity.
  - lia.
  - discriminate.
  - exact H.
Defined.
(** ** Retries *)

Lemma download_result e p fs b fs' log :
  download_cmip6_image e p fs = (b, fs', log) → prepare e = Prepared →
  (b = true ↔ ∃ k, (k < 3)%nat ∧ succeeds (respond e k) = true).
Proof.
  intros Hrun Hp.
  destruct (download_schedule _ _ _ _ _ _ Hrun Hp) as (n & Hn & _ & Hbefore & Hb & Hlast).
  split.
  - intros ->. by exists n.
  - intros (k & Hk & Hok). destruct b; [done|]. specialize (Hlast eq_refl). subst n.
    destruct (decide (k = 2%nat)) as [->|]; [congruence|].
    rewrite Hbefore in Hok by lia. done.
Qed.

Lemma sleeps_schedule log : sleeps (schedule log) = sleeps log.
Proof.
  induction log as [|e log IH]; [done|]. destruct e; simpl; by rewrite ?IH.
Qed.

Lemma gets_schedule log : gets (schedule log) = gets log.
Proof.
  induction log as [|e log IH]; [done|]. destruct e; simpl; by rewrite ?IH.
Qed.

Lemma sum_failed_single k log :
  NoDup (indices log) →
  (∀ e, e ∈ log → ev_failed e = if decide (ev_index e = Some k) then 1%nat else 0%nat) →
  sum_list_with ev_failed log = if decide (k ∈ indices log) then 1%nat else 0%nat.
Proof.
  induction log as [|e log IH]; intros Hnd Hall.
  { done. }
  change (sum_list_with ev_failed (e :: log))
    with (ev_failed e + sum_list_with ev_failed log)%nat.
  assert (e ∈ e :: log) as He0 by (apply elem_of_cons; auto).
  rewrite (Hall e He0).
  assert (∀ e', e' ∈ log →
            ev_failed e' = if decide (ev_index e' = Some k) then 1%nat else 0%nat)
    as Hall' by (intros; apply Hall; apply elem_of_cons; auto).
  unfold indices in *. cbn [omap list_omap] in *.
  destruct (ev_index e) as [k'|] eqn:He.
  - apply NoDup_cons in Hnd as [Hnotin Hnd]. rewrite (IH Hnd Hall').
    destruct (decide (k' = k)) as [->|Hne].
    + rewrite (decide_True (P := Some k = Some k)) by done.
      rewrite (decide_False (P := k ∈ omap ev_index log)) by done.
      rewrite decide_True; [done|]. apply elem_of_cons. auto.
    + rewrite (decide_False (P := Some k' = Some k)) by congruence.
      destruct (decide (k ∈ omap ev_index log)) as [Hin|Hnin].
      * rewrite decide_True; [done|]. apply elem_of_cons. auto.
      * rewrite decide_False; [done|]. intros [?|?]%elem_of_cons; done.
  - rewrite (IH Hnd Hall'). rewrite (decide_False (P := None = Some k)) by done.
    done.
Qed.
Lemma one_failing_record utc_offset env images path mc bs fs :
  length images = 5%nat → 5 ≤ bs → 0 < mc →
  (∀ k img, images !! k = Some img → is_Some (plan_path utc_offset path img k)) →
  (∀ img p, images !! 2%nat = Some img →
     plan_path utc_offset path img 2 = Some p → complete_file fs p = false) →
  prepare (env 2%nat) = Prepared →
  (∀ k, ∃ body, respond (env 2%nat) k = Response 500 body) →
  (∀ i, i ≠ 2%nat →
     prepare (env i) = Prepared ∧ succeeds (respond (env i) 0%nat) = true) →
  ∃ fs' log,
    export_cmip6_collection_parallel utc_offset env (Some images) path mc bs fs
    = (Completed (Stats 5 4 1), fs', log)
    ∧ ∃ p att, Fetched 2 p att (Returned false) ∈ log
               ∧ schedule att = full_schedule.
Proof.
  intros Hlen Hbs Hmc Hplan Hsmall Hprep2 H500 Hok.
  unfold export_cmip6_collection_parallel.
  destruct (export_with_total utc_offset (fetch_image env) images path mc bs fs)
    as (st & fs' & log & Hrun); [lia|lia|done|].
  exists fs', log. rewrite Hrun.
  destruct (export_with_counters _ _ _ _ _ _ _ _ _ _ Hrun) as (_ & C2 & C3 & _).
  destruct (C2 _ (or_introl eq_refl)) as (_ & Hsucc & Hfail).
  destruct (C3 _ _ eq_refl eq_refl ltac:(lia)) as (Htotal & Hsum).
  unfold export_with in Hrun. simpl in Hrun. rewrite Hlen in Hrun. simpl in Hrun.
  destruct (Z.eqb_spec bs 0); [lia|]. destruct (Z.ltb_spec bs 0); [lia|].
  set (b := Z.to_nat bs) in *. assert (5 ≤ b)%nat as Hb by lia.
  assert (py_range 5 b = [0%nat]) as Hrange.
  { unfold py_range. replace ((5 + b - 1) / b)%nat with 1%nat; [done|].
    apply (Nat.div_unique _ _ 1 4); lia. }
  rewrite Hrange in Hrun. simpl in Hrun.
  destruct (run_batch utc_offset (fetch_image env) images path mc b 0
              (Stats 5 0 0) fs) as [[r1 fs1] evs1] eqn:Hbatch.
  destruct r1 as [st1| |]; [|done..]. simpl in Hrun.
  injection Hrun as <- <- <-. rewrite app_nil_r in *.
  destruct (run_batch_counters _ _ _ _ _ _ _ _ _ _ _ _ Hbatch)
    as (_ & _ & B3); [done|simpl; lia|].
  destruct (B3 _ eq_refl) as (_ & body & Hevs & Hcalm & Hperm). simpl in Hevs, Hperm.
  replace (Nat.min b 5) with 5%nat in * by lia.
  unfold cooldown_of in Hevs. simpl in Hevs. rewrite app_nil_r in Hevs. subst body.
  destruct (run_batch_dispatch _ _ _ _ _ _ _ _ _ _ _ _ Hbatch) as (D1 & D2 & D3).
  assert (∃ img, images !! 2%nat = Some img) as [img2 Himg2].
  { apply lookup_lt_is_Some. lia. }
  destruct (D3 2%nat img2) as (p2 & Hp2 & Hcase).
  { simpl. replace (Nat.min b 5) with 5%nat by lia. rewrite lookup_slice; [done|lia]. }
  simpl in Hp2. rewrite (Hsmall _ _ Himg2 Hp2) in Hcase.
  destruct Hcase as (att2 & res2 & Hin2).
  assert (∀ k p att res, Fetched k p att res ∈ evs1 →
            ∃ bk, res = Returned bk
                  ∧ (k = 2%nat → bk = false ∧ schedule att = full_schedule)
                  ∧ (k ≠ 2%nat → bk = true)) as Hfetched.
  { intros k p att res Hin.
    destruct (D2 _ _ _ _ Hin) as (_ & fs0 & fs2 & _ & _ & _ & Hf).
    apply fetch_image_returned in Hf as (bk & -> & Hd). exists bk.
    split; [done|]. split.
    - intros ->. destruct (download_schedule _ _ _ _ _ _ Hd Hprep2)
        as (m & Hm & Hsched & _ & Hbk & Hlast).
      assert (bk = false) as ->.
      { rewrite Hbk. destruct (H500 m) as [body ->]. by destruct body. }
      rewrite (Hlast eq_refl) in Hsched. done.
    - intros Hk. destruct (Hok k Hk) as [Hpk Hsk].
      apply (download_result _ _ _ _ _ _ Hd Hpk). exists 0%nat. split; [lia|done]. }
  destruct (Hfetched _ _ _ _ Hin2) as (b2 & -> & Hb2 & _).
  destruct (Hb2 eq_refl) as [-> Hsched2].
  split; [|by exists p2, att2].
  assert (sum_list_with ev_failed evs1 = 1%nat) as Hone.
  { rewrite (sum_failed_single 2).
    - rewrite decide_True; [done|]. apply list_elem_of_omap.
      by exists (Fetched 2 p2 att2 (Returned false)).
    - rewrite Hperm. apply NoDup_seq.
    - intros e He. destruct e as [|k f s| |k p att res| |]; simpl;
        try done.
      + rewrite decide_False; [done|]. intros [= ->].
        destruct (D1 _ _ _ He) as (img & Himg & Hpf & Hfs & Hbig).
        rewrite Himg2 in Himg. injection Himg as <-.
        pose proof (Hsmall img2 (PyStr.path_join path f) Himg2) as Hs.
        unfold plan_path in Hs. rewrite Hpf in Hs. specialize (Hs eq_refl).
        unfold complete_file in Hs. rewrite Hfs in Hs.
        apply N.ltb_lt in Hbig. congruence.
      + destruct (Hfetched _ _ _ _ He) as (bk & -> & Hk2 & Hkn).
        destruct (decide (k = 2%nat)) as [->|Hne].
        * destruct (Hk2 eq_refl) as [-> _]. by rewrite decide_True.
        * rewrite (Hkn Hne). rewrite decide_False; [done|]. by intros [= ->]. }
  destruct st1 as [t s f]. simpl in *. repeat f_equal; lia.
Qed.

(** C2. An invocation of the fetcher whose preparation succeeded makes
    the requests 0, 1, 2 in turn and stops at the first one that is
    answered by status 200 with a non-empty body, so at most three; after
    each request that fails and is not the third it sleeps [2 ** retry]
    seconds (1, then 2, non-decreasing), whether the attempt fell through
    or raised; when no request succeeds it has made the full schedule and
    returns false. The task handed to [gather] always returns a boolean
    and never raises. With five records in one batch, the third always
    answered by status 500 and the others answered at once, the run
    returns [{total: 5, successful: 4, failed: 1}] and the failing record
    went through requests separated by sleeps of 1 s and 2 s. *)
Theorem retry_policy :
  (∀ e p fs b fs' log,
     download_cmip6_image e p fs = (b, fs', log) → prepare e = Prepared →
     ∃ n, (n < 3)%nat
       ∧ schedule log = take (2 * n + 1) full_schedule
       ∧ gets log = seq 0 (S n)
       ∧ sleeps log = take n [1; 2]%N
       ∧ (∀ j, (j < n)%nat → succeeds (respond e j) = false)
       ∧ b = succeeds (respond e n)
       ∧ (b = false → n = 2%nat))
  ∧ (∀ e p fs b fs' log,
       download_cmip6_image e p fs = (b, fs', log) →
       (length (gets log) ≤ 3)%nat ∧ StronglySorted N.le (sleeps log))
  ∧ (∀ env k p fs, ∃ b, (fetch_image env k p fs).1.1 = Returned b)
  ∧ (∀ utc_offset env images path mc bs fs,
       length images = 5%nat → 5 ≤ bs → 0 < mc →
       (∀ k img, images !! k = Some img →
          is_Some (plan_path utc_offset path img k)) →
       (∀ img p, images !! 2%nat = Some img →
          plan_path utc_offset path img 2 = Some p → complete_file fs p = false) →
       prepare (env 2%nat) = Prepared →
       (∀ k, ∃ body, respond (env 2%nat) k = Response 500 body) →
       (∀ i, i ≠ 2%nat →
          prepare (env i) = Prepared ∧ succeeds (respond (env i) 0%nat) = true) →
       ∃ fs' log,
         export_cmip6_collection_parallel utc_offset env (Some images) path mc bs fs
         = (Completed (Stats 5 4 1), fs', log)
         ∧ ∃ p att, Fetched 2 p att (Returned false) ∈ log
                    ∧ schedule att = full_schedule).
Proof.
  assert (∀ e p fs b fs' log,
     download_cmip6_image e p fs = (b, fs', log) → prepare e = Prepared →
     ∃ n, (n < 3)%nat
       ∧ schedule log = take (2 * n + 1) full_schedule
       ∧ gets log = seq 0 (S n)
       ∧ sleeps log = take n [1; 2]%N
       ∧ (∀ j, (j < n)%nat → succeeds (respond e j) = false)
       ∧ b = succeeds (respond e n)
       ∧ (b = false → n = 2%nat)) as Hfirst.
  { intros e p fs b fs' log Hrun Hp.
    destruct (download_schedule _ _ _ _ _ _ Hrun Hp) as (n & Hn & Hs & H1 & H2 & H3).
    exists n. rewrite <- (gets_schedule log), <- (sleeps_schedule log), Hs.
    split_and!; try done; by destruct n as [|[|[|]]]; try lia. }
  split_and!; [done| | |apply one_failing_record].
  - intros e p fs b fs' log Hrun.
    assert (prepare e = Prepared ∨ prepare e ≠ Prepared) as [Hp|Hp]
      by (destruct (prepare e); auto).
    + destruct (Hfirst _ _ _ _ _ _ Hrun Hp) as (n & Hn & _ & -> & -> & _).
      rewrite length_seq. split; [lia|].
      destruct n as [|[|[|]]]; try lia; simpl; repeat constructor; lia.
    + rewrite download_unprepared in Hrun by done. injection Hrun as <- <- <-.
      simpl. split; [lia|constructor].
  - intros env k p fs. unfold fetch_image.
    destruct (download_cmip6_image (env k) p fs) as [[b ?] ?]. by exists b.
Qed.

Lemma retry_policy_witness :
  ∃ fs' log,
    export_cmip6_collection_parallel Sample.utc Sample.env5
      (Some Sample.listing5) "out" 3 10 Sample.fs2
    = (Completed (Stats 5 4 1), fs', log)
    ∧ ∃ p att, Fetched 2 p att (Returned false) ∈ log
               ∧ schedule att = full_schedule.
Proof.
  destruct retry_policy as (_ & _ & _ & H).
  apply (H Sample.utc Sample.env5 Sample.listing5 "out" 3 10 Sample.fs2).
  - reflexivity.
  - lia.
  - lia.
  - intros k img Hk.
    destruct k as [|[|[|[|[|k]]]]]; simpl in Hk; try discriminate;
      injection Hk as <-; eexists; vm_compute; reflexivity.
  - intros img p Himg Hp. simpl in Himg. injection Himg as <-.
    vm_compute in Hp. injection Hp as <-. vm_compute. reflexivity.
  - reflexivity.
  - intros k. eexists. reflexivity.
  - intros i Hi. unfold Sample.env5.
    destruct (Nat.eqb_spec i 2) as [->|_]; [contradiction|].
    split; reflexivity.
Defined.

(** ** The concurrency gate *)









(** ** The events of a run *)



(** ** Dates *)







(** ** The path planner *)








(** ** The variable-level driver *)

Lemma run_batch_no_hang utc_offset fetch imgs path mc bs start st fs :
  mc ≠ 0 → (run_batch utc_offset fetch imgs path mc bs start st fs).1.1 ≠ Hangs.
Proof.
  intros Hmc. unfold run_batch.
  destruct (prepare_tasks utc_offset path start 0 _ st fs) as [[[tasks|] st1] evs1];
    [|done].
  destruct (mc <? 0); [done|]. destruct tasks as [|t tasks]; [done|].
  destruct (Z.eqb_spec mc 0); [done|].
  destruct (gather fetch (t :: tasks) fs) as [[results fs1] fetched].
  by destruct (count_results st1 results).
Qed.

Lemma batch_loop_no_hang utc_offset fetch imgs path mc bs starts : ∀ st fs,
  mc ≠ 0 → (batch_loop utc_offset fetch starts imgs path mc bs st fs).1.1 ≠ Hangs.
Proof.
  induction starts as [|start rest IH]; intros st fs Hmc; [done|]. simpl.
  pose proof (run_batch_no_hang utc_offset fetch imgs path mc bs start st fs Hmc) as Hb.
  destruct (run_batch utc_offset fetch imgs path mc bs start st fs) as [[r fs1] evs1].
  destruct r as [st1| |]; [|done..].
  specialize (IH st1 fs1 Hmc).
  by destruct (batch_loop utc_offset fetch rest imgs path mc bs st1 fs1) as [[r2 ?] ?].
Qed.


Lemma dict_set_keys {V} k (v : V) d :
  (dict_set k v d).*1 = if decide (k ∈ d.*1) then d.*1 else d.*1 ++ [k].
Proof.
  induction d as [|[k' v'] d IH]; [done|].
  change (dict_set k v ((k', v') :: d))
    with (if String.eqb k' k then (k, v) :: d else (k', v') :: dict_set k v d).
  destruct (String.eqb_spec k' k) as [->|Hne]; rewrite !fmap_cons; simpl fst.
  - rewrite decide_True; [done|]. apply elem_of_cons. auto.
  - rewrite IH. destruct (decide (k ∈ d.*1)) as [Hin|Hnin].
    + rewrite decide_True; [done|]. apply elem_of_cons. auto.
    + rewrite decide_False; [done|]. intros [->|?]%elem_of_cons; done.
Qed.

Lemma filter_bands_nodup variables : ∀ filtered,
  NoDup filtered.*1 → NoDup (filter_bands variables filtered).*1.
Proof.
  induction variables as [|var rest IH]; intros filtered Hnd; [done|].
  cbn [filter_bands].
  destruct (dict_get var cmip6_bands); [|by apply IH]. apply IH.
  rewrite dict_set_keys. case_decide; [done|].
  apply NoDup_app. split_and!; [done| |apply NoDup_singleton].
  intros x Hx ->%list_elem_of_singleton. done.
Qed.

Lemma select_bands_nodup variables : NoDup (select_bands variables).*1.
Proof.
  assert (NoDup cmip6_bands.*1) as Hall.
  { apply (bool_decide_unpack _). by vm_compute. }
  unfold select_bands. destruct variables as [[|var rest]|]; try done.
  pose proof (filter_bands_nodup (var :: rest) [] (NoDup_nil_2)) as Hnd.
  by destruct (filter_bands (var :: rest) []).
Qed.



(** * Further properties *)

(** ** What a fetch leaves on disk *)

Lemma attempt_effect retry r p fs a fs1 tried :
  attempt retry r p fs = (a, fs1, tried) →
  (a = ReturnsTrue ∧ ∃ len, r = Response 200 (Content len) ∧ (0 < len)%N
                            ∧ fs1 = <[p := len]> fs)
  ∨ (a ≠ ReturnsTrue ∧ (fs1 = fs ∨ fs1 = <[p := 0%N]> fs)).
Proof.
  destruct r as [|status [| |len]]; simpl.
  - intros [= <- <- <-]. right. split; [done|by left].
  - destruct (status =? 200); intros [= <- <- <-]; right; (split; [done|by left]).
  - destruct (status =? 200); intros [= <- <- <-]; right;
      (split; [done|]); [by right|by left].
  - destruct (Z.eqb_spec status 200) as [->|Hne].
    + rewrite lookup_insert_eq. destruct (N.ltb_spec 0 len); intros [= <- <- <-].
      * left. split; [done|]. by exists len.
      * right. split; [done|]. right. by replace len with 0%N by lia.
    + intros [= <- <- <-]. right. split; [done|by left].
Qed.

Lemma retry_loop_effect retries respond p : ∀ fs b fs' log,
  retry_loop retries respond p fs = (b, fs', log) →
  (b = true ∧ ∃ pre n post len,
     retries = pre ++ n :: post
     ∧ Forall (fun j => succeeds (respond j) = false) pre
     ∧ respond n = Response 200 (Content len)
     ∧ (0 < len)%N ∧ fs' = <[p := len]> fs)
  ∨ (b = false ∧ (fs' = fs ∨ fs' = <[p := 0%N]> fs)).
Proof.
  induction retries as [|k rest IH]; intros fs b fs' log.
  { simpl. intros [= <- <- <-]. right. split; [done|by left]. }
  simpl. destruct (attempt_spec k (respond k) p fs)
    as (a' & fs1' & tried' & Ha' & _ & Hs & _).
  destruct (attempt k (respond k) p fs) as [[a fs1] tried] eqn:Ha.
  injection Ha' as <- <- <-.
  apply attempt_effect in Ha as [(-> & len & Hr & Hlen & ->)|(Hna & Hfs1)].
  { intros [= <- <- <-]. left. split; [done|]. by exists [], k, rest, len. }
  assert (succeeds (respond k) = false) as Hfail.
  { destruct (succeeds (respond k)); [|done]. by destruct Hna, (proj2 Hs). }
  destruct (retry_loop rest respond p fs1) as [[b2 fs2] evs] eqn:Hrest.
  intros Heq. assert ((b2, fs2, tried ++ backoff k ++ evs) = (b, fs', log)) as Heq'
    by (by destruct a). clear Heq. injection Heq' as <- <- <-.
  apply IH in Hrest as [(-> & pre & n & post & len & -> & Hpre & Hr & Hlen & ->)
                       |(-> & Hfs2)].
  - left. split; [done|]. exists (k :: pre), n, post, len. split_and!; try done.
    + by constructor.
    + destruct Hfs1 as [->| ->]; [done|]. by rewrite insert_insert_eq.
  - right. split; [done|].
    destruct Hfs1 as [->| ->], Hfs2 as [->| ->]; auto.
    right. by rewrite insert_insert_eq.
Qed.

Lemma download_success_effect e p fs fs' log :
  download_cmip6_image e p fs = (true, fs', log) →
  ∃ n len,
    (n < 3)%nat
    ∧ (∀ j, (j < n)%nat → succeeds (respond e j) = false)
    ∧ respond e n = Response 200 (Content len) ∧ (0 < len)%N
    ∧ fs' = <[p := len]> fs
    ∧ complete_file fs' p = (1024 <? len)%N.
Proof.
  unfold download_cmip6_image. destruct (prepare e); try done.
  intros [(_ & pre & n & post & len & Hsplit & Hpre & Hr & Hlen & ->)
         |([=] & _)]%retry_loop_effect.
  exists n, len. unfold complete_file. rewrite lookup_insert_eq.
  assert (n = length pre ∧ (n < 3)%nat) as [Hn Hlt].
  { assert (seq 0 max_retries !! length pre = Some n) as Hl.
    { rewrite Hsplit. by apply list_lookup_middle. }
    apply lookup_seq in Hl. unfold max_retries in Hl. lia. }
  split_and!; try done. intros j Hj.
  assert (pre !! j = Some j) as Hpj.
  { assert (seq 0 max_retries !! j = Some j) as Hl
      by (apply lookup_seq; unfold max_retries; lia).
    rewrite Hsplit, lookup_app_l in Hl by lia. done. }
  rewrite Forall_forall in Hpre. apply Hpre. by eapply list_elem_of_lookup_2.
Qed.

(** X1. A fetch that returns true stopped at the first request answered
    by status 200 with a non-empty body, and the file system differs from
    the one it started from only in that the destination now holds that
    body, whatever earlier attempts did to it; the next run's pre-check
    takes the file for complete exactly when the body exceeds 1024 bytes,
    so a shorter download is counted as successful and fetched again. *)
Theorem fetch_success_effect e p fs fs' log :
  download_cmip6_image e p fs = (true, fs', log) →
  ∃ n len,
    (n < 3)%nat
    ∧ (∀ j, (j < n)%nat → succeeds (respond e j) = false)
    ∧ respond e n = Response 200 (Content len) ∧ (0 < len)%N
    ∧ fs' = <[p := len]> fs
    ∧ complete_file fs' p = (1024 <? len)%N.
Proof. apply download_success_effect. Qed.

(** X2. A fetch that returns false leaves the file system as it was or
    with an empty file at the destination (a body that could not be read,
    or an empty body): it never turns a destination into one the pre-check
    takes for complete, and it touches no other path. *)
Theorem fetch_failure_effect e p fs fs' log :
  download_cmip6_image e p fs = (false, fs', log) →
  (fs' = fs ∨ fs' = <[p := 0%N]> fs)
  ∧ (complete_file fs' p = true → fs' = fs)
  ∧ (∀ q, complete_file fs' q = true → complete_file fs q = true).
Proof.
  intros Hrun.
  assert (fs' = fs ∨ fs' = <[p := 0%N]> fs) as Hfs.
  { revert Hrun. unfold download_cmip6_image.
    destruct (prepare e); try (intros [= <- <-]; by left).
    by intros [([=] & _)|(_ & ?)]%retry_loop_effect. }
  split; [done|]. destruct Hfs as [->| ->].
  - done.
  - unfold complete_file. split.
    + by rewrite lookup_insert_eq.
    + intros q. destruct (decide (p = q)) as [->|Hne].
      * by rewrite lookup_insert_eq.
      * by rewrite lookup_insert_ne.
Qed.

Lemma fetch_success_effect_witness :
  ∃ n len,
    (n < 3)%nat
    ∧ (∀ j, (j < n)%nat →
         succeeds (respond (TaskEnv Prepared
           (fun k => if (k =? 0)%nat then Response 200 ReadRaises
                     else Response 200 (Content 700))) j) = false)
    ∧ respond (TaskEnv Prepared
        (fun k => if (k =? 0)%nat then Response 200 ReadRaises
                  else Response 200 (Content 700))) n
      = Response 200 (Content len)
    ∧ (0 < len)%N
    ∧ <[ "out/M_2020-01-02.tif" := 700%N ]> Sample.fs2
      = <[ "out/M_2020-01-02.tif" := len ]> Sample.fs2
    ∧ complete_file (<[ "out/M_2020-01-02.tif" := 700%N ]> Sample.fs2)
        "out/M_2020-01-02.tif" = (1024 <? len)%N.
Proof.
  apply (fetch_success_effect _ "out/M_2020-01-02.tif" Sample.fs2 _
           [HttpGet 0; Open; Sleep 1; HttpGet 1; Open; Write 700]).
  vm_compute. reflexivity.
Defined.

Lemma fetch_failure_effect_witness :
  (<[ "out/M_2020-01-02.tif" := 0%N ]> Sample.fs2 = Sample.fs2
   ∨ <[ "out/M_2020-01-02.tif" := 0%N ]> Sample.fs2
     = <[ "out/M_2020-01-02.tif" := 0%N ]> Sample.fs2)
  ∧ (complete_file (<[ "out/M_2020-01-02.tif" := 0%N ]> Sample.fs2)
       "out/M_2020-01-02.tif" = true →
     <[ "out/M_2020-01-02.tif" := 0%N ]> Sample.fs2 = Sample.fs2)
  ∧ (∀ q, complete_file (<[ "out/M_2020-01-02.tif" := 0%N ]> Sample.fs2) q = true →
          complete_file Sample.fs2 q = true).
Proof.
  apply (fetch_failure_effect
           (TaskEnv Prepared (fun _ => Response 200 ReadRaises))
           "out/M_2020-01-02.tif" Sample.fs2 _
           [HttpGet 0; Open; Sleep 1; HttpGet 1; Open; Sleep 2; HttpGet 2; Open]).
  vm_compute. reflexivity.
Defined.
(** ** Which files a run changes *)

Lemma gather_frame env tasks : ∀ fs results fs' evs,
  gather (fetch_image env) tasks fs = (results, fs', evs) →
  ∀ q, (∀ k att res, Fetched k q att res ∈ evs → Open ∉ att) →
       fs' !! q = fs !! q.
Proof.
  induction tasks as [|t rest IH]; intros fs results fs' evs.
  { simpl. by intros [= <- <- <-]. }
  simpl. destruct (fetch_image env (task_index t) (task_path t) fs)
    as [[res fs1] att] eqn:Hf.
  destruct (gather (fetch_image env) rest fs1) as [[results2 fs2] evs2] eqn:Hrest.
  intros [= <- <- <-] q Hq.
  rewrite (IH _ _ _ _ Hrest q).
  2: { intros k att' res' Hin. apply (Hq k att' res'). apply elem_of_cons. auto. }
  apply fetch_image_returned in Hf as (b & -> & Hd).
  destruct (download_files _ _ _ _ _ _ Hd) as (Hother & _ & Hno).
  destruct (decide (task_path t = q)) as [<-|Hne].
  - rewrite Hno; [done|]. apply (Hq (task_index t) att (Returned b)).
    apply elem_of_cons. auto.
  - by apply Hother.
Qed.

Lemma run_batch_frame utc_offset env imgs path mc bs start st fs r fs' evs :
  run_batch utc_offset (fetch_image env) imgs path mc bs start st fs = (r, fs', evs) →
  ∀ q, (∀ k att res, Fetched k q att res ∈ evs → Open ∉ att) →
       fs' !! q = fs !! q.
Proof.
  unfold run_batch.
  destruct (prepare_tasks utc_offset path start 0 _ st fs) as [[[tasks|] st1] evs1];
    [|by intros [= <- <- <-]].
  destruct (mc <? 0); [by intros [= <- <- <-]|].
  destruct tasks as [|t tasks]; [by intros [= <- <- <-]|].
  destruct (mc =? 0); [by intros [= <- <- <-]|].
  destruct (gather (fetch_image env) (t :: tasks) fs) as [[results fs1] fetched]
    eqn:Hg.
  destruct (count_results st1 results) as [st2 counted].
  intros [= <- <- <-] q Hq. eapply gather_frame; [done|].
  intros k att res Hin. apply (Hq k att res).
  rewrite elem_of_cons, !elem_of_app. auto.
Qed.

Lemma batch_loop_frame utc_offset env imgs path mc bs starts : ∀ st fs r fs' evs,
  batch_loop utc_offset (fetch_image env) starts imgs path mc bs st fs = (r, fs', evs) →
  ∀ q, (∀ k att res, Fetched k q att res ∈ evs → Open ∉ att) →
       fs' !! q = fs !! q.
Proof.
  induction starts as [|start rest IH]; intros st fs r fs' evs; simpl.
  { by intros [= <- <- <-]. }
  destruct (run_batch utc_offset (fetch_image env) imgs path mc bs start st fs)
    as [[r1 fs1] evs1] eqn:Hbatch.
  destruct r1 as [st1| |].
  - destruct (batch_loop utc_offset (fetch_image env) rest imgs path mc bs st1 fs1)
      as [[r2 fs2] evs2] eqn:Hrest.
    intros [= <- <- <-] q Hq. rewrite (IH _ _ _ _ _ Hrest q).
    + eapply run_batch_frame; [done|]. intros k att res Hin.
      apply (Hq k att res). rewrite elem_of_app. auto.
    + intros k att res Hin. apply (Hq k att res). rewrite elem_of_app. auto.
  - intros [= <- <- <-] q Hq. by eapply run_batch_frame.
  - intros [= <- <- <-] q Hq. by eapply run_batch_frame.
Qed.

Lemma export_frame utc_offset env coll path mc bs fs r fs' log :
  export_cmip6_collection_parallel utc_offset env coll path mc bs fs = (r, fs', log) →
  ∀ q, (∀ k att res, Fetched k q att res ∈ log → Open ∉ att) →
       fs' !! q = fs !! q.
Proof.
  unfold export_cmip6_collection_parallel, export_with.
  destruct coll as [images|]; [|by intros [= <- <- <-]]. simpl.
  destruct (length images =? 0)%nat; [by intros [= <- <- <-]|].
  destruct (bs =? 0); [by intros [= <- <- <-]|].
  destruct (bs <? 0); [by intros [= <- <- <-]|].
  apply batch_loop_frame.
Qed.

(** Every fetch of a log, of a run that completed or not, is that of a
    record of the listing at its planned path. *)
Lemma run_batch_fetched utc_offset fetch imgs path mc bs start st fs r fs' evs :
  run_batch utc_offset fetch imgs path mc bs start st fs = (r, fs', evs) →
  ∀ k p att res, Fetched k p att res ∈ evs →
    ∃ img, imgs !! k = Some img ∧ plan_path utc_offset path img k = Some p.
Proof.
  intros Hrun k p att res Hin. destruct r as [st'| |].
  - destruct (run_batch_dispatch _ _ _ _ _ _ _ _ _ _ _ _ Hrun) as (_ & D2 & _).
    destruct (D2 _ _ _ _ Hin) as (img & _ & _ & ? & ? & _). by exists img.
  - exfalso. revert Hrun Hin. unfold run_batch.
    destruct (prepare_tasks utc_offset path start 0 _ st fs)
      as [[tasks st1] evs1] eqn:Hprep.
    destruct (prepare_tasks_indices _ _ _ _ _ _ _ _ _ _ Hprep) as (_ & Q2 & _).
    rewrite Forall_forall in Q2.
    assert (Fetched k p att res ∈ BatchStarted (start / bs + 1)
              ((total st + bs - 1) / bs) :: evs1 → False) as Hno.
    { intros [[=]|Hin]%elem_of_cons. by apply Q2 in Hin. }
    destruct tasks as [tasks|]; [|by intros [= <- <- <-]].
    destruct (mc <? 0); [by intros [= <- <- <-]|].
    destruct tasks as [|t tasks]; [by intros [=]|].
    destruct (mc =? 0); [by intros [=]|].
    destruct (gather fetch (t :: tasks) fs) as [[results fs1] fetched].
    destruct (count_results st1 results). by intros [=].
  - exfalso. revert Hrun Hin. unfold run_batch.
    destruct (prepare_tasks utc_offset path start 0 _ st fs)
      as [[tasks st1] evs1] eqn:Hprep.
    destruct (prepare_tasks_indices _ _ _ _ _ _ _ _ _ _ Hprep) as (_ & Q2 & _).
    rewrite Forall_forall in Q2.
    assert (Fetched k p att res ∈ BatchStarted (start / bs + 1)
              ((total st + bs - 1) / bs) :: evs1 → False) as Hno.
    { intros [[=]|Hin]%elem_of_cons. by apply Q2 in Hin. }
    destruct tasks as [tasks|]; [|by intros [=]].
    destruct (mc <? 0); [by intros [=]|].
    destruct tasks as [|t tasks]; [by intros [=]|].
    destruct (mc =? 0); [by intros [= <- <-]|].
    destruct (gather fetch (t :: tasks) fs) as [[results fs1] fetched].
    destruct (count_results st1 results). by intros [=].
Qed.

Lemma batch_loop_fetched utc_offset fetch imgs path mc bs starts :
  ∀ st fs r fs' evs,
  batch_loop utc_offset fetch starts imgs path mc bs st fs = (r, fs', evs) →
  ∀ k p att res, Fetched k p att res ∈ evs →
    ∃ img, imgs !! k = Some img ∧ plan_path utc_offset path img k = Some p.
Proof.
  induction starts as [|start rest IH]; intros st fs r fs' evs; simpl.
  { intros [= <- <- <-] k p att res Hin. by apply elem_of_nil in Hin. }
  destruct (run_batch utc_offset fetch imgs path mc bs start st fs)
    as [[r1 fs1] evs1] eqn:Hbatch.
  pose proof (run_batch_fetched _ _ _ _ _ _ _ _ _ _ _ _ Hbatch) as Hb.
  destruct r1 as [st1| |]; [|intros [= <- <- <-]; done..].
  destruct (batch_loop utc_offset fetch rest imgs path mc bs st1 fs1)
    as [[r2 fs2] evs2] eqn:Hrest.
  intros [= <- <- <-] k p att res [Hin|Hin]%elem_of_app; [by eapply Hb|].
  by eapply IH.
Qed.

(** X3. However a run ends, a file differs from what it was only if the
    log holds a fetch of that very path during which the file was opened;
    every path fetched is the planned destination of a record of the
    listing; so a path that is no record's destination is left as it
    was. *)
Theorem export_changes_only_fetched_destinations
    utc_offset env coll path mc bs fs r fs' log :
  export_cmip6_collection_parallel utc_offset env coll path mc bs fs = (r, fs', log) →
  (∀ q, (∀ k att res, Fetched k q att res ∈ log → Open ∉ att) → fs' !! q = fs !! q)
  ∧ (∀ k q att res, Fetched k q att res ∈ log →
       ∃ images img, coll = Some images ∧ images !! k = Some img
                     ∧ plan_path utc_offset path img k = Some q)
  ∧ (∀ q, (∀ images k img, coll = Some images → images !! k = Some img →
             plan_path utc_offset path img k ≠ Some q) →
          fs' !! q = fs !! q).
Proof.
  intros Hrun.
  assert (∀ k q att res, Fetched k q att res ∈ log →
            ∃ images img, coll = Some images ∧ images !! k = Some img
                          ∧ plan_path utc_offset path img k = Some q) as Hplanned.
  { revert Hrun. unfold export_cmip6_collection_parallel, export_with.
    destruct coll as [images|];
      [|by intros [= <- <- <-] k q att res ?%elem_of_nil]. simpl.
    destruct (length images =? 0)%nat;
      [by intros [= <- <- <-] k q att res ?%elem_of_nil|].
    destruct (bs =? 0); [by intros [= <- <- <-] k q att res ?%elem_of_nil|].
    destruct (bs <? 0); [by intros [= <- <- <-] k q att res ?%elem_of_nil|].
    intros Hloop k q att res Hin.
    destruct (batch_loop_fetched _ _ _ _ _ _ _ _ _ _ _ _ Hloop _ _ _ _ Hin)
      as (img & ? & ?). by exists images, img. }
  split_and!; [by eapply export_frame|done|].
  intros q Hq. eapply export_frame; [done|]. intros k att res Hin.
  destruct (Hplanned _ _ _ _ Hin) as (images & img & Hc & Hi & Hp).
  by destruct (Hq images k img Hc Hi).
Qed.

Lemma export_changes_only_fetched_destinations_witness :
  let run := export_cmip6_collection_parallel Sample.utc Sample.env5
               (Some Sample.listing5) "out" 3 2 Sample.fs2 in
  run.1.2 !! "notes.txt" = Sample.fs2 !! "notes.txt".
Proof.
  intros run.
  destruct (export_changes_only_fetched_destinations Sample.utc Sample.env5
              (Some Sample.listing5) "out" 3 2 Sample.fs2 run.1.1 run.1.2 run.2)
    as (_ & _ & H3).
  - vm_compute. reflexivity.
  - apply H3. intros images k img Himages Hk. injection Himages as <-.
    destruct k as [|[|[|[|[|k]]]]]; simpl in Hk; try discriminate Hk;
      injection Hk as <-; vm_compute; discriminate.
Defined.
(** ** One event for each record *)

Lemma batch_loop_indices utc_offset fetch imgs path mc bs n :
  ∀ a st fs st' fs' evs,
  batch_loop utc_offset fetch ((fun j => j * bs)%nat <$> seq a n)
             imgs path mc bs st fs = (Completed st', fs', evs) →
  (0 < bs)%nat → length imgs = total st →
  (a + n = (total st + bs - 1) / bs)%nat →
  indices evs ≡ₚ seq (a * bs) (total st - a * bs).
Proof.
  induction n as [|n IH]; intros a st fs st' fs' evs Hrun Hbs Hlen Hnb.
  { simpl in Hrun. injection Hrun as <- <- <-.
    pose proof (ceil_div_bounds (total st) bs Hbs) as [Hle _].
    assert (total st ≤ a * bs)%nat by (rewrite Nat.add_0_r in Hnb; by rewrite Hnb).
    by replace (total st - a * bs)%nat with 0%nat by lia. }
  pose proof (ceil_div_bounds (total st) bs Hbs) as [Hle Hgt].
  assert (0 < total st)%nat as Hpos.
  { destruct (total st); [|lia]. rewrite Nat.div_small in Hnb; lia. }
  assert (a * bs < total st)%nat as Hstart.
  { specialize (Hgt Hpos).
    assert (a * bs ≤ ((total st + bs - 1) / bs - 1) * bs)%nat
      by (apply Nat.mul_le_mono_r; lia). lia. }
  simpl in Hrun.
  destruct (run_batch utc_offset fetch imgs path mc bs (a * bs) st fs)
    as [[r1 fs1] evs1] eqn:Hbatch.
  destruct (run_batch_counters _ _ _ _ _ _ _ _ _ _ _ _ Hbatch Hlen ltac:(lia))
    as (_ & B2 & B3).
  destruct r1 as [st1| |]; [|done..].
  destruct (B2 _ (or_introl eq_refl)) as (T1 & _).
  destruct (B3 _ eq_refl) as (_ & body & -> & _ & Hperm).
  destruct (batch_loop utc_offset fetch _ imgs path mc bs st1 fs1)
    as [[r2 fs2] evs2] eqn:Hrest.
  injection Hrun as -> <- <-.
  pose proof (IH _ _ _ _ _ _ Hrest Hbs ltac:(congruence) ltac:(rewrite T1; lia))
    as Hrec.
  rewrite T1 in Hrec. rewrite !indices_app, Hperm, Hrec.
  assert (indices (cooldown_of (Nat.min (a * bs + bs) (total st)) (total st)) = [])
    as -> by (unfold cooldown_of; by case_match).
  rewrite app_nil_r.
  destruct (Nat.le_gt_cases (a * bs + bs) (total st)).
  - replace (Nat.min (a * bs + bs) (total st) - a * bs)%nat with bs by lia.
    replace (total st - a * bs)%nat with (bs + (total st - S a * bs))%nat by lia.
    rewrite seq_app. by replace (a * bs + bs)%nat with (S a * bs)%nat by lia.
  - replace (total st - S a * bs)%nat with 0%nat by lia.
    replace (Nat.min (a * bs + bs) (total st)) with (total st) by lia.
    by rewrite app_nil_r.
Qed.

(** X4. In a run that completes with a positive batch size every
    record of the listing has exactly one event, a skip or a fetch: none
    is left out and none is dealt with twice. *)
Theorem one_event_per_record utc_offset fetch images path mc bs fs st fs' log :
  export_with utc_offset fetch (Some images) path mc bs fs = (Completed st, fs', log) →
  0 < bs →
  indices log ≡ₚ seq 0 (length images)
  ∧ NoDup (indices log)
  ∧ (∀ k, (k < length images)%nat →
       (∃ filename size, Skipped k filename size ∈ log)
       ∨ (∃ p att res, Fetched k p att res ∈ log)).
Proof.
  intros Hrun Hbs.
  assert (indices log ≡ₚ seq 0 (length images)) as Hperm.
  { revert Hrun. unfold export_with. simpl.
    destruct (Nat.eqb_spec (length images) 0) as [Hz|Hnz].
    { intros [= <- <- <-]. by rewrite Hz. }
    destruct (Z.eqb_spec bs 0); [lia|]. destruct (Z.ltb_spec bs 0); [lia|].
    unfold py_range. intros Hrun.
    pose proof (batch_loop_indices _ _ _ _ _ _ _ _ _ _ _ _ _ Hrun) as Hind.
    simpl in Hind. rewrite Nat.sub_0_r in Hind. apply Hind; [lia|done|done]. }
  split_and!; [done|rewrite Hperm; apply NoDup_seq|].
  intros k Hk. assert (k ∈ indices log) as Hin.
  { rewrite Hperm. apply elem_of_seq. lia. }
  apply elem_of_indices in Hin as (e & Hin & He).
  destruct e as [|k' f s| |k' p att res| |]; try done; injection He as ->.
  - left. by exists f, s.
  - right. by exists p, att, res.
Qed.

Lemma one_event_per_record_witness :
  let run := export_with Sample.utc (fetch_image Sample.env5)
               (Some Sample.listing5) "out" 3 2 Sample.fs2 in
  indices run.2 ≡ₚ seq 0 5 ∧ NoDup (indices run.2).
Proof.
  intros run.
  destruct (one_event_per_record Sample.utc (fetch_image Sample.env5)
              Sample.listing5 "out" 3 2 Sample.fs2 (Stats 5 4 1) run.1.2 run.2)
    as (H1 & H2 & _).
  - vm_compute. reflexivity.
  - lia.
  - split; [exact H1|exact H2].
Defined.
(** ** A record whose path cannot be planned *)

Lemma prepare_tasks_unplannable utc_offset path start imgs fs :
  ∀ i st r st' evs,
  prepare_tasks utc_offset path start i imgs st fs = (r, st', evs) →
  (∃ j img, imgs !! j = Some img
            ∧ plan_path utc_offset path img (start + i + j) = None) →
  r = None ∧ (accounted st' < accounted st + length imgs)%nat.
Proof.
  induction imgs as [|img rest IH]; intros i st r st' evs Hrun (j & img' & Hj & Hp).
  { done. }
  simpl in Hrun. unfold plan_path in Hp.
  destruct (plan_filename utc_offset img (start + i)) as [filename|] eqn:Hplan.
  2: { injection Hrun as <- <- <-. split; [done|]. simpl. lia. }
  assert (∃ j' img'', rest !! j' = Some img''
            ∧ plan_path utc_offset path img'' (start + S i + j') = None) as Hrest'.
  { destruct j as [|j]; simpl in Hj.
    - injection Hj as <-. rewrite Nat.add_0_r, Hplan in Hp. done.
    - exists j, img'. split; [done|]. unfold plan_path.
      by replace (start + S i + j)%nat with (start + i + S j)%nat by lia. }
  destruct (fs !! PyStr.path_join path filename) as [size|];
    [destruct (1024 <? size)%N|];
    (destruct (prepare_tasks utc_offset path start (S i) rest _ fs)
       as [[r2 st2] evs2] eqn:Hrest);
    injection Hrun as <- <- <-;
    destruct (IH _ _ _ _ _ Hrest Hrest') as [-> Hlt];
    (split; [done|]); unfold accounted in *; simpl in *; lia.
Qed.

Lemma run_batch_unplannable utc_offset fetch imgs path mc bs start st fs r fs' evs k img :
  run_batch utc_offset fetch imgs path mc bs start st fs = (r, fs', evs) →
  length imgs = total st →
  (start ≤ k < Nat.min (start + bs) (total st))%nat →
  imgs !! k = Some img → plan_path utc_offset path img k = None →
  fs' = fs
  ∧ Forall (fun e => is_fetched e = false) evs
  ∧ ∃ st', r = Caught st'
           ∧ (accounted st' < accounted st
                              + (Nat.min (start + bs) (total st) - start))%nat.
Proof.
  intros Hrun Hlen Hk Himg Hp. unfold run_batch in Hrun.
  set (batch_end := Nat.min (start + bs) (total st)) in *.
  destruct (prepare_tasks utc_offset path start 0 (slice imgs start batch_end) st fs)
    as [[tasks st1] evs1] eqn:Hprep.
  destruct (prepare_tasks_indices _ _ _ _ _ _ _ _ _ _ Hprep) as (_ & Q2 & _).
  destruct (prepare_tasks_unplannable _ _ _ _ _ _ _ _ _ _ Hprep) as [-> Hlt].
  { exists (k - start)%nat, img. rewrite lookup_slice by lia.
    replace (start + (k - start))%nat with k by lia.
    replace (start + 0 + (k - start))%nat with k by lia. done. }
  rewrite length_slice in Hlt by (unfold batch_end; lia).
  injection Hrun as <- <- <-. split_and!; [done|by constructor|by exists st1].
Qed.

Lemma run_batch_stopped utc_offset fetch imgs path mc bs start st fs r fs' evs :
  run_batch utc_offset fetch imgs path mc bs start st fs = (r, fs', evs) →
  (∀ st', r ≠ Completed st') →
  fs' = fs ∧ Forall (fun e => is_fetched e = false) evs.
Proof.
  unfold run_batch.
  destruct (prepare_tasks utc_offset path start 0 _ st fs)
    as [[tasks st1] evs1] eqn:Hprep.
  destruct (prepare_tasks_indices _ _ _ _ _ _ _ _ _ _ Hprep) as (_ & Q2 & _).
  destruct tasks as [tasks|]; [|intros [= <- <- <-] _; split; by constructor].
  destruct (mc <? 0); [intros [= <- <- <-] _; split; by constructor|].
  destruct tasks as [|t tasks]; [intros [= <- <- <-] Hn; by destruct (Hn st1)|].
  destruct (mc =? 0); [intros [= <- <- <-] _; split; by constructor|].
  destruct (gather fetch (t :: tasks) fs) as [[results fs1] fetched].
  destruct (count_results st1 results) as [st2 counted].
  intros [= <- <- <-] Hn. by destruct (Hn st2).
Qed.

Lemma batch_loop_unplannable utc_offset fetch imgs path mc bs k img n :
  ∀ a st fs r fs' evs,
  batch_loop utc_offset fetch ((fun j => j * bs)%nat <$> seq a n)
             imgs path mc bs st fs = (r, fs', evs) →
  (0 < bs)%nat → length imgs = total st →
  (a + n = (total st + bs - 1) / bs)%nat →
  accounted st = Nat.min (a * bs) (total st) →
  (a * bs ≤ k)%nat → imgs !! k = Some img →
  plan_path utc_offset path img k = None →
  (∀ st', r ≠ Completed st')
  ∧ (∀ st', r = Caught st' → (accounted st' < total st)%nat)
  ∧ (∀ k' p att res, Fetched k' p att res ∈ evs → (k' < k / bs * bs)%nat).
Proof.
  induction n as [|n IH];
    intros a st fs r fs' evs Hrun Hbs Hlen Hnb Hacc Hak Himg Hp.
  { exfalso. pose proof (ceil_div_bounds (total st) bs Hbs) as [Hle _].
    apply lookup_lt_Some in Himg. rewrite Nat.add_0_r in Hnb. rewrite <- Hnb in Hle.
    lia. }
  pose proof (lookup_lt_Some _ _ _ Himg) as Hklt. rewrite Hlen in Hklt.
  simpl in Hrun.
  destruct (run_batch utc_offset fetch imgs path mc bs (a * bs) st fs)
    as [[r1 fs1] evs1] eqn:Hbatch.
  destruct (run_batch_counters _ _ _ _ _ _ _ _ _ _ _ _ Hbatch Hlen ltac:(lia))
    as (_ & B2 & B3).
  destruct (Nat.lt_ge_cases k (a * bs + bs)) as [Hin|Hout].
  - assert (a * bs ≤ k < Nat.min (a * bs + bs) (total st))%nat as Hrange
      by (clear -Hak Hin Hklt; lia).
    destruct (run_batch_unplannable _ _ _ _ _ _ _ _ _ _ _ _ _ _ Hbatch Hlen
                Hrange Himg Hp) as (-> & Hnf & st1 & -> & Hlt).
    injection Hrun as <- <- <-. split_and!; [done| |].
    + intros st' [= <-]. clear -Hlt Hacc Hak Hklt. lia.
    + intros k' p att res Hf. rewrite Forall_forall in Hnf. by apply Hnf in Hf.
  - assert (S a ≤ k / bs)%nat as Hdiv.
    { apply Nat.div_le_lower_bound; lia. }
    assert (S a * bs ≤ k / bs * bs)%nat as Hbound
      by (by apply Nat.mul_le_mono_r).
    destruct r1 as [st1| |].
    + destruct (B2 _ (or_introl eq_refl)) as (T1 & _).
      destruct (B3 _ eq_refl) as (A1 & body & Hevs1 & _ & Hperm).
      destruct (batch_loop utc_offset fetch _ imgs path mc bs st1 fs1)
        as [[r2 fs2] evs2] eqn:Hrest.
      injection Hrun as <- <- <-.
      destruct (IH _ _ _ _ _ _ Hrest Hbs ltac:(congruence) ltac:(rewrite T1; lia)
                  ltac:(rewrite T1; clear -A1 Hacc Hak Hklt; lia) ltac:(lia) Himg Hp)
        as (I1 & I2 & I3).
      rewrite T1 in I2. split_and!; [done|done|].
      intros k' p att res [Hf|Hf]%elem_of_app; [|by eapply I3].
      assert (k' ∈ indices evs1) as Hi.
      { apply list_elem_of_omap. by exists (Fetched k' p att res). }
      rewrite Hevs1, indices_app, Hperm in Hi.
      assert (indices (cooldown_of (Nat.min (a * bs + bs) (total st)) (total st))
              = []) as Hc by (unfold cooldown_of; by case_match).
      rewrite Hc, app_nil_r, elem_of_seq in Hi. clear -Hi Hbound. lia.
    + destruct (run_batch_stopped _ _ _ _ _ _ _ _ _ _ _ _ Hbatch) as [_ Hnf];
        [done|].
      injection Hrun as <- <- <-. split_and!; [done| |].
      * intros st' [= <-]. destruct (B2 _ (or_intror eq_refl)) as (_ & _ & _ & Hle).
        clear -Hle Hacc Hak Hklt Hout. lia.
      * intros k' p att res Hf. rewrite Forall_forall in Hnf. by apply Hnf in Hf.
    + destruct (run_batch_stopped _ _ _ _ _ _ _ _ _ _ _ _ Hbatch) as [_ Hnf];
        [done|].
      injection Hrun as <- <- <-. split_and!; [done|done|].
      intros k' p att res Hf. rewrite Forall_forall in Hnf. by apply Hnf in Hf.
Qed.

(** X5. When the path of some record cannot be planned (its
    [system:time_start] is not a number, or is out of the range of dates),
    a run with a positive batch size never completes: unless it hangs for
    want of a permit it ends in the handler of line 197, with
    [successful + failed < total]; and no record from the start of that
    record's batch on is fetched, the tasks already made for the batch
    being dropped. *)
Theorem unplannable_record_aborts
    utc_offset fetch images path mc bs fs r fs' log k img :
  export_with utc_offset fetch (Some images) path mc bs fs = (r, fs', log) →
  0 < bs →
  images !! k = Some img → plan_path utc_offset path img k = None →
  (∀ st, r ≠ Completed st)
  ∧ (∀ st, r = Caught st →
       total st = length images ∧ (successful st + failed st < total st)%nat)
  ∧ (mc ≠ 0 → ∃ st, r = Caught st)
  ∧ (∀ k' p att res, Fetched k' p att res ∈ log →
       (k' < k / Z.to_nat bs * Z.to_nat bs)%nat).
Proof.
  intros Hrun Hbs Himg Hp. unfold export_with in Hrun. simpl in Hrun.
  pose proof (lookup_lt_Some _ _ _ Himg) as Hlt.
  destruct (Nat.eqb_spec (length images) 0); [lia|].
  destruct (Z.eqb_spec bs 0); [lia|]. destruct (Z.ltb_spec bs 0); [lia|].
  unfold py_range in Hrun.
  destruct (batch_loop_counters _ _ _ _ _ _ _ _ _ _ _ _ _ Hrun)
    as (_ & L2 & _); simpl; try done; try lia.
  destruct (batch_loop_unplannable _ _ _ _ _ _ k img _ _ _ _ _ _ _ Hrun)
    as (U1 & U2 & U3); simpl; try done; try lia.
  split_and!; [done| |  |done].
  - intros st ->. destruct (L2 _ (or_intror eq_refl)) as (Ht & _).
    specialize (U2 _ eq_refl). unfold accounted in U2. simpl in *.
    split; [done|]. rewrite Ht. done.
  - intros Hmc.
    pose proof (batch_loop_no_hang utc_offset fetch images path mc (Z.to_nat bs)
                  ((fun j => j * Z.to_nat bs)%nat
                     <$> seq 0 ((length images + Z.to_nat bs - 1) / Z.to_nat bs))
                  (Stats (length images) 0 0) fs Hmc) as Hnh.
    simpl in Hnh. rewrite Hrun in Hnh. simpl in Hnh.
    destruct r as [st|st|]; [by destruct (U1 st)|by exists st|done].
Qed.

Lemma unplannable_record_aborts_witness :
  let images := [Sample.image 20200101; Sample.image 20200102; Sample.image 20200103;
                 ImageInfo "d" {[ "system:time_start" := VStr "2020-01-04" ]}] in
  let run := export_with Sample.utc (fetch_image Sample.env_up) (Some images)
               "out" 3 2 Sample.fs2 in
  run.1.1 = Caught (Stats 4 2 0)
  ∧ (∀ st, run.1.1 = Caught st →
       total st = length images ∧ (successful st + failed st < total st)%nat).
Proof.
  intros images run. split; [vm_compute; reflexivity|].
  destruct (unplannable_record_aborts Sample.utc (fetch_image Sample.env_up) images
              "out" 3 2 Sample.fs2 run.1.1 run.1.2 run.2 3
              (ImageInfo "d" {[ "system:time_start" := VStr "2020-01-04" ]}))
    as (_ & H & _).
  - vm_compute. reflexivity.
  - lia.
  - reflexivity.
  - vm_compute. reflexivity.
  - exact H.
Defined.
(** ** Two runs in a row *)

Lemma download_fully e p fs :
  answers_fully e →
  ∃ fs' log,
    download_cmip6_image e p fs = (true, fs', log)
    ∧ complete_file fs' p = true
    ∧ (∀ q, q ≠ p → fs' !! q = fs !! q).
Proof.
  intros (Hprep & n & len & Hn & Hbefore & Hr & Hlen).
  destruct (download_cmip6_image e p fs) as [[b fs'] log] eqn:Hrun.
  assert (succeeds (respond e n) = true) as Hok.
  { rewrite Hr. simpl. apply N.ltb_lt. lia. }
  assert (b = true) as ->.
  { apply (download_result _ _ _ _ _ _ Hrun Hprep). by exists n. }
  exists fs', log. split; [done|].
  destruct (download_files _ _ _ _ _ _ Hrun) as (Hother & _ & _).
  split; [|done].
  destruct (download_success_effect _ _ _ _ _ Hrun)
    as (n' & len' & Hn' & Hbefore' & Hr' & Hlen' & _ & ->).
  assert (n' = n) as ->.
  { destruct (Nat.lt_trichotomy n' n) as [Hlt|[->|Hlt]]; [|done|].
    - specialize (Hbefore n' Hlt). rewrite Hr' in Hbefore. simpl in Hbefore.
      apply N.ltb_ge in Hbefore. lia.
    - rewrite (Hbefore' n Hlt) in Hok. done. }
  rewrite Hr in Hr'. injection Hr' as <-. by apply N.ltb_lt.
Qed.

Lemma complete_file_insert fs p len q :
  (1024 <? len)%N = true → complete_file fs q = true →
  complete_file (<[p := len]> fs) q = true.
Proof.
  intros Hlen Hq. unfold complete_file in *. destruct (decide (p = q)) as [->|Hne].
  - by rewrite lookup_insert_eq.
  - by rewrite lookup_insert_ne.
Qed.

Lemma gather_fully env tasks : ∀ fs results fs' evs,
  (∀ k, answers_fully (env k)) →
  gather (fetch_image env) tasks fs = (results, fs', evs) →
  sum_list_with ev_failed evs = 0%nat
  ∧ (∀ q, complete_file fs q = true → complete_file fs' q = true)
  ∧ (∀ t, t ∈ tasks → complete_file fs' (task_path t) = true).
Proof.
  induction tasks as [|t rest IH]; intros fs results fs' evs Henv.
  { simpl. intros [= <- <- <-]. split_and!; [done|done|].
    by intros t ?%elem_of_nil. }
  simpl. unfold fetch_image at 1.
  destruct (download_fully (env (task_index t)) (task_path t) fs (Henv _))
    as (fs1 & log & -> & Hc & Hother).
  destruct (gather (fetch_image env) rest fs1) as [[results2 fs2] evs2] eqn:Hrest.
  intros [= <- <- <-]. destruct (IH _ _ _ _ Henv Hrest) as (I1 & I2 & I3).
  assert (∀ q, complete_file fs q = true → complete_file fs1 q = true) as Hpres.
  { intros q Hq. destruct (decide (q = task_path t)) as [->|Hne]; [done|].
    unfold complete_file in *. by rewrite Hother. }
  split_and!.
  - simpl. lia.
  - intros q Hq. by apply I2, Hpres.
  - intros t' [->|Hin]%elem_of_cons; [by apply I2|by apply I3].
Qed.

Lemma prepare_tasks_cover utc_offset path start imgs fs : ∀ i st tasks st' evs,
  prepare_tasks utc_offset path start i imgs st fs = (Some tasks, st', evs) →
  ∀ j img, imgs !! j = Some img →
    ∃ p, plan_path utc_offset path img (start + i + j) = Some p
         ∧ (complete_file fs p = true ∨ ∃ t, t ∈ tasks ∧ task_path t = p).
Proof.
  induction imgs as [|img rest IH]; intros i st tasks st' evs Hrun j img' Hj.
  { done. }
  simpl in Hrun. unfold plan_path.
  destruct (plan_filename utc_offset img (start + i)) as [filename|] eqn:Hplan;
    [|done].
  assert (∀ tasks2 st0 st2 evs2,
            prepare_tasks utc_offset path start (S i) rest st0 fs
            = (Some tasks2, st2, evs2) →
            ∀ j, rest !! j = Some img' →
              ∃ p, plan_path utc_offset path img' (start + i + S j) = Some p
                   ∧ (complete_file fs p = true
                      ∨ ∃ t, t ∈ tasks2 ∧ task_path t = p)) as Hshift.
  { intros tasks2 st0 st2 evs2 Hr j0 Hj0.
    replace (start + i + S j0)%nat with (start + S i + j0)%nat by lia.
    by eapply IH. }
  unfold complete_file.
  destruct (fs !! PyStr.path_join path filename) as [size|] eqn:Hfs;
    [destruct (1024 <? size)%N eqn:Hbig|];
    (destruct (prepare_tasks utc_offset path start (S i) rest _ fs)
       as [[[tasks2|] st2] evs2] eqn:Hrest; [|done]);
    injection Hrun as <- <- <-; destruct j as [|j]; simpl in Hj.
  - injection Hj as <-. rewrite Nat.add_0_r, Hplan. eexists. split; [done|].
    left. by rewrite Hfs.
  - destruct (Hshift _ _ _ _ Hrest j Hj) as (p & Hp & Hcase). unfold plan_path in Hp.
    exists p. split; [done|]. done.
  - injection Hj as <-. rewrite Nat.add_0_r, Hplan. eexists. split; [done|].
    right. eexists. split; [apply elem_of_cons; left; done|done].
  - destruct (Hshift _ _ _ _ Hrest j Hj) as (p & Hp & [Hc|(t & Ht & Htp)]).
    + exists p. split; [done|]. by left.
    + exists p. split; [done|]. right. exists t. split; [|done].
      apply elem_of_cons. auto.
  - injection Hj as <-. rewrite Nat.add_0_r, Hplan. eexists. split; [done|].
    right. eexists. split; [apply elem_of_cons; left; done|done].
  - destruct (Hshift _ _ _ _ Hrest j Hj) as (p & Hp & [Hc|(t & Ht & Htp)]).
    + exists p. split; [done|]. by left.
    + exists p. split; [done|]. right. exists t. split; [|done].
      apply elem_of_cons. auto.
Qed.

Lemma run_batch_completed utc_offset fetch imgs path mc bs start st fs st' fs' evs :
  run_batch utc_offset fetch imgs path mc bs start st fs = (Completed st', fs', evs) →
  ∃ tasks st1 evs1 results fetched,
    prepare_tasks utc_offset path start 0
      (slice imgs start (Nat.min (start + bs) (total st))) st fs
    = (Some tasks, st1, evs1)
    ∧ gather fetch tasks fs = (results, fs', fetched)
    ∧ sum_list_with ev_failed evs = sum_list_with ev_failed fetched
    ∧ total st' = total st.
Proof.
  unfold run_batch.
  destruct (prepare_tasks utc_offset path start 0 _ st fs)
    as [[tasks st1] evs1] eqn:Hprep.
  destruct (prepare_tasks_counters _ fetch _ _ _ _ _ _ _ _ _ Hprep)
    as (P1 & _ & _ & P4 & _).
  destruct tasks as [tasks|]; [|by intros [=]].
  destruct (mc <? 0); [by intros [=]|].
  assert (∀ b e, sum_list_with ev_failed (cooldown_of b e) = 0%nat) as Hcool
    by (intros; unfold cooldown_of; by case_match).
  destruct tasks as [|t tasks].
  { intros [= <- <- <-]. exists [], st1, evs1, [], []. split_and!; try done.
    fold (cooldown_of (Nat.min (start + bs) (total st)) (total st)).
    simpl. by rewrite sum_list_with_app', P4, Hcool. }
  destruct (Z.eqb_spec mc 0); [by intros [=]|].
  destruct (gather fetch (t :: tasks) fs) as [[results fs1] fetched] eqn:Hg.
  destruct (count_results st1 results) as [st2 counted] eqn:Hc.
  destruct (count_results_counters _ _ _ _ Hc) as (K1 & _ & _ & _ & _ & _ & K7 & _).
  intros [= <- <- <-]. exists (t :: tasks), st1, evs1, results, fetched.
  split_and!; try done; [|congruence].
  fold (cooldown_of (Nat.min (start + bs) (total st)) (total st)).
  simpl. rewrite !sum_list_with_app', P4, K7, Hcool. lia.
Qed.

Lemma run_batch_fully utc_offset env imgs path mc bs start st fs st' fs' evs :
  (∀ k, answers_fully (env k)) →
  run_batch utc_offset (fetch_image env) imgs path mc bs start st fs
  = (Completed st', fs', evs) →
  sum_list_with ev_failed evs = 0%nat
  ∧ total st' = total st
  ∧ (∀ q, complete_file fs q = true → complete_file fs' q = true)
  ∧ (∀ k img, (start ≤ k < start + bs)%nat → (k < total st)%nat →
       imgs !! k = Some img →
       ∃ p, plan_path utc_offset path img k = Some p ∧ complete_file fs' p = true).
Proof.
  intros Henv Hrun.
  destruct (run_batch_completed _ _ _ _ _ _ _ _ _ _ _ _ Hrun)
    as (tasks & st1 & evs1 & results & fetched & Hprep & Hg & Hsum & Htot).
  destruct (gather_fully _ _ _ _ _ _ Henv Hg) as (G1 & G2 & G3).
  split_and!; [congruence|done|done|].
  intros k img Hk Hlt Himg.
  destruct (prepare_tasks_cover _ _ _ _ _ _ _ _ _ _ Hprep (k - start)%nat img)
    as (p & Hp & Hcase).
  { rewrite lookup_slice by lia. by replace (start + (k - start))%nat with k by lia. }
  replace (start + 0 + (k - start))%nat with k in Hp by lia.
  exists p. split; [done|]. destruct Hcase as [Hc|(t & Ht & <-)]; auto.
Qed.

Lemma batch_loop_fully utc_offset env imgs path mc bs starts :
  ∀ st fs st' fs' evs,
  (∀ k, answers_fully (env k)) →
  batch_loop utc_offset (fetch_image env) starts imgs path mc bs st fs
  = (Completed st', fs', evs) →
  sum_list_with ev_failed evs = 0%nat
  ∧ (∀ q, complete_file fs q = true → complete_file fs' q = true)
  ∧ (∀ start k img, start ∈ starts →
       (start ≤ k < start + bs)%nat → (k < total st)%nat →
       imgs !! k = Some img →
       ∃ p, plan_path utc_offset path img k = Some p ∧ complete_file fs' p = true).
Proof.
  induction starts as [|start rest IH]; intros st fs st' fs' evs Henv.
  { simpl. intros [= <- <- <-]. split_and!; [done|done|].
    by intros ? ? ? ?%elem_of_nil. }
  simpl.
  destruct (run_batch utc_offset (fetch_image env) imgs path mc bs start st fs)
    as [[r fs1] evs1] eqn:Hb.
  destruct r as [st1| |]; [|by intros [=]..].
  destruct (batch_loop utc_offset (fetch_image env) rest imgs path mc bs st1 fs1)
    as [[r2 fs2] evs2] eqn:Hl.
  intros [= -> <- <-].
  destruct (run_batch_fully _ _ _ _ _ _ _ _ _ _ _ _ Henv Hb) as (B1 & B2 & B3 & B4).
  destruct (IH _ _ _ _ _ Henv Hl) as (L1 & L2 & L3).
  split_and!.
  - rewrite sum_list_with_app'. lia.
  - auto.
  - intros s k img [->|Hin]%elem_of_cons Hk Hlt Himg.
    + destruct (B4 k img Hk Hlt Himg) as (p & Hp & Hc). exists p. auto.
    + apply (L3 s k img Hin Hk); [lia|done].
Qed.

Lemma elem_of_py_range n b k :
  (0 < b)%nat → (k < n)%nat → (k / b * b)%nat ∈ py_range n b.
Proof.
  intros Hb Hk. unfold py_range.
  apply (list_elem_of_fmap_2 (fun j => j * b)%nat). apply elem_of_seq.
  destruct (ceil_div_bounds n b Hb) as [Hle _].
  pose proof (Nat.div_mod k b ltac:(lia)) as Hdm.
  pose proof (Nat.mod_upper_bound k b ltac:(lia)) as Hm.
  split; [lia|]. simpl.
  destruct (Nat.lt_ge_cases (k / b) ((n + b - 1) / b)) as [|Hge]; [done|].
  assert ((n + b - 1) / b * b ≤ k / b * b)%nat by (by apply Nat.mul_le_mono_r).
  nia.
Qed.

Lemma export_fully utc_offset env images path mc bs fs st fs' log :
  (∀ k, answers_fully (env k)) → 0 < bs →
  export_with utc_offset (fetch_image env) (Some images) path mc bs fs
  = (Completed st, fs', log) →
  st = Stats (length images) (length images) 0
  ∧ (∀ q, complete_file fs q = true → complete_file fs' q = true)
  ∧ (∀ k img, images !! k = Some img →
       ∃ p, plan_path utc_offset path img k = Some p ∧ complete_file fs' p = true).
Proof.
  intros Henv Hbs Hrun.
  destruct (export_with_counters _ _ _ _ _ _ _ _ _ _ Hrun) as (_ & C2 & C3 & _).
  destruct (C2 st (or_introl eq_refl)) as (_ & _ & Hf).
  destruct (C3 images st eq_refl eq_refl Hbs) as (Ht & Hsum).
  revert Hrun. unfold export_with. simpl.
  destruct (Nat.eqb_spec (length images) 0) as [Hz|Hnz].
  { intros [= <- <- <-]. apply length_zero_iff_nil in Hz as ->. done. }
  destruct (Z.eqb_spec bs 0); [lia|]. destruct (Z.ltb_spec bs 0); [lia|].
  intros Hloop. destruct (batch_loop_fully _ _ _ _ _ _ _ _ _ _ _ _ Henv Hloop)
    as (L1 & L2 & L3).
  split_and!.
  - destruct st as [t s f]. simpl in *. f_equal; lia.
  - done.
  - intros k img Himg. pose proof (lookup_lt_Some _ _ _ Himg) as Hlt.
    assert (0 < Z.to_nat bs)%nat as Hb by lia.
    pose proof (Nat.div_mod k (Z.to_nat bs) ltac:(lia)) as Hdm.
    pose proof (Nat.mod_upper_bound k (Z.to_nat bs) ltac:(lia)) as Hm.
    apply (L3 (k / Z.to_nat bs * Z.to_nat bs)%nat k img).
    + by apply elem_of_py_range.
    + lia.
    + done.
    + done.
Qed.

Lemma export_all_complete utc_offset fetch images path mc bs fs :
  0 < bs → 0 ≤ mc →
  (∀ k img, images !! k = Some img →
     ∃ p, plan_path utc_offset path img k = Some p ∧ complete_file fs p = true) →
  ∃ log,
    export_with utc_offset fetch (Some images) path mc bs fs
    = (Completed (Stats (length images) (length images) 0), fs, log)
    ∧ Forall (fun e => is_fetched e = false) log.
Proof.
  intros Hbs Hmc Hall.
  destruct (export_with utc_offset fetch (Some images) path mc bs fs)
    as [[r fs'] log] eqn:Hrun.
  destruct (export_with_counters _ _ _ _ _ _ _ _ _ _ Hrun) as (_ & C2 & C3 & _).
  revert Hrun. unfold export_with. simpl.
  destruct (Nat.eqb_spec (length images) 0) as [Hz|Hnz].
  { intros [= <- <- <-]. exists []. by rewrite Hz. }
  destruct (Z.eqb_spec bs 0); [lia|]. destruct (Z.ltb_spec bs 0); [lia|].
  edestruct (batch_loop_all_complete utc_offset fetch images path mc
               (Z.to_nat bs) fs) as (st' & evs & -> & Hev); [done..|].
  intros [= <- <- <-]. exists evs. split; [|done].
  destruct (C2 st' (or_introl eq_refl)) as (_ & _ & Hf).
  destruct (C3 images st' eq_refl eq_refl Hbs) as (Ht & Hsum).
  rewrite unfetched_no_failure in Hf by done.
  destruct st' as [t s f]. simpl in *. repeat f_equal; lia.
Qed.

(** X6. Against a service whose first successful answer to every record
    carries more than 1024 bytes, with every path plannable, a positive
    batch size and at least one permit, a first run completes with every
    record successful and leaves every destination complete; a second run
    over what it left, whatever the service then answers, completes with
    the same counters, makes no fetch and changes no file. *)
Theorem second_run_is_idle utc_offset env env' images path mc bs fs :
  0 < bs → 0 < mc →
  (∀ k, answers_fully (env k)) →
  (∀ k img, images !! k = Some img →
     is_Some (plan_path utc_offset path img k)) →
  ∃ fs1 log1 log2,
    export_cmip6_collection_parallel utc_offset env (Some images) path mc bs fs
    = (Completed (Stats (length images) (length images) 0), fs1, log1)
    ∧ (∀ q, complete_file fs q = true → complete_file fs1 q = true)
    ∧ export_cmip6_collection_parallel utc_offset env' (Some images) path mc bs fs1
      = (Completed (Stats (length images) (length images) 0), fs1, log2)
    ∧ Forall (fun e => is_fetched e = false) log2.
Proof.
  intros Hbs Hmc Henv Hplan. unfold export_cmip6_collection_parallel.
  destruct (export_with_total utc_offset (fetch_image env) images path mc bs fs
              Hmc Hbs Hplan) as (st1 & fs1 & log1 & Hrun1).
  destruct (export_fully _ _ _ _ _ _ _ _ _ _ Henv Hbs Hrun1) as (-> & Hpres & Hall).
  destruct (export_all_complete utc_offset (fetch_image env') images path mc bs fs1)
    as (log2 & Hrun2 & Hidle); [done|lia|done|].
  by exists fs1, log1, log2.
Qed.

Lemma second_run_is_idle_witness :
  ∃ fs1 log1 log2,
    export_cmip6_collection_parallel Sample.utc Sample.env_up
      (Some Sample.listing5) "out" 2 2 ∅
    = (Completed (Stats 5 5 0), fs1, log1)
    ∧ (∀ q, complete_file (∅ : filesystem) q = true → complete_file fs1 q = true)
    ∧ export_cmip6_collection_parallel Sample.utc Sample.env_down
        (Some Sample.listing5) "out" 2 2 fs1
      = (Completed (Stats 5 5 0), fs1, log2)
    ∧ Forall (fun e => is_fetched e = false) log2.
Proof.
  apply (second_run_is_idle Sample.utc Sample.env_up Sample.env_down
           Sample.listing5 "out" 2 2 ∅); [lia|lia| |].
  - intros k. split; [reflexivity|].
    exists 0%nat, 2000%N. split_and!; [lia|lia|reflexivity|reflexivity].
  - intros k img Hk.
    assert (k < 5)%nat as Hlt by (apply lookup_lt_Some in Hk; exact Hk).
    do 5 (destruct k as [|k]; [injection Hk as <-; vm_compute; eauto|]). lia.
Defined.
(** ** The variables the driver processes *)

Lemma dict_get_Some {V} k (v : V) d : dict_get k d = Some v → (k, v) ∈ d.
Proof.
  induction d as [|[k' v'] d IH]; [done|]. simpl.
  destruct (String.eqb_spec k' k) as [->|Hne].
  - intros [= ->]. apply elem_of_cons. auto.
  - intros H. apply elem_of_cons. auto.
Qed.

Lemma dict_get_None {V} k (d : list (string * V)) :
  dict_get k d = None ↔ k ∉ d.*1.
Proof.
  induction d as [|[k' v'] d IH]; [by split; [intros _ ?%elem_of_nil|]|].
  simpl. rewrite not_elem_of_cons.
  destruct (String.eqb_spec k' k) as [->|Hne].
  - split; [done|]. by intros [? _].
  - rewrite IH. split; [by intros ?; split|]. by intros [_ ?].
Qed.

Lemma elem_of_dict_set {V} k (v : V) d x :
  x ∈ dict_set k v d → x = (k, v) ∨ x ∈ d.
Proof.
  induction d as [|[k' v'] d IH]; simpl.
  { intros ->%list_elem_of_singleton. auto. }
  destruct (String.eqb k' k).
  - intros [->|Hin]%elem_of_cons; [auto|]. right. apply elem_of_cons. auto.
  - intros [->|Hin]%elem_of_cons.
    + right. apply elem_of_cons. auto.
    + destruct (IH Hin) as [?|?]; [auto|]. right. apply elem_of_cons. auto.
Qed.

Lemma filter_bands_values variables : ∀ filtered,
  (∀ x, x ∈ filtered → x ∈ cmip6_bands) →
  ∀ x, x ∈ filter_bands variables filtered → x ∈ cmip6_bands.
Proof.
  induction variables as [|var rest IH]; intros filtered Hf; [done|].
  cbn [filter_bands].
  destruct (dict_get var cmip6_bands) as [name|] eqn:Hget; [|by apply IH].
  apply IH. intros x [->|Hx]%elem_of_dict_set; [|by apply Hf].
  by apply dict_get_Some.
Qed.

Lemma filter_bands_keys variables : ∀ filtered,
  ∃ added,
    (filter_bands variables filtered).*1 = filtered.*1 ++ added
    ∧ added `sublist_of` variables
    ∧ (∀ k, k ∈ variables → k ∈ cmip6_bands.*1 →
         k ∈ (filter_bands variables filtered).*1).
Proof.
  induction variables as [|var rest IH]; intros filtered.
  { exists []. split_and!; [by rewrite app_nil_r|done|]. by intros k ?%elem_of_nil. }
  cbn [filter_bands].
  destruct (dict_get var cmip6_bands) as [name|] eqn:Hget.
  - destruct (IH (dict_set var name filtered)) as (added & Hk & Hs & Hin).
    rewrite dict_set_keys in Hk.
    assert (var ∈ (filter_bands rest (dict_set var name filtered)).*1) as Hvar.
    { rewrite Hk. case_decide; rewrite !elem_of_app; [auto|].
      left. right. by apply list_elem_of_singleton. }
    destruct (decide (var ∈ filtered.*1)).
    + exists added. split_and!; [done|by apply sublist_cons|].
      intros k [->|Hr]%elem_of_cons Hc; [done|by apply Hin].
    + exists (var :: added). split_and!.
      * by rewrite Hk, <- app_assoc.
      * by apply sublist_skip.
      * intros k [->|Hr]%elem_of_cons Hc; [done|by apply Hin].
  - destruct (IH filtered) as (added & Hk & Hs & Hin).
    exists added. split_and!; [done|by apply sublist_cons|].
    intros k [->|Hr]%elem_of_cons Hc; [|by apply Hin].
    by apply dict_get_None in Hget.
Qed.

Lemma filter_bands_unrecognised variables : ∀ filtered,
  (∀ k, k ∈ variables → k ∉ cmip6_bands.*1) →
  filter_bands variables filtered = filtered.
Proof.
  induction variables as [|var rest IH]; intros filtered Hnone; [done|].
  cbn [filter_bands].
  assert (dict_get var cmip6_bands = None) as ->.
  { apply dict_get_None, Hnone, elem_of_cons. auto. }
  apply IH. intros k Hk. apply Hnone, elem_of_cons. auto.
Qed.

(** X7. The table the driver iterates over holds each variable once, with
    its name from the table of line 222. When the request names at least
    one variable of that table, the variables processed are those of the
    request that the table has, duplicates and unknown names dropped, in
    the order of the request; when the request is absent, empty or names
    none, they are the five of the table. *)
Theorem requested_variables variables :
  NoDup (select_bands variables).*1
  ∧ (∀ x, x ∈ select_bands variables → x ∈ cmip6_bands)
  ∧ (∀ vars, variables = Some vars →
       (∃ k, k ∈ vars ∧ k ∈ cmip6_bands.*1) →
       (∀ k, k ∈ (select_bands variables).*1 ↔ k ∈ vars ∧ k ∈ cmip6_bands.*1)
       ∧ (select_bands variables).*1 `sublist_of` vars)
  ∧ ((∀ vars, variables = Some vars → ∀ k, k ∈ vars → k ∉ cmip6_bands.*1) →
     select_bands variables = cmip6_bands).
Proof.
  split_and!.
  - apply select_bands_nodup.
  - intros x. unfold select_bands. destruct variables as [[|var rest]|]; [done| |done].
    pose proof (filter_bands_values (var :: rest) [] ltac:(by intros ? ?%elem_of_nil) x)
      as Hv.
    by destruct (filter_bands (var :: rest) []).
  - intros vars -> (k0 & Hk0 & Hc0). unfold select_bands.
    destruct vars as [|var rest]; [by apply elem_of_nil in Hk0|].
    destruct (filter_bands_keys (var :: rest) []) as (added & Hk & Hs & Hin).
    pose proof (filter_bands_values (var :: rest) []
                  ltac:(by intros ? ?%elem_of_nil)) as Hv.
    rewrite fmap_nil, app_nil_l in Hk.
    destruct (filter_bands (var :: rest) []) as [|b bs] eqn:Hf.
    { specialize (Hin k0 Hk0 Hc0). by apply elem_of_nil in Hin. }
    split; [|by rewrite Hk].
    intros k. split.
    + intros Hk'. split.
      * rewrite Hk in Hk'. by eapply elem_of_sublist.
      * apply list_elem_of_fmap in Hk' as ([k' v] & -> & Hx).
        apply list_elem_of_fmap. exists (k', v). split; [done|]. by apply Hv.
    + intros [? ?]. by apply Hin.
  - intros Hnone. unfold select_bands. destruct variables as [[|var rest]|]; [done| |done].
    by rewrite filter_bands_unrecognised by (by apply Hnone).
Qed.
(** ** What the driver does for each variable *)

Lemma export_unplanned_frame utc_offset env coll path mc bs fs r fs' log :
  export_cmip6_collection_parallel utc_offset env coll path mc bs fs = (r, fs', log) →
  ∀ q, (∀ images k img, coll = Some images → images !! k = Some img →
          plan_path utc_offset path img k ≠ Some q) →
       fs' !! q = fs !! q.
Proof.
  intros Hrun q Hq. eapply export_frame; [done|]. intros k att res Hin.
  exfalso. revert Hrun Hin. unfold export_cmip6_collection_parallel, export_with.
  destruct coll as [images|]; [|by intros [= <- <- <-] ?%elem_of_nil]. simpl.
  destruct (length images =? 0)%nat; [by intros [= <- <- <-] ?%elem_of_nil|].
  destruct (bs =? 0); [by intros [= <- <- <-] ?%elem_of_nil|].
  destruct (bs <? 0); [by intros [= <- <- <-] ?%elem_of_nil|].
  intros Hloop Hin.
  destruct (batch_loop_fetched _ _ _ _ _ _ _ _ _ _ _ _ Hloop _ _ _ _ Hin)
    as (img & Hi & Hp).
  by apply (Hq images k img).
Qed.

Lemma variable_loop_step utc_offset env v name rest home mc all_stats fs res fs' log :
  variable_loop utc_offset env ((v, name) :: rest) home mc all_stats fs
  = Some (res, fs', log) →
  ∃ st fs1 evs log',
    variable_loop utc_offset env rest home mc (<[v := st]> all_stats) fs1
    = Some (res, fs', log')
    ∧ log = evs ++ log'
    ∧ (successful st + failed st ≤ total st)%nat
    ∧ exported evs = (if runs_export (env v) then [v] else [])
    ∧ variable_sleeps evs = (if no_images (env v) then [] else [2%N])
    ∧ (∀ q, (∀ images k img,
               runs_export (env v) = true → features (env v) = Some images →
               images !! k = Some img →
               plan_path utc_offset (PyStr.path_join home v) img k ≠ Some q) →
            fs1 !! q = fs !! q).
Proof.
  cbn [variable_loop].
  assert (∀ st fs1 evs,
    (successful st + failed st ≤ total st)%nat →
    exported evs = (if runs_export (env v) then [v] else []) →
    variable_sleeps evs = (if no_images (env v) then [] else [2%N]) →
    (∀ q, (∀ images k img,
               runs_export (env v) = true → features (env v) = Some images →
               images !! k = Some img →
               plan_path utc_offset (PyStr.path_join home v) img k ≠ Some q) →
            fs1 !! q = fs !! q) →
    match variable_loop utc_offset env rest home mc (<[v := st]> all_stats) fs1 with
    | Some (all_stats', fs'', evs') => Some (all_stats', fs'', evs ++ evs')
    | None => None
    end = Some (res, fs', log) →
    ∃ st fs1 evs log',
      variable_loop utc_offset env rest home mc (<[v := st]> all_stats) fs1
      = Some (res, fs', log')
      ∧ log = evs ++ log'
      ∧ (successful st + failed st ≤ total st)%nat
      ∧ exported evs = (if runs_export (env v) then [v] else [])
      ∧ variable_sleeps evs = (if no_images (env v) then [] else [2%N])
      ∧ (∀ q, (∀ images k img,
                 runs_export (env v) = true → features (env v) = Some images →
                 images !! k = Some img →
                 plan_path utc_offset (PyStr.path_join home v) img k ≠ Some q) →
              fs1 !! q = fs !! q)) as Hnext.
  { intros st fs1 evs H1 H2 H3 H4.
    destruct (variable_loop utc_offset env rest home mc (<[v := st]> all_stats) fs1)
      as [[[a f] l]|] eqn:Hl; [|done].
    intros [= <- <- <-]. exists st, fs1, evs, l. split_and!; done. }
  destruct (size_info (env v)) as [count|] eqn:Hsize.
  2: { apply Hnext; try unfold runs_export; try unfold no_images; rewrite ?Hsize; done. }
  destruct (Nat.eqb_spec count 0) as [->|Hc].
  { apply Hnext; try unfold runs_export; try unfold no_images; rewrite ?Hsize; done. }
  assert ((count =? 0)%nat = false) as Hcz by (by apply Nat.eqb_neq).
  destruct (makedirs_ok (env v)) eqn:Hmk; simpl negb; cbv iota.
  2: { apply Hnext; try unfold runs_export; try unfold no_images; rewrite ?Hsize, ?Hmk, ?Hcz; done. }
  destruct (loop_status (env v)) eqn:Hloop.
  - apply Hnext; try unfold runs_export; try unfold no_images;
      rewrite ?Hsize, ?Hmk, ?Hcz, ?Hloop; done.
  - apply Hnext; try unfold runs_export; try unfold no_images;
      rewrite ?Hsize, ?Hmk, ?Hcz, ?Hloop; simpl; [lia|done..].
  - destruct (export_cmip6_collection_parallel utc_offset (task_envs (env v))
                (features (env v)) (PyStr.path_join home v) mc 10 fs)
      as [[r fs1] elog] eqn:Hrun.
    pose proof (export_unplanned_frame _ _ _ _ _ _ _ _ _ _ Hrun) as Hframe.
    destruct (export_with_counters _ _ _ _ _ _ _ _ _ _ Hrun) as (_ & C2 & _).
    destruct r as [st|st|]; [| |done].
    + apply Hnext; try unfold runs_export; try unfold no_images;
        rewrite ?Hsize, ?Hmk, ?Hcz, ?Hloop; [by apply (C2 st); left|done|done|].
      intros q Hq. apply Hframe. intros images k img Hf. by apply Hq.
    + apply Hnext; try unfold runs_export; try unfold no_images;
        rewrite ?Hsize, ?Hmk, ?Hcz, ?Hloop; [by apply (C2 st); right|done|done|].
      intros q Hq. apply Hframe. intros images k img Hf. by apply Hq.
Qed.

Lemma exported_app l1 l2 : exported (l1 ++ l2) = exported l1 ++ exported l2.
Proof. apply omap_app. Qed.

Lemma variable_sleeps_app l1 l2 :
  variable_sleeps (l1 ++ l2) = variable_sleeps l1 ++ variable_sleeps l2.
Proof. apply omap_app. Qed.

Lemma variable_loop_log utc_offset env home mc bands : ∀ all_stats fs res fs' log,
  variable_loop utc_offset env bands home mc all_stats fs = Some (res, fs', log) →
  exported log = List.filter (fun v => runs_export (env v)) bands.*1
  ∧ variable_sleeps log
    = (fun _ => 2%N) <$> List.filter (fun v => negb (no_images (env v))) bands.*1.
Proof.
  induction bands as [|[v name] rest IH]; intros all_stats fs res fs' log Hrun.
  { by injection Hrun as <- <- <-. }
  destruct (variable_loop_step _ _ _ _ _ _ _ _ _ _ _ _ Hrun)
    as (st & fs1 & evs & log' & Hrest & -> & _ & He & Hs & _).
  destruct (IH _ _ _ _ _ Hrest) as [IH1 IH2].
  rewrite exported_app, variable_sleeps_app, He, Hs, IH1, IH2.
  rewrite fmap_cons. cbn [List.filter fst].
  split; [by destruct (runs_export (env v))|by destruct (no_images (env v))].
Qed.

(** X8. In a call of the driver that returns, the exports started are
    those of the selected variables whose size query answers a count other
    than 0, whose directory is made and whose loop runs, in the order of
    the table and once each; and a pause of two seconds follows every
    selected variable, the last one too, but not one whose count is 0,
    which [continue] takes past it. *)
Theorem driver_exports_and_pauses utc_offset env variables home mc fs res fs' log :
  getCMIP6_async utc_offset env variables home mc fs = Some (res, fs', log) →
  exported log
  = List.filter (fun v => runs_export (env v)) (select_bands variables).*1
  ∧ variable_sleeps log
    = (fun _ => 2%N)
        <$> List.filter (fun v => negb (no_images (env v))) (select_bands variables).*1.
Proof. apply variable_loop_log. Qed.

Lemma driver_exports_and_pauses_witness :
  ∃ res fs' log,
    getCMIP6_async Sample.utc sample_variable_env
      (Some ["tas"; "pr"; "tasmax"]) "out" 3 ∅ = Some (res, fs', log)
    ∧ exported log = ["tas"]
    ∧ variable_sleeps log = [2%N; 2%N].
Proof.
  destruct (getCMIP6_async Sample.utc sample_variable_env
              (Some ["tas"; "pr"; "tasmax"]) "out" 3 ∅)
    as [[[res fs'] log]|] eqn:Hrun; [|vm_compute in Hrun; discriminate Hrun].
  exists res, fs', log. split; [reflexivity|].
  destruct (driver_exports_and_pauses _ _ _ _ _ _ _ _ _ Hrun) as [He Hs].
  rewrite He, Hs. vm_compute. split; reflexivity.
Defined.

Lemma variable_loop_frame utc_offset env home mc bands : ∀ all_stats fs res fs' log,
  variable_loop utc_offset env bands home mc all_stats fs = Some (res, fs', log) →
  ∀ q, (∀ v images k img,
          v ∈ bands.*1 → runs_export (env v) = true →
          features (env v) = Some images → images !! k = Some img →
          plan_path utc_offset (PyStr.path_join home v) img k ≠ Some q) →
       fs' !! q = fs !! q.
Proof.
  induction bands as [|[v name] rest IH]; intros all_stats fs res fs' log Hrun q Hq.
  { by injection Hrun as <- <- <-. }
  destruct (variable_loop_step _ _ _ _ _ _ _ _ _ _ _ _ Hrun)
    as (st & fs1 & evs & log' & Hrest & -> & _ & _ & _ & Hframe).
  rewrite (IH _ _ _ _ _ Hrest q).
  - apply Hframe. intros images k img. apply Hq. rewrite fmap_cons.
    apply elem_of_cons. auto.
  - intros v' images k img Hin. apply Hq. rewrite fmap_cons.
    apply elem_of_cons. auto.
Qed.

(** X9. A call of the driver that returns leaves every file as it was
    unless its path is the planned destination, under the directory
    [home/var_code], of a record of the listing of a selected variable
    whose export was started. *)
Theorem driver_changes_only_destinations
    utc_offset env variables home mc fs res fs' log q :
  getCMIP6_async utc_offset env variables home mc fs = Some (res, fs', log) →
  (∀ v images k img,
     v ∈ (select_bands variables).*1 → runs_export (env v) = true →
     features (env v) = Some images → images !! k = Some img →
     plan_path utc_offset (PyStr.path_join home v) img k ≠ Some q) →
  fs' !! q = fs !! q.
Proof.
  intros Hrun Hq. eapply variable_loop_frame; [exact Hrun|exact Hq].
Qed.

Lemma driver_changes_only_destinations_witness :
  ∃ res fs' log,
    getCMIP6_async Sample.utc sample_variable_env (Some ["tas"]) "out" 3 Sample.fs2
    = Some (res, fs', log)
    ∧ fs' !! "notes.txt" = Sample.fs2 !! "notes.txt".
Proof.
  destruct (getCMIP6_async Sample.utc sample_variable_env (Some ["tas"]) "out" 3
              Sample.fs2)
    as [[[res fs'] log]|] eqn:Hrun; [|vm_compute in Hrun; discriminate Hrun].
  exists res, fs', log. split; [reflexivity|].
  apply (driver_changes_only_destinations _ _ _ _ _ _ _ _ _ _ Hrun).
  intros v images k img Hv _ Hf Hk.
  assert (v = "tas") as ->.
  { vm_compute in Hv. apply list_elem_of_singleton in Hv. exact Hv. }
  vm_compute in Hf. injection Hf as <-.
  destruct k as [|[|[|[|[|k]]]]]; simpl in Hk; try discriminate Hk;
    injection Hk as <-; vm_compute; discriminate.
Defined.

Lemma variable_loop_bounded utc_offset env home mc bands : ∀ all_stats fs res fs' log,
  variable_loop utc_offset env bands home mc all_stats fs = Some (res, fs', log) →
  map_Forall (fun _ st => (successful st + failed st ≤ total st)%nat) all_stats →
  map_Forall (fun _ st => (successful st + failed st ≤ total st)%nat) res.
Proof.
  induction bands as [|[v name] rest IH]; intros all_stats fs res fs' log Hrun Hall.
  { by injection Hrun as <- <- <-. }
  destruct (variable_loop_step _ _ _ _ _ _ _ _ _ _ _ _ Hrun)
    as (st & fs1 & evs & log' & Hrest & -> & Hst & _).
  apply (IH _ _ _ _ _ Hrest). by apply map_Forall_insert_2.
Qed.

Lemma summary_bounded (all_stats : gmap string stats) :
  map_Forall (fun _ st => (successful st + failed st ≤ total st)%nat) all_stats →
  ((summary all_stats).1.1 + (summary all_stats).1.2 ≤ (summary all_stats).2)%nat.
Proof.
  intros Hall. unfold summary. simpl.
  apply map_Forall_to_list in Hall.
  induction Hall as [|[k st] l Hst _ IH]; [done|].
  rewrite fmap_cons. simpl in *. lia.
Qed.

(** X10. In a call of the driver that returns, every entry of the result
    has [successful + failed <= total], the entry of line 311 included, and
    so have the sums of the summary of lines 326-338: the files counted as
    downloaded and as failed never exceed the files counted in all. *)
Theorem driver_summary_bounded utc_offset env variables home mc fs res fs' log :
  getCMIP6_async utc_offset env variables home mc fs = Some (res, fs', log) →
  (∀ v st, res !! v = Some st → (successful st + failed st ≤ total st)%nat)
  ∧ ((summary res).1.1 + (summary res).1.2 ≤ (summary res).2)%nat.
Proof.
  intros Hrun.
  assert (map_Forall (fun _ st => (successful st + failed st ≤ total st)%nat) res)
    as Hall.
  { eapply variable_loop_bounded; [exact Hrun|]. apply map_Forall_empty. }
  split; [exact Hall|by apply summary_bounded].
Qed.

Lemma driver_summary_bounded_witness :
  ∃ res fs' log,
    getCMIP6_async Sample.utc sample_variable_env
      (Some ["tas"; "pr"; "tasmax"]) "out" 3 ∅ = Some (res, fs', log)
    ∧ res !! "tas" = Some (Stats 5 4 1)
    ∧ ((summary res).1.1 + (summary res).1.2 ≤ (summary res).2)%nat.
Proof.
  destruct (getCMIP6_async Sample.utc sample_variable_env
              (Some ["tas"; "pr"; "tasmax"]) "out" 3 ∅)
    as [[[res fs'] log]|] eqn:Hrun; [|vm_compute in Hrun; discriminate Hrun].
  exists res, fs', log. split; [reflexivity|].
  destruct (driver_summary_bounded _ _ _ _ _ _ _ _ _ Hrun) as [_ Hsum].
  split; [|exact Hsum].
  vm_compute in Hrun. injection Hrun as <- _ _. vm_compute. reflexivity.
Defined.
(** ** Records that share a destination *)

Lemma batch_loop_batches utc_offset fetch imgs path mc bs starts :
  ∀ st fs st' fs' evs,
  batch_loop utc_offset fetch starts imgs path mc bs st fs = (Completed st', fs', evs) →
  ∀ start, start ∈ starts →
    ∃ st0 fs0 st1 fs1 evs1,
      run_batch utc_offset fetch imgs path mc bs start st0 fs0
      = (Completed st1, fs1, evs1)
      ∧ total st0 = total st
      ∧ (∀ e, e ∈ evs1 → e ∈ evs).
Proof.
  induction starts as [|s rest IH]; intros st fs st' fs' evs; simpl.
  { by intros _ start ?%elem_of_nil. }
  destruct (run_batch utc_offset fetch imgs path mc bs s st fs)
    as [[r fs1] evs1] eqn:Hb.
  destruct r as [st1| |]; [|by intros [=]..].
  destruct (batch_loop utc_offset fetch rest imgs path mc bs st1 fs1)
    as [[r2 fs2] evs2] eqn:Hl.
  intros [= -> <- <-] start [->|Hin]%elem_of_cons.
  - exists st, fs, st1, fs1, evs1. split_and!; [done|done|].
    intros e He. apply elem_of_app. auto.
  - destruct (run_batch_completed _ _ _ _ _ _ _ _ _ _ _ _ Hb)
      as (_ & _ & _ & _ & _ & _ & _ & _ & Htot).
    destruct (IH _ _ _ _ _ Hl start Hin) as (st0 & fs0 & st3 & fs3 & evs3 & ? & ? & Hsub).
    exists st0, fs0, st3, fs3, evs3. split_and!; [done|congruence|].
    intros e He. apply elem_of_app. auto.
Qed.

Lemma batch_of_record n b k :
  (0 < b)%nat → (k < n)%nat →
  (k / b * b)%nat ∈ py_range n b
  ∧ (k / b * b ≤ k < k / b * b + b)%nat.
Proof.
  intros Hb Hk. split; [by apply elem_of_py_range|].
  pose proof (Nat.div_mod k b ltac:(lia)) as Hdm.
  pose proof (Nat.mod_upper_bound k b ltac:(lia)) as Hm. lia.
Qed.

(** X11. In an export that completes, two records of one batch whose
    planned paths are the same are treated alike: the pre-check of lines
    157-159 reads the files as they were before the batch, so either both
    records are skipped, or both are fetched to the one path, the second
    fetch not being held back by the first. *)
Theorem shared_destination_in_a_batch
    utc_offset fetch images path mc bs fs st fs' log j k a b p :
  export_with utc_offset fetch (Some images) path mc bs fs = (Completed st, fs', log) →
  0 < bs →
  images !! j = Some a → images !! k = Some b →
  (j / Z.to_nat bs = k / Z.to_nat bs)%nat →
  plan_path utc_offset path a j = Some p →
  plan_path utc_offset path b k = Some p →
  (∃ fj sj fk sk, Skipped j fj sj ∈ log ∧ Skipped k fk sk ∈ log)
  ∨ (∃ aj rj ak rk, Fetched j p aj rj ∈ log ∧ Fetched k p ak rk ∈ log).
Proof.
  intros Hrun Hbs Hj Hk Hsame Hpj Hpk.
  pose proof (lookup_lt_Some _ _ _ Hj) as Hjn.
  pose proof (lookup_lt_Some _ _ _ Hk) as Hkn.
  revert Hrun. unfold export_with. simpl.
  destruct (Nat.eqb_spec (length images) 0) as [Hz|Hnz]; [lia|].
  destruct (Z.eqb_spec bs 0); [lia|]. destruct (Z.ltb_spec bs 0); [lia|].
  intros Hloop.
  assert (0 < Z.to_nat bs)%nat as Hb by lia.
  destruct (batch_of_record (length images) (Z.to_nat bs) j Hb Hjn) as [Hin Hjr].
  destruct (batch_of_record (length images) (Z.to_nat bs) k Hb Hkn) as [_ Hkr].
  rewrite <- Hsame in Hkr.
  set (start := (j / Z.to_nat bs * Z.to_nat bs)%nat) in *.
  destruct (batch_loop_batches _ _ _ _ _ _ _ _ _ _ _ _ Hloop start Hin)
    as (st0 & fs0 & st1 & fs1 & evs1 & Hbatch & Htot & Hsub).
  simpl in Htot.
  destruct (run_batch_dispatch _ _ _ _ _ _ _ _ _ _ _ _ Hbatch) as (_ & _ & D3).
  assert (∀ i img, (start ≤ i < start + Z.to_nat bs)%nat → images !! i = Some img →
            ∃ q, plan_path utc_offset path img i = Some q
              ∧ if complete_file fs0 q
                then ∃ filename size, Skipped i filename size ∈ evs1
                else ∃ att res, Fetched i q att res ∈ evs1) as Hcase.
  { intros i img Hi Himg. pose proof (lookup_lt_Some _ _ _ Himg) as Hlt.
    destruct (D3 (i - start)%nat img) as (q & Hq & Hc).
    - rewrite lookup_slice by lia. by replace (start + (i - start))%nat with i by lia.
    - replace (start + (i - start))%nat with i in * by lia. by exists q. }
  destruct (Hcase j a Hjr Hj) as (q1 & Hq1 & H1).
  destruct (Hcase k b Hkr Hk) as (q2 & Hq2 & H2).
  rewrite Hpj in Hq1. rewrite Hpk in Hq2. injection Hq1 as <-. injection Hq2 as <-.
  destruct (complete_file fs0 p).
  - left. destruct H1 as (fj & sj & H1), H2 as (fk & sk & H2).
    exists fj, sj, fk, sk. split; by apply Hsub.
  - right. destruct H1 as (aj & rj & H1), H2 as (ak & rk & H2).
    exists aj, rj, ak, rk. split; by apply Hsub.
Qed.

Lemma shared_destination_in_a_batch_witness :
  let run := export_with Sample.utc (fetch_image Sample.env_up)
               (Some two_scenarios) "out" 3 10 ∅ in
  (∃ fj sj fk sk, Skipped 0 fj sj ∈ run.2 ∧ Skipped 1 fk sk ∈ run.2)
  ∨ (∃ aj rj ak rk, Fetched 0 "out/M_2020-01-01.tif" aj rj ∈ run.2
                    ∧ Fetched 1 "out/M_2020-01-01.tif" ak rk ∈ run.2).
Proof.
  intros run.
  apply (shared_destination_in_a_batch Sample.utc (fetch_image Sample.env_up)
           two_scenarios "out" 3 10 ∅ (Stats 2 2 0) run.1.2 run.2 0 1
           (scenario_image "ssp245" 20200101) (scenario_image "ssp585" 20200101)).
  - vm_compute. reflexivity.
  - lia.
  - reflexivity.
  - reflexivity.
  - reflexivity.
  - vm_compute. reflexivity.
  - vm_compute. reflexivity.
Defined.

Lemma batch_loop_skips_complete utc_offset env imgs path mc bs starts :
  ∀ st fs st' fs' evs,
  (∀ i, answers_fully (env i)) →
  batch_loop utc_offset (fetch_image env) starts imgs path mc bs st fs
  = (Completed st', fs', evs) →
  ∀ s k img p, s ∈ starts → (s ≤ k < s + bs)%nat → (k < total st)%nat →
    imgs !! k = Some img → plan_path utc_offset path img k = Some p →
    complete_file fs p = true →
    ∃ filename size, Skipped k filename size ∈ evs.
Proof.
  induction starts as [|s0 rest IH]; intros st fs st' fs' evs Henv; simpl.
  { by intros _ s k img p ?%elem_of_nil. }
  destruct (run_batch utc_offset (fetch_image env) imgs path mc bs s0 st fs)
    as [[r fs1] evs1] eqn:Hb.
  destruct r as [st1| |]; [|by intros [=]..].
  destruct (batch_loop utc_offset (fetch_image env) rest imgs path mc bs st1 fs1)
    as [[r2 fs2] evs2] eqn:Hl.
  intros [= -> <- <-] s k img p Hin Hk Hlt Himg Hp Hc.
  destruct (run_batch_fully _ _ _ _ _ _ _ _ _ _ _ _ Henv Hb) as (_ & B2 & B3 & _).
  apply elem_of_cons in Hin as [->|Hin].
  - destruct (run_batch_dispatch _ _ _ _ _ _ _ _ _ _ _ _ Hb) as (_ & _ & D3).
    destruct (D3 (k - s0)%nat img) as (q & Hq & Hcase).
    { rewrite lookup_slice by lia. by replace (s0 + (k - s0))%nat with k by lia. }
    replace (s0 + (k - s0))%nat with k in * by lia.
    rewrite Hp in Hq. injection Hq as <-. rewrite Hc in Hcase.
    destruct Hcase as (filename & size & Hs). exists filename, size.
    apply elem_of_app. auto.
  - destruct (IH _ _ _ _ _ Henv Hl s k img p Hin Hk ltac:(lia) Himg Hp (B3 _ Hc))
      as (filename & size & Hs).
    exists filename, size. apply elem_of_app. auto.
Qed.

Lemma batch_loop_later_skipped utc_offset env imgs path mc bs pre :
  ∀ sj post st fs st' fs' evs,
  (∀ i, answers_fully (env i)) →
  batch_loop utc_offset (fetch_image env) (pre ++ sj :: post) imgs path mc bs st fs
  = (Completed st', fs', evs) →
  ∀ sk j k a b p, sk ∈ post →
    (sj ≤ j < sj + bs)%nat → (j < total st)%nat → imgs !! j = Some a →
    plan_path utc_offset path a j = Some p →
    (sk ≤ k < sk + bs)%nat → (k < total st)%nat → imgs !! k = Some b →
    plan_path utc_offset path b k = Some p →
    ∃ filename size, Skipped k filename size ∈ evs.
Proof.
  induction pre as [|s0 pre IH]; intros sj post st fs st' fs' evs Henv; simpl.
  - destruct (run_batch utc_offset (fetch_image env) imgs path mc bs sj st fs)
      as [[r fs1] evs1] eqn:Hb.
    destruct r as [st1| |]; [|by intros [=]..].
    destruct (batch_loop utc_offset (fetch_image env) post imgs path mc bs st1 fs1)
      as [[r2 fs2] evs2] eqn:Hl.
    intros [= -> <- <-] sk j k a b p Hin Hj Hjt Ha Hpa Hk Hkt Hb' Hpb.
    destruct (run_batch_fully _ _ _ _ _ _ _ _ _ _ _ _ Henv Hb) as (_ & B2 & _ & B4).
    destruct (B4 j a Hj Hjt Ha) as (q & Hq & Hc).
    rewrite Hpa in Hq. injection Hq as <-.
    destruct (batch_loop_skips_complete _ _ _ _ _ _ _ _ _ _ _ _ Henv Hl
                sk k b p Hin Hk ltac:(lia) Hb' Hpb Hc) as (filename & size & Hs).
    exists filename, size. apply elem_of_app. auto.
  - destruct (run_batch utc_offset (fetch_image env) imgs path mc bs s0 st fs)
      as [[r fs1] evs1] eqn:Hb.
    destruct r as [st1| |]; [|by intros [=]..].
    destruct (batch_loop utc_offset (fetch_image env) (pre ++ sj :: post)
                imgs path mc bs st1 fs1) as [[r2 fs2] evs2] eqn:Hl.
    intros [= -> <- <-] sk j k a b p Hin Hj Hjt Ha Hpa Hk Hkt Hb' Hpb.
    destruct (run_batch_fully _ _ _ _ _ _ _ _ _ _ _ _ Henv Hb) as (_ & B2 & _ & _).
    destruct (IH _ _ _ _ _ _ _ Henv Hl sk j k a b p Hin Hj ltac:(lia) Ha Hpa
                Hk ltac:(lia) Hb' Hpb) as (filename & size & Hs).
    exists filename, size. apply elem_of_app. auto.
Qed.

Lemma batch_number_bound n b k :
  (0 < b)%nat → (k < n)%nat → (k / b < (n + b - 1) / b)%nat.
Proof.
  intros Hb Hk.
  destruct (ceil_div_bounds n b Hb) as [Hle _].
  pose proof (Nat.div_mod k b ltac:(lia)) as Hdm.
  pose proof (Nat.mod_upper_bound k b ltac:(lia)) as Hm.
  destruct (Nat.lt_ge_cases (k / b) ((n + b - 1) / b)) as [|Hge]; [done|].
  assert ((n + b - 1) / b * b ≤ k / b * b)%nat by (by apply Nat.mul_le_mono_r).
  nia.
Qed.

Lemma py_range_split n b x y :
  (x < y)%nat → (y < (n + b - 1) / b)%nat →
  ∃ pre post, py_range n b = pre ++ (x * b)%nat :: post ∧ (y * b)%nat ∈ post.
Proof.
  intros Hxy Hy. unfold py_range.
  set (c := ((n + b - 1) / b)%nat) in *.
  replace c with (x + S (c - S x))%nat by lia.
  rewrite seq_app, fmap_app. cbn [seq]. rewrite fmap_cons.
  eexists _, _. split; [done|].
  apply (list_elem_of_fmap_2 (fun j => j * b)%nat). apply elem_of_seq. lia.
Qed.

Lemma export_indices utc_offset fetch images path mc bs fs st fs' log :
  export_with utc_offset fetch (Some images) path mc bs fs = (Completed st, fs', log) →
  0 < bs → indices log ≡ₚ seq 0 (length images).
Proof.
  intros Hrun Hbs. revert Hrun. unfold export_with. simpl.
  destruct (Nat.eqb_spec (length images) 0) as [Hz|Hnz].
  { intros [= <- <- <-]. by rewrite Hz. }
  destruct (Z.eqb_spec bs 0); [lia|]. destruct (Z.ltb_spec bs 0); [lia|].
  unfold py_range. intros Hrun.
  pose proof (batch_loop_indices _ _ _ _ _ _ _ _ _ _ _ _ _ Hrun) as Hind.
  simpl in Hind. rewrite Nat.sub_0_r in Hind. apply Hind; [lia|done|done].
Qed.

Lemma indices_unique log : NoDup (indices log) →
  ∀ e1 e2 k, e1 ∈ log → e2 ∈ log → ev_index e1 = Some k → ev_index e2 = Some k →
    e1 = e2.
Proof.
  induction log as [|e rest IH]; intros Hnd e1 e2 k H1 H2 Hk1 Hk2.
  { by apply elem_of_nil in H1. }
  assert (∀ x, x ∈ rest → ev_index x = Some k → k ∈ indices rest) as Hmem.
  { intros x Hx Hxk. apply list_elem_of_omap. by exists x. }
  unfold indices in Hnd. simpl in Hnd.
  apply elem_of_cons in H1 as [->|H1]; apply elem_of_cons in H2 as [->|H2].
  - done.
  - rewrite Hk1 in Hnd. apply NoDup_cons in Hnd as [Hn _].
    destruct Hn. by eapply Hmem.
  - rewrite Hk2 in Hnd. apply NoDup_cons in Hnd as [Hn _].
    destruct Hn. by eapply Hmem.
  - apply (IH ltac:(by destruct (ev_index e); [apply NoDup_cons in Hnd as [_ ?]|])
             e1 e2 k H1 H2 Hk1 Hk2).
Qed.

(** X12. Against a service whose first successful answer has more than
    1024 bytes, when two records share a planned path and the second lies
    in a later batch than the first, an export that completes skips the
    second: it is counted as successful on the strength of the file the
    first record left, and is never fetched. *)
Theorem shared_destination_across_batches
    utc_offset env images path mc bs fs st fs' log j k a b p :
  (∀ i, answers_fully (env i)) →
  export_cmip6_collection_parallel utc_offset env (Some images) path mc bs fs
  = (Completed st, fs', log) →
  0 < bs →
  images !! j = Some a → images !! k = Some b →
  (j / Z.to_nat bs < k / Z.to_nat bs)%nat →
  plan_path utc_offset path a j = Some p →
  plan_path utc_offset path b k = Some p →
  (∃ filename size, Skipped k filename size ∈ log)
  ∧ (∀ q att res, Fetched k q att res ∉ log).
Proof.
  intros Henv Hrun Hbs Hj Hk Hlt Hpj Hpk.
  unfold export_cmip6_collection_parallel in Hrun.
  pose proof (export_indices _ _ _ _ _ _ _ _ _ _ Hrun Hbs) as Hperm.
  assert (∃ filename size, Skipped k filename size ∈ log) as Hskip.
  { pose proof (lookup_lt_Some _ _ _ Hj) as Hjn.
    pose proof (lookup_lt_Some _ _ _ Hk) as Hkn.
    revert Hrun. unfold export_with. simpl.
    destruct (Nat.eqb_spec (length images) 0) as [Hz|Hnz]; [lia|].
    destruct (Z.eqb_spec bs 0); [lia|]. destruct (Z.ltb_spec bs 0); [lia|].
    intros Hloop.
    assert (0 < Z.to_nat bs)%nat as Hb by lia.
    destruct (batch_of_record (length images) (Z.to_nat bs) j Hb Hjn) as [_ Hjr].
    destruct (batch_of_record (length images) (Z.to_nat bs) k Hb Hkn) as [_ Hkr].
    pose proof (batch_number_bound (length images) (Z.to_nat bs) k Hb Hkn) as Hkb.
    destruct (py_range_split (length images) (Z.to_nat bs) _ _ Hlt Hkb)
      as (pre & post & Hsplit & Hin).
    rewrite Hsplit in Hloop.
    by apply (batch_loop_later_skipped _ _ _ _ _ _ _ _ _ _ _ _ _ _ Henv Hloop
                _ j k a b p Hin). }
  split; [done|].
  destruct Hskip as (filename & size & Hs). intros q att res Hf.
  assert (NoDup (indices log)) as Hnd by (rewrite Hperm; apply NoDup_seq).
  by pose proof (indices_unique log Hnd _ _ k Hs Hf eq_refl eq_refl).
Qed.

Lemma shared_destination_across_batches_witness :
  let run := export_cmip6_collection_parallel Sample.utc Sample.env_up
               (Some two_scenarios) "out" 3 1 ∅ in
  (∃ filename size, Skipped 1 filename size ∈ run.2)
  ∧ (∀ q att res, Fetched 1 q att res ∉ run.2).
Proof.
  intros run.
  apply (shared_destination_across_batches Sample.utc Sample.env_up
           two_scenarios "out" 3 1 ∅ (Stats 2 2 0) run.1.2 run.2 0 1
           (scenario_image "ssp245" 20200101) (scenario_image "ssp585" 20200101)
           "out/M_2020-01-01.tif").
  - intros i. split; [reflexivity|].
    exists 0%nat, 2000%N. split_and!; [lia|lia|reflexivity|reflexivity].
  - vm_compute. reflexivity.
  - lia.
  - reflexivity.
  - reflexivity.
  - vm_compute. lia.
  - vm_compute. reflexivity.
  - vm_compute. reflexivity.
Defined.
(** ** A semaphore without permits *)

Lemma run_batch_no_permit utc_offset fetch imgs path bs start st fs r fs' evs :
  (∀ k img, imgs !! k = Some img → is_Some (plan_path utc_offset path img k)) →
  run_batch utc_offset fetch imgs path 0 bs start st fs = (r, fs', evs) →
  fs' = fs
  ∧ Forall (fun e => is_fetched e = false) evs
  ∧ ((∃ st', r = Completed st' ∧ total st' = total st
        ∧ ∀ k img, (start ≤ k < start + bs)%nat → (k < total st)%nat →
            imgs !! k = Some img →
            ∃ p, plan_path utc_offset path img k = Some p
                 ∧ complete_file fs p = true)
     ∨ (r = Hangs
        ∧ ∃ k img p, imgs !! k = Some img
            ∧ plan_path utc_offset path img k = Some p
            ∧ complete_file fs p = false)).
Proof.
  intros Hplan. unfold run_batch.
  set (batch_end := Nat.min (start + bs) (total st)).
  destruct (prepare_tasks_total utc_offset path start
              (slice imgs start batch_end) fs 0 st) as (tasks & st1 & evs1 & Hprep).
  { intros j img Hj. apply lookup_slice_Some in Hj.
    rewrite Nat.add_0_r. by apply (Hplan _ img). }
  rewrite Hprep. simpl.
  destruct (prepare_tasks_indices _ _ _ _ _ _ _ _ _ _ Hprep) as (_ & Q2 & _).
  destruct (prepare_tasks_counters _ fetch _ _ _ _ _ _ _ _ _ Hprep) as (P1 & _).
  destruct tasks as [|t tasks].
  - intros [= <- <- <-]. split_and!; [done| |].
    + apply Forall_cons. split; [done|]. apply Forall_app. split; [done|].
      by case_match; repeat constructor.
    + left. exists st1. split_and!; [done|done|].
      intros k img Hk Hlt Himg.
      destruct (prepare_tasks_cover _ _ _ _ _ _ _ _ _ _ Hprep (k - start)%nat img)
        as (p & Hp & Hcase).
      { unfold batch_end. rewrite lookup_slice by lia.
        by replace (start + (k - start))%nat with k by lia. }
      replace (start + 0 + (k - start))%nat with k in Hp by lia.
      exists p. split; [done|].
      destruct Hcase as [Hc|(t & Ht & _)]; [done|by apply elem_of_nil in Ht].
  - intros [= <- <- <-]. split_and!; [done|by apply Forall_cons|].
    right. split; [done|].
    destruct (prepare_tasks_dispatch _ _ _ _ _ _ _ _ _ _ Hprep) as (_ & D2 & _).
    destruct (D2 _ t eq_refl ltac:(apply elem_of_cons; auto))
      as (j & img & Hidx & Hj & Hp & Hc).
    apply lookup_slice_Some in Hj. rewrite Nat.add_0_r in Hidx. rewrite Hidx in Hp.
    by exists (start + j)%nat, img, (task_path t).
Qed.

Lemma batch_loop_no_permit utc_offset fetch imgs path bs starts :
  ∀ st fs r fs' evs,
  (∀ k img, imgs !! k = Some img → is_Some (plan_path utc_offset path img k)) →
  batch_loop utc_offset fetch starts imgs path 0 bs st fs = (r, fs', evs) →
  fs' = fs
  ∧ Forall (fun e => is_fetched e = false) evs
  ∧ ((∃ st', r = Completed st'
        ∧ ∀ s k img, s ∈ starts → (s ≤ k < s + bs)%nat → (k < total st)%nat →
            imgs !! k = Some img →
            ∃ p, plan_path utc_offset path img k = Some p
                 ∧ complete_file fs p = true)
     ∨ (r = Hangs
        ∧ ∃ k img p, imgs !! k = Some img
            ∧ plan_path utc_offset path img k = Some p
            ∧ complete_file fs p = false)).
Proof.
  induction starts as [|s0 rest IH]; intros st fs r fs' evs Hplan; simpl.
  { intros [= <- <- <-]. split_and!; [done|done|]. left. exists st.
    split; [done|]. by intros s k img ?%elem_of_nil. }
  destruct (run_batch utc_offset fetch imgs path 0 bs s0 st fs)
    as [[r1 fs1] evs1] eqn:Hb.
  destruct (run_batch_no_permit _ _ _ _ _ _ _ _ _ _ _ Hplan Hb)
    as (-> & Hu & [(st1 & -> & Htot & Hall)|(-> & Hex)]).
  - destruct (batch_loop utc_offset fetch rest imgs path 0 bs st1 fs)
      as [[r2 fs2] evs2] eqn:Hl.
    intros [= <- <- <-].
    destruct (IH _ _ _ _ _ Hplan Hl) as (-> & Hu2 & [(st2 & -> & Hall2)|(-> & Hex)]).
    + split_and!; [done|by apply Forall_app|]. left. exists st2. split; [done|].
      intros s k img [->|Hin]%elem_of_cons Hk Hlt Himg; [by apply Hall|].
      apply (Hall2 s k img Hin Hk); [lia|done].
    + split_and!; [done|by apply Forall_app|]. by right.
  - intros [= <- <- <-]. split_and!; [done|done|]. by right.
Qed.

(** X13. With [max_concurrent = 0], a positive batch size and every path
    plannable, an export fetches nothing and changes no file; it never
    returns when the destination of some record is missing or has at most
    1024 bytes, the first batch with such a record waiting for ever for a
    permit, and otherwise it completes with every record skipped. *)
Theorem export_without_permits utc_offset fetch images path bs fs r fs' log :
  0 < bs →
  (∀ k img, images !! k = Some img → is_Some (plan_path utc_offset path img k)) →
  export_with utc_offset fetch (Some images) path 0 bs fs = (r, fs', log) →
  fs' = fs
  ∧ Forall (fun e => is_fetched e = false) log
  ∧ (r = Hangs ↔
     ∃ k img p, images !! k = Some img
       ∧ plan_path utc_offset path img k = Some p
       ∧ complete_file fs p = false)
  ∧ (r ≠ Hangs → r = Completed (Stats (length images) (length images) 0)).
Proof.
  intros Hbs Hplan Hrun.
  destruct (export_with_counters _ _ _ _ _ _ _ _ _ _ Hrun) as (_ & C2 & C3 & _).
  revert Hrun. unfold export_with. simpl.
  destruct (Nat.eqb_spec (length images) 0) as [Hz|Hnz].
  { intros [= <- <- <-]. apply length_zero_iff_nil in Hz as ->.
    split_and!; [done|done| |done].
    split; [done|]. by intros (k & img & p & ? & _). }
  destruct (Z.eqb_spec bs 0); [lia|]. destruct (Z.ltb_spec bs 0); [lia|].
  intros Hloop.
  destruct (batch_loop_no_permit _ _ _ _ _ _ _ _ _ _ _ Hplan Hloop)
    as (-> & Hu & [(st' & -> & Hall)|(-> & Hex)]).
  - split_and!; [done|done| |].
    + split; [done|]. intros (k & img & p & Himg & Hp & Hc).
      pose proof (lookup_lt_Some _ _ _ Himg) as Hlt.
      assert (0 < Z.to_nat bs)%nat as Hb by lia.
      destruct (batch_of_record (length images) (Z.to_nat bs) k Hb Hlt) as [Hin Hk].
      destruct (Hall _ k img Hin Hk Hlt Himg) as (q & Hq & Hcq).
      rewrite Hp in Hq. injection Hq as <-. by rewrite Hc in Hcq.
    + intros _. destruct (C2 st' (or_introl eq_refl)) as (_ & _ & Hf).
      destruct (C3 images st' eq_refl eq_refl Hbs) as (Ht & Hsum).
      rewrite unfetched_no_failure in Hf by done.
      destruct st' as [t s f]. simpl in *. repeat f_equal; lia.
  - split_and!; [done|done|done|done].
Qed.

Lemma export_without_permits_witness :
  let run := export_with Sample.utc (fetch_image Sample.env_up)
               (Some Sample.listing5) "out" 0 2 Sample.fs2 in
  run.1.1 = Hangs ∧ run.1.2 = Sample.fs2.
Proof.
  intros run.
  destruct (export_without_permits Sample.utc (fetch_image Sample.env_up) Sample.listing5
              "out" 2 Sample.fs2 run.1.1 run.1.2 run.2) as (Hfs & _ & Hh & _).
  - lia.
  - intros k img Hk.
    assert (k < 5)%nat as Hlt by (apply lookup_lt_Some in Hk; exact Hk).
    do 5 (destruct k as [|k]; [injection Hk as <-; vm_compute; eauto|]). lia.
  - vm_compute. reflexivity.
  - split; [|exact Hfs]. apply Hh.
    exists 1%nat, (Sample.image 20200102), "out/M_2020-01-02.tif".
    vm_compute. repeat split; reflexivity.
Defined.
(** ** The region of interest *)

(** X14. In both files [setGeom] raises [IndexError] exactly when it is
    given one, two or three coordinates; given four or more it uses the
    first four, in the order [minLon, maxLon, minLat, maxLat], and ignores
    the rest, without checking that a minimum is below its maximum; the
    two files differ only in the box used when no coordinate is given; and
    the polygon is one closed ring of five vertices. *)
Theorem setGeom_box coords :
  (Async.setGeom coords = None ↔ (0 < length coords < 4)%nat)
  ∧ (coords ≠ [] → Sync.setGeom coords = Async.setGeom coords)
  ∧ (∀ a b c d extra, coords = a :: b :: c :: d :: extra →
       Async.setGeom coords = Some (ring a b c d))
  ∧ (∀ rings, Async.setGeom coords = Some rings ∨ Sync.setGeom coords = Some rings →
       ∃ r, rings = [r] ∧ length r = 5%nat ∧ head r = last r).
Proof.
  unfold Async.setGeom, Sync.setGeom, setGeom_with.
  destruct coords as [|a [|b [|c [|d extra]]]]; simpl.
  - split_and!; [split; [done|lia]|done|done|].
    intros rings [[= <-]|[= <-]]; by eexists.
  - split_and!; [split; [lia|done]|done|done|]. by intros rings [|].
  - split_and!; [split; [lia|done]|done|done|]. by intros rings [|].
  - split_and!; [split; [lia|done]|done|done|]. by intros rings [|].
  - split_and!; [split; [done|lia]|done| |].
    + by intros ? ? ? ? ? [= <- <- <- <- <-].
    + intros rings [[= <-]|[= <-]]; by eexists.
Qed.

(** ** The driver of [ee_download.py] *)

Lemma sync_export_loop export_ok home bands : ∀ returned calls,
  Sync.export_loop export_ok bands home = (returned, calls) →
  let call := fun '(var, band) => Sync.ExportCall band (PyStr.path_join home var) in
  (returned = true →
     calls = call <$> bands ∧ ∀ band, band ∈ bands.*2 → export_ok band = true)
  ∧ (returned = false →
     ∃ pre var band post,
       bands = pre ++ (var, band) :: post
       ∧ (∀ b, b ∈ pre.*2 → export_ok b = true)
       ∧ export_ok band = false
       ∧ calls = call <$> (pre ++ [(var, band)])).
Proof.
  induction bands as [|[var band] rest IH]; intros returned calls; simpl.
  { intros [= <- <-]. split; [|done]. intros _. split; [done|].
    by intros band ?%elem_of_nil. }
  destruct (export_ok band) eqn:Hok.
  - destruct (Sync.export_loop export_ok rest home) as [r c] eqn:Hrest.
    intros [= <- <-]. destruct (IH _ _ eq_refl) as [IH1 IH2]. split.
    + intros Hr. destruct (IH1 Hr) as [-> Hall]. split; [done|].
      intros b [->|Hb]%elem_of_cons; [done|by apply Hall].
    + intros Hr. destruct (IH2 Hr) as (pre & v & b & post & -> & Hpre & Hb & ->).
      exists ((var, band) :: pre), v, b, post. split_and!; [done| |done|done].
      intros b' [->|Hb']%elem_of_cons; [done|by apply Hpre].
  - intros [= <- <-]. split; [done|]. intros _.
    exists [], var, band, rest. split_and!; [done| |done|done].
    by intros b ?%elem_of_nil.
Qed.

(** X15. [getCMIP6] of [ee_download.py] exports the five collections in
    the order of its table, each selected by its CMIP6 code into the
    directory of its short name under [home], and has no handler: it
    returns only when all five exports do, and the first export that
    raises is the last call it makes. *)
Theorem sync_driver_stops_at_first_failure export_ok home returned calls :
  Sync.getCMIP6 export_ok home = (returned, calls) →
  let call := fun '(var, band) => Sync.ExportCall band (PyStr.path_join home var) in
  (returned = true ↔ ∀ band, band ∈ cmip6_bands.*1 → export_ok band = true)
  ∧ (returned = true → calls = call <$> Sync.bands)
  ∧ (returned = false →
     ∃ pre var band post,
       Sync.bands = pre ++ (var, band) :: post
       ∧ (∀ b, b ∈ pre.*2 → export_ok b = true)
       ∧ export_ok band = false
       ∧ calls = call <$> (pre ++ [(var, band)]))
  ∧ (∀ band path, Sync.ExportCall band path ∈ calls →
       ∃ var, (var, band) ∈ Sync.bands ∧ path = PyStr.path_join home var
              ∧ band ∈ cmip6_bands.*1).
Proof.
  intros Hrun call. destruct (sync_export_loop _ _ _ _ _ Hrun) as [H1 H2].
  assert (Sync.bands.*2 = cmip6_bands.*1) as Hcodes by done.
  assert (∀ x, x ∈ calls → ∃ var band, x = call (var, band) ∧ (var, band) ∈ Sync.bands)
    as Hcalls.
  { intros x Hx. destruct returned.
    - destruct (H1 eq_refl) as [-> _].
      apply list_elem_of_fmap in Hx as ([v b] & -> & Hin). by exists v, b.
    - destruct (H2 eq_refl) as (pre & v & b & post & Hb & _ & _ & ->).
      apply list_elem_of_fmap in Hx as ([v' b'] & -> & Hin). exists v', b'.
      split; [done|]. rewrite Hb. rewrite elem_of_app in Hin. rewrite elem_of_app.
      destruct Hin as [?|Hlast]; [auto|]. apply list_elem_of_singleton in Hlast as ->.
      right. apply elem_of_cons. auto. }
  split_and!.
  - split.
    + intros Hr. destruct (H1 Hr) as [_ Hall]. by rewrite <- Hcodes.
    + intros Hall. destruct returned; [done|].
      destruct (H2 eq_refl) as (pre & v & b & post & Hb & _ & Hf & _).
      rewrite (Hall b) in Hf; [done|]. rewrite <- Hcodes, Hb, fmap_app, fmap_cons.
      apply elem_of_app. right. apply elem_of_cons. auto.
  - intros Hr. by destruct (H1 Hr).
  - done.
  - intros band path Hin. destruct (Hcalls _ Hin) as (v & b & [= -> ->] & Hvb).
    exists v. split_and!; [done|done|]. rewrite <- Hcodes.
    apply list_elem_of_fmap. by exists (v, b).
Qed.

Lemma sync_driver_stops_at_first_failure_witness :
  let export_ok := fun band => negb (String.eqb band "tasmax") in
  ∃ pre var band post,
    Sync.bands = pre ++ (var, band) :: post
    ∧ (∀ b, b ∈ pre.*2 → export_ok b = true)
    ∧ export_ok band = false
    ∧ (Sync.getCMIP6 export_ok "out").2
      = (fun '(var, band) => Sync.ExportCall band (PyStr.path_join "out" var))
          <$> (pre ++ [(var, band)]).
Proof.
  intros export_ok.
  destruct (sync_driver_stops_at_first_failure export_ok "out" false
              (Sync.getCMIP6 export_ok "out").2) as (_ & _ & H3 & _).
  - vm_compute. reflexivity.
  - exact (H3 eq_refl).
Defined.
(** ** The driver without tasks *)

Lemma dict_set_self {V} k (v : V) d : (k, v) ∈ dict_set k v d.
Proof.
  induction d as [|[k' v'] d IH]; simpl; [by apply list_elem_of_singleton|].
  destruct (String.eqb k' k); apply elem_of_cons; auto.
Qed.

Lemma dict_set_stable {V} k (v : V) d k0 v0 :
  (k0, v0) ∈ d → (k0 = k → v0 = v) → (k0, v0) ∈ dict_set k v d.
Proof.
  intros Hin Hsame. destruct (decide (k0 = k)) as [->|Hne].
  { rewrite (Hsame eq_refl). apply dict_set_self. }
  induction d as [|[k' v'] d IH]; [by apply elem_of_nil in Hin|]. simpl.
  destruct (String.eqb_spec k' k) as [->|Hk].
  - apply elem_of_cons in Hin as [[= -> ->]|Hin]; [done|].
    apply elem_of_cons. auto.
  - apply elem_of_cons in Hin as [[= -> ->]|Hin]; apply elem_of_cons; auto.
Qed.

Lemma simple_bands_by_dir e e' d :
  (e, d) ∈ Simple.bands → (e', d) ∈ Simple.bands → e = e'.
Proof.
  unfold Simple.bands. rewrite !elem_of_cons, !elem_of_nil.
  intros [[= -> ->]|[[= -> ->]|[[= -> ->]|[[= -> ->]|[[= -> ->]|[]]]]]]
         [[= ->]|[[= ->]|[[= ->]|[[= ->]|[[= ->]|[]]]]]]; done.
Qed.

Lemma simple_bands_by_code e d d' :
  (e, d) ∈ Simple.bands → (e, d') ∈ Simple.bands → d = d'.
Proof.
  unfold Simple.bands. rewrite !elem_of_cons, !elem_of_nil.
  intros [[= -> ->]|[[= -> ->]|[[= -> ->]|[[= -> ->]|[[= -> ->]|[]]]]]]
         [[= ->]|[[= ->]|[[= ->]|[[= ->]|[[= ->]|[]]]]]]; done.
Qed.

Lemma match_variable_sound var bs : ∀ filtered x,
  x ∈ Simple.match_variable var bs filtered →
  x ∈ filtered ∨ ((x.2, x.1) ∈ bs ∧ (var = x.2 ∨ var = x.1)).
Proof.
  induction bs as [|[e d] bs IH]; intros filtered x; simpl; [auto|].
  destruct (String.eqb_spec var e) as [->|He]; simpl.
  - intros [[->|Hx]%elem_of_dict_set|[Hx Hv]]%IH.
    + right. split; [apply elem_of_cons|]; auto.
    + auto.
    + right. split; [apply elem_of_cons|]; auto.
  - destruct (String.eqb_spec var d) as [->|Hd].
    + intros [[->|Hx]%elem_of_dict_set|[Hx Hv]]%IH.
      * right. split; [apply elem_of_cons|]; auto.
      * auto.
      * right. split; [apply elem_of_cons|]; auto.
    + intros [Hx|[Hx Hv]]%IH; [auto|].
      right. split; [apply elem_of_cons|]; auto.
Qed.

Lemma match_variable_keeps var bs :
  (∀ y, y ∈ bs → y ∈ Simple.bands) →
  ∀ filtered x, x ∈ filtered → (x.2, x.1) ∈ Simple.bands →
    x ∈ Simple.match_variable var bs filtered.
Proof.
  induction bs as [|[e d] bs IH]; intros Hbs filtered [d0 e0] Hx Hb; simpl; [done|].
  assert (∀ y, y ∈ bs → y ∈ Simple.bands) as Hbs'.
  { intros y Hy. apply Hbs, elem_of_cons. auto. }
  assert ((e, d) ∈ Simple.bands) as Hed by (apply Hbs, elem_of_cons; auto).
  destruct (String.eqb var e || String.eqb var d); [|by apply IH].
  apply IH; [done| |done]. apply dict_set_stable; [done|].
  simpl in Hb. intros ->. by eapply simple_bands_by_dir.
Qed.

Lemma match_variable_complete var bs :
  (∀ y, y ∈ bs → y ∈ Simple.bands) →
  ∀ filtered e d, (e, d) ∈ bs → var = e ∨ var = d →
    (d, e) ∈ Simple.match_variable var bs filtered.
Proof.
  induction bs as [|[e0 d0] bs IH]; intros Hbs filtered e d Hin Hv; simpl.
  { by apply elem_of_nil in Hin. }
  assert (∀ y, y ∈ bs → y ∈ Simple.bands) as Hbs'.
  { intros y Hy. apply Hbs, elem_of_cons. auto. }
  assert ((e0, d0) ∈ Simple.bands) as Hed by (apply Hbs, elem_of_cons; auto).
  apply elem_of_cons in Hin as [[= -> ->]|Hin].
  - assert (String.eqb var e0 || String.eqb var d0 = true) as ->.
    { destruct Hv as [-> | ->]; rewrite String.eqb_refl; [done|by rewrite orb_true_r]. }
    apply match_variable_keeps; [done|apply dict_set_self|done].
  - destruct (String.eqb var e0 || String.eqb var d0); by apply IH.
Qed.

Lemma simple_filter_sound vars : ∀ filtered x,
  x ∈ Simple.filter_bands vars filtered →
  x ∈ filtered ∨ ((x.2, x.1) ∈ Simple.bands ∧ (x.2 ∈ vars ∨ x.1 ∈ vars)).
Proof.
  induction vars as [|var rest IH]; intros filtered x; cbn [Simple.filter_bands];
    [auto|].
  intros [[Hx|[Hx Hv]]%match_variable_sound|[Hx Hv]]%IH.
  - auto.
  - right. split; [done|]. rewrite !elem_of_cons. destruct Hv; auto.
  - right. split; [done|]. rewrite !elem_of_cons. destruct Hv; auto.
Qed.

Lemma simple_filter_keeps vars : ∀ filtered x,
  x ∈ filtered → (x.2, x.1) ∈ Simple.bands → x ∈ Simple.filter_bands vars filtered.
Proof.
  induction vars as [|var rest IH]; intros filtered x Hx Hb;
    cbn [Simple.filter_bands]; [done|].
  apply IH; [|done]. by apply match_variable_keeps.
Qed.

Lemma simple_filter_complete vars : ∀ filtered e d,
  (e, d) ∈ Simple.bands → e ∈ vars ∨ d ∈ vars →
  (d, e) ∈ Simple.filter_bands vars filtered.
Proof.
  induction vars as [|var rest IH]; intros filtered e d Hb Hv;
    cbn [Simple.filter_bands].
  { destruct Hv as [Hv|Hv]; by apply elem_of_nil in Hv. }
  destruct (decide (var = e ∨ var = d)) as [Hm|Hn].
  - apply simple_filter_keeps; [|done]. by apply match_variable_complete.
  - apply IH; [done|]. rewrite !elem_of_cons in Hv.
    destruct Hv as [[->|?]|[->|?]]; auto; destruct Hn; auto.
Qed.

Lemma invert_sound items : ∀ acc x,
  x ∈ Simple.invert items acc → x ∈ acc ∨ (x.2, x.1) ∈ items.
Proof.
  induction items as [|[k v] items IH]; intros acc x; simpl; [auto|].
  intros [[->|Hx]%elem_of_dict_set|Hx]%IH.
  - right. apply elem_of_cons. auto.
  - auto.
  - right. apply elem_of_cons. auto.
Qed.

Lemma invert_keeps items :
  (∀ y, y ∈ items → (y.2, y.1) ∈ Simple.bands) →
  ∀ acc x, x ∈ acc → x ∈ Simple.bands → x ∈ Simple.invert items acc.
Proof.
  induction items as [|[k v] items IH]; intros Hitems acc [e d] Hx Hb; simpl; [done|].
  apply IH; [intros y Hy; apply Hitems, elem_of_cons; auto| |done].
  apply dict_set_stable; [done|]. intros ->.
  eapply simple_bands_by_code; [done|]. apply (Hitems (k, v)), elem_of_cons. auto.
Qed.

Lemma invert_complete items :
  (∀ y, y ∈ items → (y.2, y.1) ∈ Simple.bands) →
  ∀ acc k v, (k, v) ∈ items → (v, k) ∈ Simple.invert items acc.
Proof.
  induction items as [|[k0 v0] items IH]; intros Hitems acc k v Hin; simpl.
  { by apply elem_of_nil in Hin. }
  assert (∀ y, y ∈ items → (y.2, y.1) ∈ Simple.bands) as Hitems'.
  { intros y Hy. apply Hitems, elem_of_cons. auto. }
  apply elem_of_cons in Hin as [[= -> ->]|Hin]; [|by apply IH].
  apply invert_keeps; [done|apply dict_set_self|].
  apply (Hitems (k0, v0)), elem_of_cons. auto.
Qed.

Lemma invert_nodup items : ∀ acc,
  NoDup acc.*1 → NoDup (Simple.invert items acc).*1.
Proof.
  induction items as [|[k v] items IH]; intros acc Hnd; simpl; [done|].
  apply IH. rewrite dict_set_keys. case_decide; [done|].
  apply NoDup_app. split_and!; [done| |apply NoDup_singleton].
  intros x Hx ->%list_elem_of_singleton. done.
Qed.

Lemma simple_select_sound variables x :
  x ∈ Simple.select_bands variables → x ∈ Simple.bands.
Proof.
  destruct x as [e d].
  unfold Simple.select_bands. destruct variables as [[|var rest]|]; [done| |done].
  destruct (Simple.filter_bands (var :: rest) []) as [|b bs] eqn:Hf; [done|].
  intros [Hx|Hx]%invert_sound; [by apply elem_of_nil in Hx|].
  rewrite <- Hf in Hx. apply simple_filter_sound in Hx as [Hx|[Hx _]]; [|done].
  by apply elem_of_nil in Hx.
Qed.

(** X16. Whatever is requested, every pair [(var_dir, band)] that
    [getCMIP6_simple] iterates over is a pair of the table of line 353 as
    it stands, the filter of lines 362-369 giving back, by its final
    inversion, the entries of the table that the request names by either
    name. So the key, a CMIP6 code, names the directory and the value, a
    short name, is what [select] is given: the collection is never
    selected by a CMIP6 code. *)
Theorem simple_driver_selects_by_short_name variables :
  NoDup (Simple.select_bands variables).*1
  ∧ (∀ x, x ∈ Simple.select_bands variables → x ∈ Simple.bands)
  ∧ (∀ vars, variables = Some vars →
       (∃ e d, (e, d) ∈ Simple.bands ∧ (e ∈ vars ∨ d ∈ vars)) →
       ∀ e d, (e, d) ∈ Simple.select_bands variables ↔
              (e, d) ∈ Simple.bands ∧ (e ∈ vars ∨ d ∈ vars))
  ∧ (∀ env home band,
       band ∈ Simple.selected (Simple.getCMIP6_simple env variables home).2 →
       band ∈ Simple.bands.*2 ∧ band ∉ cmip6_bands.*1).
Proof.
  split_and!.
  - assert (NoDup Simple.bands.*1) as Hall.
    { apply (bool_decide_unpack _). by vm_compute. }
    unfold Simple.select_bands. destruct variables as [[|var rest]|]; [done| |done].
    destruct (Simple.filter_bands (var :: rest) []); [done|].
    apply invert_nodup. constructor.
  - apply simple_select_sound.
  - intros vars -> (e0 & d0 & Hb0 & Hv0) e d. unfold Simple.select_bands.
    destruct vars as [|var rest].
    { destruct Hv0 as [Hv0|Hv0]; by apply elem_of_nil in Hv0. }
    pose proof (simple_filter_complete (var :: rest) [] e0 d0 Hb0 Hv0) as Hne.
    assert (∀ y, y ∈ Simple.filter_bands (var :: rest) [] →
              (y.2, y.1) ∈ Simple.bands ∧ (y.2 ∈ var :: rest ∨ y.1 ∈ var :: rest))
      as Hsound.
    { intros y [Hy|Hy]%simple_filter_sound; [by apply elem_of_nil in Hy|done]. }
    destruct (Simple.filter_bands (var :: rest) []) as [|b bs] eqn:Hf.
    { by apply elem_of_nil in Hne. }
    rewrite <- Hf in *. split.
    + intros [Hx|Hx]%invert_sound; [by apply elem_of_nil in Hx|].
      by apply Hsound in Hx.
    + intros [Hb Hv]. apply invert_complete.
      * intros y Hy. by apply Hsound.
      * by apply simple_filter_complete.
  - intros env home band. unfold Simple.getCMIP6_simple.
    assert (∀ bands, (∀ x, x ∈ bands → x ∈ Simple.bands) →
              band ∈ Simple.selected (Simple.export_loop env bands home).2 →
              band ∈ Simple.bands.*2) as Hloop.
    { induction bands as [|[v b] bands IH]; intros Hsub; simpl.
      { by intros ?%elem_of_nil. }
      assert (b ∈ Simple.bands.*2) as Hb.
      { apply list_elem_of_fmap. exists (v, b). split; [done|].
        apply Hsub, elem_of_cons. auto. }
      assert (∀ x, x ∈ bands → x ∈ Simple.bands) as Hsub'.
      { intros x Hx. apply Hsub, elem_of_cons. auto. }
      specialize (IH Hsub').
      destruct (Simple.size_info (env v)) as [count|].
      2: { simpl. by intros ->%list_elem_of_singleton. }
      destruct (count =? 0)%nat.
      { destruct (Simple.export_loop env bands home) as [r c]. simpl in *.
        intros [->|Hin]%elem_of_cons; [done|by apply IH]. }
      destruct (negb (Simple.makedirs_ok (env v))).
      { simpl. by intros ->%list_elem_of_singleton. }
      destruct (Simple.export_loop env bands home) as [r c]. simpl in *.
      intros [->|Hin]%elem_of_cons; [done|by apply IH]. }
    intros Hin. apply Hloop in Hin; [|apply simple_select_sound].
    split; [done|]. revert Hin. unfold Simple.bands, cmip6_bands.
    rewrite !fmap_cons, !fmap_nil. simpl fst. simpl snd.
    rewrite !elem_of_cons, !elem_of_nil.
    intros [->|[->|[->|[->|[->|[]]]]]] [|[|[|[|[|[]]]]]]; done.
Qed.
Lemma selected_query band calls :
  Simple.selected (Simple.SizeQuery band :: calls) = band :: Simple.selected calls.
Proof. done. Qed.

Lemma selected_export band path returned calls :
  Simple.selected (Simple.ExportCall band path returned :: calls)
  = Simple.selected calls.
Proof. done. Qed.

Lemma exports_query band calls :
  Simple.exports (Simple.SizeQuery band :: calls) = Simple.exports calls.
Proof. done. Qed.

Lemma exports_export band path returned calls :
  Simple.exports (Simple.ExportCall band path returned :: calls)
  = (band, path) :: Simple.exports calls.
Proof. done. Qed.

Lemma simple_export_loop env home bands : ∀ returned calls,
  Simple.export_loop env bands home = (returned, calls) →
  let export := fun '(var_dir, band) => (band, PyStr.path_join home var_dir) in
  let has_images := fun '(var_dir, _) => Simple.has_images (env var_dir) in
  (returned = true →
     (∀ v, v ∈ bands.*1 → Simple.passes (env v) = true)
     ∧ Simple.selected calls = bands.*2
     ∧ Simple.exports calls = export <$> List.filter has_images bands)
  ∧ (returned = false →
     ∃ pre var_dir band post,
       bands = pre ++ (var_dir, band) :: post
       ∧ (∀ v, v ∈ pre.*1 → Simple.passes (env v) = true)
       ∧ Simple.passes (env var_dir) = false
       ∧ Simple.selected calls = (pre ++ [(var_dir, band)]).*2
       ∧ Simple.exports calls = export <$> List.filter has_images pre).
Proof.
  induction bands as [|[v b] rest IH]; intros returned calls; simpl.
  { intros [= <- <-]. split; [|done]. intros _. split_and!; [|done|done].
    by intros v ?%elem_of_nil. }
  unfold Simple.passes at 1 3, Simple.has_images at 1 3.
  destruct (Simple.size_info (env v)) as [count|] eqn:Hsize.
  2: { intros [= <- <-]. split; [done|]. intros _.
       exists [], v, b, rest. split_and!; try done.
       - by intros v' ?%elem_of_nil.
       - unfold Simple.passes. by rewrite Hsize. }
  destruct (count =? 0)%nat eqn:Hc; simpl.
  - destruct (Simple.export_loop env rest home) as [r c] eqn:Hrest.
    intros [= <- <-]. destruct (IH _ _ eq_refl) as [IH1 IH2]. split.
    + intros Hr. destruct (IH1 Hr) as (Hall & Hs & He). split_and!.
      * intros v0 [Heq|Hv0]%elem_of_cons; [subst v0|by apply Hall].
        unfold Simple.passes. cbn [fst]. by rewrite Hsize, Hc.
      * rewrite ?selected_query, ?selected_export, Hs. done.
      * done.
    + intros Hr.
      destruct (IH2 Hr) as (pre & v' & b' & post & -> & Hall & Hp & Hs & He).
      exists ((v, b) :: pre), v', b', post. split_and!; [done| |done| |].
      * intros v0 [Heq|Hv0]%elem_of_cons; [subst v0|by apply Hall].
        unfold Simple.passes. cbn [fst]. by rewrite Hsize, Hc.
      * rewrite ?selected_query, ?selected_export, Hs. done.
      * simpl. unfold Simple.has_images at 1. by rewrite Hsize, Hc.
  - destruct (Simple.makedirs_ok (env v)) eqn:Hmk; simpl.
    + destruct (Simple.export_loop env rest home) as [r c] eqn:Hrest.
      intros [= <- <-]. destruct (IH _ _ eq_refl) as [IH1 IH2]. split.
      * intros Hr. destruct (IH1 Hr) as (Hall & Hs & He). split_and!.
        -- intros v0 [Heq|Hv0]%elem_of_cons; [subst v0|by apply Hall].
           unfold Simple.passes. cbn [fst]. by rewrite Hsize, Hc, Hmk.
        -- rewrite ?selected_query, ?selected_export, Hs. done.
        -- rewrite exports_query, exports_export, He. done.
      * intros Hr.
        destruct (IH2 Hr) as (pre & v' & b' & post & -> & Hall & Hp & Hs & He).
        exists ((v, b) :: pre), v', b', post. split_and!; [done| |done| |].
        -- intros v0 [Heq|Hv0]%elem_of_cons; [subst v0|by apply Hall].
           unfold Simple.passes. cbn [fst]. by rewrite Hsize, Hc, Hmk.
        -- rewrite ?selected_query, ?selected_export, Hs. done.
        -- rewrite exports_query, exports_export, He. cbn [List.filter app].
           unfold Simple.has_images. by rewrite Hsize, Hc.
    + intros [= <- <-]. split; [done|]. intros _.
      exists [], v, b, rest. split_and!; try done.
      * by intros v' ?%elem_of_nil.
      * unfold Simple.passes. by rewrite Hsize, Hc, Hmk.
Qed.

(** X17. [getCMIP6_simple] returns exactly when, for every entry it
    iterates over, the size query answers and, if the count is not 0, the
    directory can be made; an export that raises is caught and changes
    neither that nor the calls that follow. When it returns it has queried
    every entry and started an export, into [home/var_dir], for each with a
    count other than 0. When it does not, the entry whose size query or
    [os.makedirs] raised is the last one queried: no export is started for
    it or for any entry after it. *)
Theorem simple_driver_error_handling env variables home returned calls :
  Simple.getCMIP6_simple env variables home = (returned, calls) →
  let bands := Simple.select_bands variables in
  let export := fun '(var_dir, band) => (band, PyStr.path_join home var_dir) in
  let has_images := fun '(var_dir, _) => Simple.has_images (env var_dir) in
  (returned = true ↔ ∀ v, v ∈ bands.*1 → Simple.passes (env v) = true)
  ∧ (returned = true →
     Simple.selected calls = bands.*2
     ∧ Simple.exports calls = export <$> List.filter has_images bands)
  ∧ (returned = false →
     ∃ pre var_dir band post,
       bands = pre ++ (var_dir, band) :: post
       ∧ (∀ v, v ∈ pre.*1 → Simple.passes (env v) = true)
       ∧ Simple.passes (env var_dir) = false
       ∧ Simple.selected calls = (pre ++ [(var_dir, band)]).*2
       ∧ Simple.exports calls = export <$> List.filter has_images pre).
Proof.
  intros Hrun bands export has_images.
  destruct (simple_export_loop _ _ _ _ _ Hrun) as [H1 H2].
  split_and!.
  - split; [by intros Hr; destruct (H1 Hr)|].
    intros Hall. destruct returned; [done|].
    destruct (H2 eq_refl) as (pre & v & b & post & Hb & _ & Hp & _).
    rewrite Hall in Hp; [done|]. unfold bands. rewrite Hb, fmap_app, fmap_cons.
    apply elem_of_app. right. apply elem_of_cons. auto.
  - intros Hr. by destruct (H1 Hr) as (_ & ? & ?).
  - done.
Qed.

Lemma simple_driver_error_handling_witness :
  let env := fun v : string =>
    if String.eqb v "tas" then Simple.Env (Some 3%nat) true false
    else Simple.Env None true true in
  let run := Simple.getCMIP6_simple env (Some ["tasmin"; "temp"]) "out" in
  ∃ pre var_dir band post,
    Simple.select_bands (Some ["tasmin"; "temp"]) = pre ++ (var_dir, band) :: post
    ∧ (∀ v, v ∈ pre.*1 → Simple.passes (env v) = true)
    ∧ Simple.passes (env var_dir) = false
    ∧ Simple.selected run.2 = (pre ++ [(var_dir, band)]).*2
    ∧ Simple.exports run.2
      = (fun '(var_dir, band) => (band, PyStr.path_join "out" var_dir))
          <$> List.filter (fun '(var_dir, _) => Simple.has_images (env var_dir)) pre.
Proof.
  intros env run.
  destruct (simple_driver_error_handling env (Some ["tasmin"; "temp"]) "out"
              false run.2) as (_ & _ & H3).
  - vm_compute. reflexivity.
  - exact (H3 eq_refl).
Defined.
(** ** Arguments out of range *)

Lemma py_range_head n b :
  (0 < b)%nat → (0 < n)%nat → ∃ rest, py_range n b = 0%nat :: rest.
Proof.
  intros Hb Hn. unfold py_range.
  destruct (ceil_div_bounds n b Hb) as [Hle _].
  destruct ((n + b - 1) / b)%nat as [|c]; [simpl in Hle; lia|].
  cbn [seq]. rewrite fmap_cons. by eexists.
Qed.

Lemma run_batch_negative_permits utc_offset fetch imgs path mc bs start st fs :
  mc < 0 →
  ∃ st' evs,
    run_batch utc_offset fetch imgs path mc bs start st fs = (Caught st', fs, evs)
    ∧ Forall (fun e => is_fetched e = false) evs
    ∧ total st' = total st
    ∧ failed st' = failed st
    ∧ (accounted st' ≤ accounted st + bs)%nat
    ∧ (∀ k filename size, Skipped k filename size ∈ evs →
         (start ≤ k < start + bs)%nat).
Proof.
  intros Hmc. unfold run_batch.
  set (batch_end := Nat.min (start + bs) (total st)).
  destruct (prepare_tasks utc_offset path start 0 (slice imgs start batch_end) st fs)
    as [[tasks st1] evs1] eqn:Hprep.
  destruct (prepare_tasks_counters _ fetch _ _ _ _ _ _ _ _ _ Hprep)
    as (P1 & P2 & _ & _ & _ & P6 & _).
  destruct (prepare_tasks_indices _ _ _ _ _ _ _ _ _ _ Hprep) as (_ & Q2 & _).
  destruct (prepare_tasks_dispatch _ _ _ _ _ _ _ _ _ _ Hprep) as (D1 & _).
  assert (length (slice imgs start batch_end) ≤ bs)%nat as Hlen.
  { unfold slice. rewrite length_take. unfold batch_end. lia. }
  assert ((if mc <? 0 then true else false) = true) as Hneg.
  { by destruct (Z.ltb_spec mc 0); [|lia]. }
  exists st1, (BatchStarted (start / bs + 1) ((total st + bs - 1) / bs) :: evs1).
  split_and!.
  - destruct tasks as [tasks|]; [|done]. by destruct (Z.ltb_spec mc 0); [|lia].
  - by apply Forall_cons.
  - done.
  - done.
  - lia.
  - intros k filename size [[=]|Hin]%elem_of_cons.
    destruct (D1 _ _ _ Hin) as (j & img & -> & Hj & _).
    apply lookup_lt_Some in Hj. lia.
Qed.

(** X18. With a negative [max_concurrent], a positive batch size and a
    listing that is not empty, an export ends in the handler of line 197
    whatever is on disk: the semaphore of line 170 cannot be made. Nothing
    is fetched and no file changes; only the records of the first batch
    have been looked at, so [failed] is 0 and [successful] counts the
    complete files among the first [batch_size] records, even when every
    file of the listing is complete. *)
Theorem negative_permits utc_offset fetch images path mc bs fs :
  mc < 0 → 0 < bs → images ≠ [] →
  ∃ st log,
    export_with utc_offset fetch (Some images) path mc bs fs = (Caught st, fs, log)
    ∧ Forall (fun e => is_fetched e = false) log
    ∧ total st = length images
    ∧ failed st = 0%nat
    ∧ (successful st ≤ Z.to_nat bs)%nat
    ∧ (∀ k filename size, Skipped k filename size ∈ log → (k < Z.to_nat bs)%nat).
Proof.
  intros Hmc Hbs Hne. unfold export_with. simpl.
  destruct (Nat.eqb_spec (length images) 0) as [Hz|Hnz].
  { by apply length_zero_iff_nil in Hz. }
  destruct (Z.eqb_spec bs 0); [lia|]. destruct (Z.ltb_spec bs 0); [lia|].
  destruct (py_range_head (length images) (Z.to_nat bs)) as (rest & ->); [lia..|].
  cbn [batch_loop].
  destruct (run_batch_negative_permits utc_offset fetch images path mc (Z.to_nat bs)
              0 (Stats (length images) 0 0) fs Hmc)
    as (st & evs & -> & Hu & Ht & Hf & Ha & Hk).
  exists st, evs. unfold accounted in Ha. simpl in *.
  split_and!; [done|done|done|done|lia|].
  intros k filename size Hin. destruct (Hk _ _ _ Hin). lia.
Qed.

Lemma negative_permits_witness :
  ∃ st log,
    export_with Sample.utc (fetch_image Sample.env_up) (Some Sample.listing5)
      "out" (-1) 2 Sample.fs2 = (Caught st, Sample.fs2, log)
    ∧ Forall (fun e => is_fetched e = false) log
    ∧ total st = 5%nat
    ∧ failed st = 0%nat
    ∧ (successful st ≤ 2)%nat
    ∧ (∀ k filename size, Skipped k filename size ∈ log → (k < 2)%nat).
Proof.
  apply (negative_permits Sample.utc (fetch_image Sample.env_up) Sample.listing5
           "out" (-1) 2 Sample.fs2); [lia|lia|discriminate].
Defined.
